(** * Claude Code Agent (n8n): sandbox policy and execution supervisor

    A shallow embedding of
    - [common.ts]: workspace manager, path and command policy, result
      translator, sandboxed environment, audit log;
    - [V1/execute.ts]: [claudeCodeAgentExecute].

    JavaScript strings are sequences of UTF-16 code units, JavaScript
    objects used as records are finite maps from property names to values,
    asynchronous code is written in a state monad whose computations end
    normally, by a throw, or stay suspended at an [await]. The batch runs
    in a process that also holds the agent calls it has abandoned: they
    go on whenever the batch waits. *)

From Stdlib Require Import ZArith NArith Ascii String Bool Lia.
From stdpp Require Import gmap strings list fin_maps.

Set Warnings "-register-all".

(* ===================================================================== *)
(** * JavaScript strings and values *)
(* ===================================================================== *)

Module JS.

(** A string is the list of its UTF-16 code units. *)
Abbreviation jsstring := (list N).

(** The code units of an ASCII literal. *)
Definition js (x : string) : jsstring := map N_of_ascii (list_ascii_of_string x).
Arguments js x%_string.

Definition jsstring_eqb (a b : jsstring) : bool := bool_decide (a = b).

(** [s.startsWith(p)] *)
Fixpoint startsWith (s p : jsstring) : bool :=
  match p, s with
  | [], _ => true
  | _ :: _, [] => false
  | c :: p', d :: s' => N.eqb c d && startsWith s' p'
  end.

(** ECMAScript WhiteSpace and LineTerminator code points: what
    [String.prototype.trim] strips and what the class escape [\s] matches. *)
Definition is_line_terminator (c : N) : bool :=
  N.eqb c 10 || N.eqb c 13 || N.eqb c 8232 || N.eqb c 8233.

Definition is_whitespace (c : N) : bool :=
  (N.leb 9 c && N.leb c 13) || N.eqb c 32 || N.eqb c 160 || N.eqb c 5760
  || (N.leb 8192 c && N.leb c 8202) || N.eqb c 8232 || N.eqb c 8233
  || N.eqb c 8239 || N.eqb c 8287 || N.eqb c 12288 || N.eqb c 65279.

Fixpoint trimStart (s : jsstring) : jsstring :=
  match s with
  | c :: s' => if is_whitespace c then trimStart s' else s
  | [] => []
  end.

Definition trimEnd (s : jsstring) : jsstring := rev (trimStart (rev s)).

(** [s.trim()] *)
Definition trim (s : jsstring) : jsstring := trimEnd (trimStart s).

(** [s.split(sep)] for a one-character separator: never the empty list. *)
Fixpoint split_char (sep : N) (cur s : jsstring) : list jsstring :=
  match s with
  | [] => [cur]
  | c :: s' =>
      if N.eqb c sep then cur :: split_char sep [] s'
      else split_char sep (cur ++ [c]) s'
  end.

(** [s.split(/\s+/)]: a maximal run of white space is one separator; a
    separator at either end leaves an empty string there. *)
Fixpoint split_ws (in_sep : bool) (cur s : jsstring) : list jsstring :=
  match s with
  | [] => [cur]
  | c :: s' =>
      if is_whitespace c
      then (if in_sep then split_ws true cur s' else cur :: split_ws true [] s')
      else split_ws false (cur ++ [c]) s'
  end.

(** [parts.join(sep)] *)
Fixpoint join (sep : jsstring) (parts : list jsstring) : jsstring :=
  match parts with
  | [] => []
  | [p] => p
  | p :: rest => p ++ sep ++ join sep rest
  end.

(** [Buffer.toString('hex')]: two lower-case digits per byte. *)
Definition hex_digit (n : N) : N :=
  if N.ltb n 10 then (48 + n)%N else (87 + n)%N.

Definition to_hex (bytes : list N) : jsstring :=
  flat_map (fun b => [hex_digit (N.div (N.modulo b 256) 16); hex_digit (N.modulo b 16)]) bytes.

(** Values, as far as the code tells them apart. The code computes with
    integers only (lengths, indices, limits); a number it receives is
    tested for truth and for being a string, nothing else, so a number
    that is not an integer is read as an integer of the same truth value. *)
Inductive value :=
| VUndefined
| VNull
| VBool (b : bool)
| VNum (z : Z)
| VStr (s : jsstring)
| VArr (items : list value)
| VObj (o : gmap jsstring value).

Abbreviation obj := (gmap jsstring value).

(** Property read on an object: a missing property reads [undefined]. *)
Definition get (o : obj) (k : jsstring) : value := default VUndefined (o !! k).

(** [v?.k]: [undefined] on [null] and [undefined]; a primitive or an array
    has none of the properties read here. *)
Definition opt_get (v : value) (k : jsstring) : value :=
  match v with
  | VObj o => get o k
  | _ => VUndefined
  end.

(** ToBoolean *)
Definition truthy (v : value) : bool :=
  match v with
  | VUndefined | VNull => false
  | VBool b => b
  | VNum z => negb (Z.eqb z 0)
  | VStr s => match s with [] => false | _ => true end
  | VArr _ | VObj _ => true
  end.

(** [a || b] *)
Definition js_or (a b : value) : value := if truthy a then a else b.

(** [v === 'lit'] *)
Definition is_str (v : value) (lit : jsstring) : bool :=
  match v with
  | VStr s => jsstring_eqb s lit
  | _ => false
  end.

End JS.
Export JS.

(* ===================================================================== *)
(** * Regular expressions (the fragment the deny list uses) *)
(* ===================================================================== *)

Module Regex.

(** A pattern without back-references or assertions: whether it matches
    somewhere in a string only depends on its language. A group is its
    body. *)
Inductive regex :=
| RNone
| REps
| RSet (p : N -> bool)
| RCat (r1 r2 : regex)
| RAlt (r1 r2 : regex)
| RStar (r : regex).

Definition RPlus (r : regex) : regex := RCat r (RStar r).

(** The strings a pattern matches exactly. *)
Inductive lang : regex -> jsstring -> Prop :=
| lang_eps : lang REps []
| lang_set p c : p c = true -> lang (RSet p) [c]
| lang_cat r1 r2 s1 s2 : lang r1 s1 -> lang r2 s2 -> lang (RCat r1 r2) (s1 ++ s2)
| lang_alt_l r1 r2 s : lang r1 s -> lang (RAlt r1 r2) s
| lang_alt_r r1 r2 s : lang r2 s -> lang (RAlt r1 r2) s
| lang_star_nil r : lang (RStar r) []
| lang_star_app r s1 s2 : lang r s1 -> lang (RStar r) s2 -> lang (RStar r) (s1 ++ s2).

Fixpoint nullable (r : regex) : bool :=
  match r with
  | RNone => false
  | REps => true
  | RSet _ => false
  | RCat r1 r2 => nullable r1 && nullable r2
  | RAlt r1 r2 => nullable r1 || nullable r2
  | RStar _ => true
  end.

Definition cat (r1 r2 : regex) : regex :=
  match r1, r2 with
  | RNone, _ => RNone
  | _, RNone => RNone
  | REps, _ => r2
  | _, _ => RCat r1 r2
  end.

Definition alt (r1 r2 : regex) : regex :=
  match r1, r2 with
  | RNone, _ => r2
  | _, RNone => r1
  | _, _ => RAlt r1 r2
  end.

(** Brzozowski derivative: what is left to match after reading [c]. *)
Fixpoint deriv (c : N) (r : regex) : regex :=
  match r with
  | RNone => RNone
  | REps => RNone
  | RSet p => if p c then REps else RNone
  | RCat r1 r2 =>
      if nullable r1 then alt (cat (deriv c r1) r2) (deriv c r2)
      else cat (deriv c r1) r2
  | RAlt r1 r2 => alt (deriv c r1) (deriv c r2)
  | RStar r1 => cat (deriv c r1) (RStar r1)
  end.

(** Does the pattern match a prefix of [s]? *)
Fixpoint matches_prefix (r : regex) (s : jsstring) : bool :=
  nullable r ||
  match s with
  | [] => false
  | c :: s' => matches_prefix (deriv c r) s'
  end.

(** [pattern.test(s)] on a freshly evaluated literal ([lastIndex] is 0):
    every start index is tried, the end of the string included. *)
Fixpoint test (r : regex) (s : jsstring) : bool :=
  matches_prefix r s ||
  match s with
  | [] => false
  | _ :: s' => test r s'
  end.

(** Canonicalize of the [i] flag without [u]: simple upper-casing, and a
    code unit of 128 or more never folds onto an ASCII one. All pattern
    characters here are ASCII, so folding the ASCII letters decides the
    comparison for every input code unit. *)
Definition canonicalize (c : N) : N :=
  if N.leb 97 c && N.leb c 122 then (c - 32)%N else c.

Definition ichar (p : N) : N -> bool :=
  fun c => N.eqb (canonicalize c) (canonicalize p).

(** A literal run of pattern characters under the [i] flag. *)
Definition ilit (x : string) : regex :=
  fold_right (fun p r => RCat (RSet (ichar p)) r) REps (js x).
Arguments ilit x%_string.

(** [\s] *)
Definition space : regex := RSet is_whitespace.

(** [.] without the [s] flag *)
Definition dot : regex := RSet (fun c => negb (is_line_terminator c)).

Definition seq (rs : list regex) : regex := fold_right RCat REps rs.

End Regex.

(* ===================================================================== *)
(** * node:path (POSIX) *)
(* ===================================================================== *)

Module NodePath.

Definition slash : N := 47.
Definition dotdot : jsstring := js "..".

Definition isAbsolute (p : jsstring) : bool := startsWith p [slash].

(** [normalizeString]: drops empty and [.] segments; [..] removes the
    segment before it, is kept when nothing is left to remove and the path
    is relative, and is dropped at the root. [acc] is reversed. *)
Fixpoint normalize_segments (allowAboveRoot : bool) (acc segs : list jsstring)
  : list jsstring :=
  match segs with
  | [] => rev acc
  | seg :: rest =>
      if jsstring_eqb seg [] || jsstring_eqb seg (js ".")
      then normalize_segments allowAboveRoot acc rest
      else if jsstring_eqb seg dotdot
      then match acc with
           | prev :: acc' =>
               if jsstring_eqb prev dotdot
               then (if allowAboveRoot
                     then normalize_segments allowAboveRoot (seg :: acc) rest
                     else normalize_segments allowAboveRoot acc rest)
               else normalize_segments allowAboveRoot acc' rest
           | [] =>
               if allowAboveRoot
               then normalize_segments allowAboveRoot [seg] rest
               else normalize_segments allowAboveRoot [] rest
           end
      else normalize_segments allowAboveRoot (seg :: acc) rest
  end.

Definition normalizeString (path : jsstring) (allowAboveRoot : bool) : jsstring :=
  join [slash] (normalize_segments allowAboveRoot [] (split_char slash [] path)).

(** The right-to-left scan of [resolve]: prepend arguments until one is
    absolute; empty arguments are skipped. *)
Fixpoint resolve_scan (rev_paths : list jsstring) (resolvedPath : jsstring)
  : jsstring * bool :=
  match rev_paths with
  | [] => (resolvedPath, false)
  | p :: rest =>
      match p with
      | [] => resolve_scan rest resolvedPath
      | _ =>
          let resolvedPath' := p ++ [slash] ++ resolvedPath in
          if isAbsolute p then (resolvedPath', true)
          else resolve_scan rest resolvedPath'
      end
  end.

(** [path.resolve(...paths)] in a process whose working directory is
    [cwd]. *)
Definition resolve (cwd : jsstring) (paths : list jsstring) : jsstring :=
  let '(resolvedPath, resolvedAbsolute) := resolve_scan (rev paths ++ [cwd]) [] in
  let normalized := normalizeString resolvedPath (negb resolvedAbsolute) in
  if resolvedAbsolute then slash :: normalized
  else match normalized with [] => js "." | _ => normalized end.

(** [path.normalize(path)] *)
Definition normalize (path : jsstring) : jsstring :=
  match path with
  | [] => js "."
  | _ =>
      let absolute := isAbsolute path in
      let trailingSeparator := startsWith (rev path) [slash] in
      let p := normalizeString path (negb absolute) in
      match p with
      | [] => if absolute then [slash]
              else if trailingSeparator then js "./" else js "."
      | _ =>
          let p' := if trailingSeparator then p ++ [slash] else p in
          if absolute then slash :: p' else p'
      end
  end.

(** [path.join(...paths)] *)
Definition join_paths (paths : list jsstring) : jsstring :=
  match filter (fun p => p <> []) paths with
  | [] => js "."
  | ps => normalize (join [slash] ps)
  end.

(** The segments of a resolved path: [/a/b] has [a] and [b], the root has
    none. *)
Definition segments (resolved : jsstring) : list jsstring :=
  filter (fun seg => seg <> []) (split_char slash [] resolved).

Fixpoint common_prefix_length (a b : list jsstring) : nat :=
  match a, b with
  | x :: a', y :: b' => if jsstring_eqb x y then S (common_prefix_length a' b') else 0
  | _, _ => 0
  end.

(** [path.relative(from, to)]: resolve both, drop the segments they share,
    climb out of what is left of [from] and descend into what is left of
    [to]. *)
Definition relative (cwd from to : jsstring) : jsstring :=
  let f := segments (resolve cwd [from]) in
  let t := segments (resolve cwd [to]) in
  let n := common_prefix_length f t in
  join [slash] (repeat dotdot (length f - n) ++ drop n t).

End NodePath.

(* ===================================================================== *)
(** * Effects: process state, observable trace, completions *)
(* ===================================================================== *)

Module Async.

(** What a [throw] carries. [NodeOperationError text itemIndex] is the
    error [new NodeOperationError(node, text, { itemIndex })] builds;
    [Error] and [TypeError] are the errors of the language and of the
    file system. *)
Inductive error :=
| NodeOperationError (text : jsstring) (itemIndex : option nat)
| Error (message : jsstring)
| TypeError (message : jsstring).

(** [error.message]. The class [NodeOperationError] belongs to
    n8n-workflow, which is not among the files embedded here: its
    constructor does not always keep the text it is given, and
    [NodeError_message text] stands for the message of an error built from
    [text]. *)
Definition error_message (NodeError_message : jsstring -> jsstring) (e : error) : jsstring :=
  match e with
  | NodeOperationError text _ => NodeError_message text
  | Error m => m
  | TypeError m => m
  end.

Inductive log_level := Info | Warn.

(** What the run does to the outside, in order: log lines and file-system
    calls. *)
Inductive event :=
| ELog (level : log_level) (message : jsstring) (meta : obj)
| EMkdir (path : jsstring)
| ERm (path : jsstring).

(** The process-wide state: [process.env] and what was emitted so far. *)
Record State := mkState {
  process_env : gmap jsstring jsstring;
  trace : list event;
}.

(** How an asynchronous computation stands when control comes back to its
    caller: it returned, it threw, or it is still waiting at an [await]
    ([Suspended]); a suspended computation has run none of the code after
    that [await], its [finally] blocks included. *)
Inductive completion (A : Type) :=
| Normal (a : A)
| Thrown (e : error)
| Suspended.
Arguments Normal {A} a.
Arguments Thrown {A} e.
Arguments Suspended {A}.

(** A computation over a state of type [S]. *)
Definition MS (S A : Type) : Type := S -> completion A * S.

(** The computations of one call, over [process.env] and the trace. *)
Definition M (A : Type) : Type := MS State A.

Definition ret {S A : Type} (a : A) : MS S A := fun s => (Normal a, s).

Definition bind {S A B : Type} (m : MS S A) (f : A -> MS S B) : MS S B :=
  fun s =>
    match m s with
    | (Normal a, s') => f a s'
    | (Thrown e, s') => (Thrown e, s')
    | (Suspended, s') => (Suspended, s')
    end.

Definition throw {S A : Type} (e : error) : MS S A := fun s => (Thrown e, s).

(** An [await] whose promise does not settle. *)
Definition suspend {S A : Type} : MS S A := fun s => (Suspended, s).

(** [try { body } catch (e) { handler e }] *)
Definition try_catch {S A : Type} (body : MS S A) (handler : error -> MS S A) : MS S A :=
  fun s =>
    match body s with
    | (Thrown e, s') => handler e s'
    | r => r
    end.

(** [try { body } finally { fin }]: [fin] runs when [body] returns or
    throws, and a throw of [fin] replaces the outcome. *)
Definition try_finally {S A : Type} (body : MS S A) (fin : MS S unit) : MS S A :=
  fun s =>
    match body s with
    | (Suspended, s') => (Suspended, s')
    | (r, s') =>
        match fin s' with
        | (Normal _, s'') => (r, s'')
        | (Thrown e, s'') => (Thrown e, s'')
        | (Suspended, s'') => (Suspended, s'')
        end
    end.

Definition emit (ev : event) : M unit :=
  fun s => (Normal tt, mkState (process_env s) (trace s ++ [ev])).

(** [process.env[k] = v] and [delete process.env[k]] *)
Definition setenv (k v : jsstring) : M unit :=
  fun s => (Normal tt, mkState (<[k := v]> (process_env s)) (trace s)).

Definition unsetenv (k : jsstring) : M unit :=
  fun s => (Normal tt, mkState (delete k (process_env s)) (trace s)).

(** An outcome the host decides (a helper that may throw). *)
Definition host_result {S A : Type} (r : error + A) : MS S A :=
  match r with
  | inl e => throw e
  | inr a => ret a
  end.

End Async.
Export Async.

Declare Scope async_scope.
Delimit Scope async_scope with async.
Notation "x <- m ;; k" := (bind m (fun x => k))
  (at level 100, m at next level, right associativity) : async_scope.
Notation "m ;; k" := (bind m (fun _ => k))
  (at level 100, right associativity) : async_scope.
Open Scope async_scope.

(* ===================================================================== *)
(** * common.ts *)
(* ===================================================================== *)

Module Common.

(** Security configuration for the Claude Agent sandbox *)
Record SandboxConfig := mkSandboxConfig {
  workspacePath : jsstring;
  enableFileAccess : bool;
  enableCodeExecution : bool;
  enableBashCommands : bool;
  allowedCommands : list jsstring;
  timeout : Z;
}.

(** Workspace context for isolated agent execution. [created] is the
    reading of the wall clock. *)
Record WorkspaceContext := mkWorkspaceContext {
  path : jsstring;
  workflowId : jsstring;
  executionId : jsstring;
  created : jsstring;
}.

(** The places at which the batch of [execute.ts] waits once it has its
    workspace: for the SDK module and for the credentials of an item, for
    the next message of the item's stream (after [consumed] of them), for
    the main flow to go on once the race of an item has settled, for
    [fs.rm], and for the main flow to go on once the teardown has
    returned. While the batch waits, other asynchronous code of the
    process runs. *)
Inductive wait :=
| WaitImport (itemIndex : nat)
| WaitCredentials (itemIndex : nat)
| WaitMessage (itemIndex consumed : nat)
| WaitRace (itemIndex : nat)
| WaitRm
| WaitTeardown.

(** What the code asks of its surroundings: the n8n execution context
    ([IExecuteFunctions]), the operating system and the event loop. The
    file system and the clock answer through oracles; [clock n] is the
    time read when [n] events have been emitted. [NodeError_message] is
    the message n8n-workflow gives a node error built from a text.
    [delivered w] lists, in order, the deliveries the streams of abandoned
    agent calls make while the batch waits at [w]: each names the item
    whose call receives the next result of its stream. *)
Record Host := mkHost {
  getWorkflow_id : option jsstring;
  getExecutionId : jsstring;
  getNode_name : jsstring;
  continueOnFail : bool;
  tmpdir : jsstring;
  cwd : jsstring;
  randomBytes : nat -> list N;
  mkdir : jsstring -> option error;
  rm : jsstring -> option error;
  clock : nat -> jsstring;
  NodeError_message : jsstring -> jsstring;
  delivered : wait -> list nat;
}.

Definition logger (level : log_level) (message : jsstring) (meta : obj) : M unit :=
  emit (ELog level message meta).

(** [new Date()] *)
Definition now (context : Host) : M jsstring :=
  fun s => (Normal (clock context (length (trace s))), s).

Definition deniedPaths : list jsstring :=
  [js "/etc"; js "/root"; js "/sys"; js "/proc"; js "/dev"; js "/boot"].

(** Creates a sandboxed workspace directory for agent execution.
    [customPath] is [None] for [undefined]. *)
Definition createSandboxedWorkspace (context : Host) (customPath : option jsstring)
  : M WorkspaceContext :=
  let workflowId := default (js "unknown") (getWorkflow_id context) in
  let executionId := getExecutionId context in
  let randomId := to_hex (randomBytes context 8) in
  workspacePath <-
    (if truthy (from_option VStr VUndefined customPath)
     then
       let customPath := default [] customPath in
       if negb (startsWith customPath (js "/"))
       then throw (NodeOperationError (js "Workspace path must be an absolute path") None)
       else if existsb (fun denied => startsWith customPath denied) deniedPaths
       then throw (NodeOperationError
                     (js "Workspace path cannot be in sensitive system directories: "
                      ++ join (js ", ") deniedPaths) None)
       else ret (NodePath.resolve (cwd context) [customPath; js "claude-agent-" ++ randomId])
     else
       ret (NodePath.join_paths [tmpdir context; js "n8n-claude-agent"; workflowId; randomId])) ;;
  emit (EMkdir workspacePath) ;;
  host_result (match mkdir context workspacePath with Some e => inl e | None => inr tt end) ;;
  logger Info (js "Created sandboxed workspace")
    {[ js "workspacePath" := VStr workspacePath;
       js "workflowId" := VStr workflowId;
       js "executionId" := VStr executionId ]} ;;
  created <- now context ;;
  ret (mkWorkspaceContext workspacePath workflowId executionId created).

(** Cleans up the sandboxed workspace after execution *)
Definition cleanupSandboxedWorkspace (context : Host) (workspace : WorkspaceContext)
  : M unit :=
  try_catch
    (emit (ERm (path workspace)) ;;
     host_result (match rm context (path workspace) with Some e => inl e | None => inr tt end) ;;
     logger Info (js "Cleaned up sandboxed workspace")
       {[ js "workspacePath" := VStr (path workspace) ]})
    (fun error =>
       logger Warn (js "Failed to cleanup workspace")
         {[ js "workspacePath" := VStr (path workspace);
            js "error" := VStr (error_message (NodeError_message context) error) ]}).

(** [cleanupSandboxedWorkspace] from the point where [fs.rm], already
    called, settles: the rest of the [try] block and the [catch]. *)
Definition cleanup_settled (context : Host) (workspace : WorkspaceContext) : M unit :=
  try_catch
    (host_result (match rm context (path workspace) with Some e => inl e | None => inr tt end) ;;
     logger Info (js "Cleaned up sandboxed workspace")
       {[ js "workspacePath" := VStr (path workspace) ]})
    (fun error =>
       logger Warn (js "Failed to cleanup workspace")
         {[ js "workspacePath" := VStr (path workspace);
            js "error" := VStr (error_message (NodeError_message context) error) ]}).

(** Validates that a file path is within the allowed workspace.
    [process_cwd] is what [resolve] reads from the process. *)
Definition validatePath (process_cwd filePath workspacePath : jsstring) : bool :=
  let resolvedPath := NodePath.resolve process_cwd [filePath] in
  let resolvedWorkspace := NodePath.resolve process_cwd [workspacePath] in
  let relativePath := NodePath.relative process_cwd resolvedWorkspace resolvedPath in
  negb (startsWith relativePath (js "..")) && negb (startsWith filePath (js "/")).

(** Checks if a command is allowed based on the whitelist *)
Definition isCommandAllowed (command : jsstring) (allowedCommands : list jsstring) : bool :=
  match split_ws false [] (trim command) with
  | baseCommand :: _ => bool_decide (baseCommand ∈ allowedCommands)
  | [] => false
  end.

Import Regex.

(** The deny list, in the order of the source. The last literal,
    [/:(){ :|:& };:/], has one top-level [|]: it reads as the alternative
    of [:(){ :] (a colon, an empty group, then the characters [{ :]) and
    [:& };:]. *)
Definition dangerousPatterns : list regex :=
  [ seq [ilit "rm"; RPlus space; ilit "-rf"; RPlus space; ilit "/"];
    ilit "sudo";
    seq [ilit "chmod"; RPlus space; ilit "777"];
    seq [ilit "curl"; RStar dot; ilit "|"; RStar dot; ilit "sh"];
    seq [ilit "wget"; RStar dot; ilit "|"; RStar dot; ilit "sh"];
    seq [ilit ">"; RStar space; ilit "/dev/sda"];
    ilit "mkfs";
    seq [ilit "dd"; RPlus space; ilit "if="];
    RAlt (seq [ilit ":"; REps; ilit "{ :"]) (ilit ":& };:") ].

(** Filters and validates bash commands for security *)
Definition filterCommand (command : jsstring) (config : SandboxConfig) : option jsstring :=
  if negb (enableBashCommands config) then None
  else if existsb (fun pattern => test pattern command) dangerousPatterns then None
  else if negb (isCommandAllowed command (allowedCommands config)) then None
  else Some command.

Record INodeExecutionData := mkData { json : obj }.

(** Converts Claude Agent SDK message to n8n execution data *)
Definition convertAgentMessageToN8nData (message : obj) (returnIntermediateSteps : bool)
  : INodeExecutionData :=
  let data : obj := {[ js "type" := get message (js "type") ]} in
  let type := get message (js "type") in
  mkData
    (if is_str type (js "text") then
       <[ js "text" := get message (js "text") ]> data
     else if is_str type (js "tool_use") then
       if returnIntermediateSteps
       then <[ js "toolCallId" := get message (js "id") ]>
              (<[ js "toolInput" := get message (js "input") ]>
                 (<[ js "tool" := get message (js "tool") ]> data))
       else data
     else if is_str type (js "tool_result") then
       if returnIntermediateSteps
       then <[ js "toolResult" := get message (js "content") ]>
              (<[ js "toolCallId" := get message (js "tool_use_id") ]> data)
       else data
     else if is_str type (js "result") then
       <[ js "output" := get message (js "result") ]> data
     else
       <[ js "message" := VObj message ]> data).

(** Creates a sanitized environment for command execution *)
Definition createSandboxedEnvironment (workspace : WorkspaceContext) : gmap jsstring jsstring :=
  <[ js "USER" := js "n8n-agent" ]>
    (<[ js "SHELL" := js "/bin/sh" ]>
       (<[ js "WORKSPACE" := path workspace ]>
          (<[ js "PATH" := js "/usr/local/bin:/usr/bin:/bin" ]>
             {[ js "HOME" := path workspace ]}))).

(** Audit logs an agent action for security monitoring. The spread of
    [details] comes last, so its properties win. *)
Definition auditLog (context : Host) (action : jsstring) (details : obj) : M unit :=
  timestamp <- now context ;;
  logger Info (js "[AUDIT] Claude Agent: " ++ action)
    (details ∪
     {[ js "workflowId" := from_option VStr VUndefined (getWorkflow_id context);
        js "executionId" := VStr (getExecutionId context);
        js "node" := VStr (getNode_name context);
        js "timestamp" := VStr timestamp ]}).

End Common.

(* ===================================================================== *)
(** * V1/execute.ts *)
(* ===================================================================== *)

Module Execute.

Import Common.

(** The node's [options] collection; [None] is a property that was not
    set. *)
Record Options := mkOptions {
  opt_systemMessage : option jsstring;
  opt_maxTurns : option Z;
  opt_enableFileAccess : option bool;
  opt_enableCodeExecution : option bool;
  opt_enableBashCommands : option bool;
  opt_allowedCommands : option jsstring;
  opt_workspacePath : option jsstring;
  opt_timeout : option Z;
  opt_returnIntermediateSteps : option bool;
  opt_enableStreaming : option bool;
}.

(** How the message stream of one [query] call ends. *)
Inductive stream_end :=
| Completes
| Fails (e : error)
| Hangs.

(** The agent SDK's answer to one [query]: the messages it yields, then
    how it ends. *)
Record Stream := mkStream {
  messages : list obj;
  ending : stream_end;
}.

(** What the surroundings do for one input item. [deadline = Some k]: the
    timer of the race fires while the stream consumer waits for the item
    after its first [k] messages; [None]: the stream settles first (a
    stream that hangs always loses the race). The timer callback can only
    run while the consumer is waiting, so these are all the ways the race
    can go. A call that lost the race is not cancelled: what its stream
    still holds is delivered to it when the host says so
    ([delivered]). *)
Record Item := mkItem {
  getPromptInputByType : error + jsstring;
  import_sdk : option (jsstring -> Z -> Stream);
  getCredentials : error + option jsstring;
  deadline : option nat;
}.

Definition ANTHROPIC_API_KEY : jsstring := js "ANTHROPIC_API_KEY".

Definition nl : jsstring := [10%N].

Definition num (n : nat) : value := VNum (Z.of_nat n).

(** [x || d] on numbers and on strings, [x !== false], [x === true] *)
Definition or_num (x : option Z) (d : Z) : Z :=
  match x with Some z => if Z.eqb z 0 then d else z | None => d end.

Definition or_str (x : option jsstring) (d : jsstring) : jsstring :=
  match x with Some (c :: r) => c :: r | _ => d end.

Definition not_false (x : option bool) : bool := default true x.
Definition is_true (x : option bool) : bool := default false x.

(** [v.length] *)
Definition get_length (v : value) : M value :=
  match v with
  | VUndefined =>
      throw (TypeError (js "Cannot read properties of undefined (reading 'length')"))
  | VNull =>
      throw (TypeError (js "Cannot read properties of null (reading 'length')"))
  | VStr s => ret (num (length s))
  | VArr items => ret (num (length items))
  | VObj o => ret (get o (js "length"))
  | _ => ret VUndefined
  end.

(** The command of a tool invocation that goes through the filter: the
    tool is a shell tool and [input?.command || input?.cmd] is a non-empty
    string. *)
Definition command_to_filter (msg : obj) : option jsstring :=
  if is_str (get msg (js "tool")) (js "bash")
     || is_str (get msg (js "tool")) (js "execute_command")
  then
    let command := js_or (opt_get (get msg (js "input")) (js "command"))
                         (opt_get (get msg (js "input")) (js "cmd")) in
    match command with
    | VStr c => if truthy command then Some c else None
    | _ => None
    end
  else None.

(** The body of the [for await] loop: one message, fully processed.
    [agentMessages] and [finalResult] are the variables of the enclosing
    item. *)
Definition on_message (context : Host) (sandboxConfig : SandboxConfig)
    (itemIndex : nat) (returnIntermediateSteps enableStreaming : bool)
    (msg : obj) (vars : list INodeExecutionData * value)
  : M (list INodeExecutionData * value) :=
  let '(agentMessages, finalResult) := vars in
  let n8nData := convertAgentMessageToN8nData msg returnIntermediateSteps in
  let agentMessages := if enableStreaming then agentMessages ++ [n8nData] else agentMessages in
  finalResult <-
    (if is_str (get msg (js "type")) (js "result") then
       let finalResult := get msg (js "result") in
       resultLength <- get_length finalResult ;;
       auditLog context (js "AGENT_COMPLETE")
         {[ js "itemIndex" := num itemIndex; js "resultLength" := resultLength ]} ;;
       ret finalResult
     else ret finalResult) ;;
  (if is_str (get msg (js "type")) (js "tool_use") then
     auditLog context (js "TOOL_USE")
       {[ js "itemIndex" := num itemIndex;
          js "tool" := get msg (js "tool");
          js "toolInput" := get msg (js "input") ]} ;;
     match command_to_filter msg with
     | Some command =>
         (* a command that passes comes back as it is, and it is not empty
            here: [!filteredCommand] holds for [null] only *)
         match filterCommand command sandboxConfig with
         | None =>
             logger Warn (js "Blocked dangerous command")
               {[ js "command" := VStr command; js "itemIndex" := num itemIndex ]} ;;
             throw (NodeOperationError
                      (js "Command blocked by security filters: " ++ command)
                      (Some itemIndex))
         | Some _ => ret tt
         end
     | None => ret tt
     end
   else ret tt) ;;
  ret (agentMessages, finalResult).

(** ** Agent calls that lost their race

    [Promise.race] cancels nothing: an [executeAgent] call that was still
    waiting for its stream when the timer fired stays in the process. It
    is resumed whenever its stream delivers, runs the loop body and in the
    end its [finally], while the batch goes on. *)

(** An abandoned call, where it waits: the item it ran for, what its
    stream still holds and how the stream ends, and its loop variables. *)
Record Consumer := mkConsumer {
  consumer_item : nat;
  consumer_messages : list obj;
  consumer_ending : stream_end;
  consumer_vars : list INodeExecutionData * value;
}.

(** The process while a batch runs: [process.env] and the trace, and the
    calls the batch has abandoned so far, oldest first. *)
Record Process := mkProcess {
  shared : State;
  abandoned : list Consumer;
}.

Coercion shared : Process >-> State.

(** The computations of the batch, over the process. *)
Definition MP (A : Type) : Type := MS Process A.

(** Code that runs without giving way to the abandoned calls. *)
Definition lift {A : Type} (m : M A) : MP A :=
  fun p => let (r, s) := m (shared p) in (r, mkProcess s (abandoned p)).

(** One delivery to an abandoned call. A message goes through the loop
    body; a throw of the body, the end of the stream or its failure ends
    the call through its [finally]. Nobody is left to see how it ended. A
    call whose stream hangs stays as it is. *)
Definition deliver (context : Host) (sandboxConfig : SandboxConfig)
    (returnIntermediateSteps enableStreaming : bool) (c : Consumer)
  : M (option Consumer) :=
  match consumer_messages c with
  | msg :: rest =>
      try_catch
        (vars <- on_message context sandboxConfig (consumer_item c)
                   returnIntermediateSteps enableStreaming msg (consumer_vars c) ;;
         ret (Some (mkConsumer (consumer_item c) rest (consumer_ending c) vars)))
        (fun _ => unsetenv ANTHROPIC_API_KEY ;; ret None)
  | [] =>
      match consumer_ending c with
      | Hangs => ret (Some c)
      | Completes | Fails _ => unsetenv ANTHROPIC_API_KEY ;; ret None
      end
  end.

(** A delivery to the call abandoned for item [itemIndex], if there is
    one. *)
Fixpoint deliver_to (context : Host) (sandboxConfig : SandboxConfig)
    (returnIntermediateSteps enableStreaming : bool) (itemIndex : nat)
    (waiting : list Consumer) : M (list Consumer) :=
  match waiting with
  | [] => ret []
  | c :: others =>
      if Nat.eqb (consumer_item c) itemIndex
      then
        c' <- deliver context sandboxConfig returnIntermediateSteps enableStreaming c ;;
        ret (match c' with Some c' => c' :: others | None => others end)
      else
        others' <- deliver_to context sandboxConfig returnIntermediateSteps enableStreaming
                     itemIndex others ;;
        ret (c :: others')
  end.

Fixpoint deliveries (context : Host) (sandboxConfig : SandboxConfig)
    (returnIntermediateSteps enableStreaming : bool) (order : list nat)
    (waiting : list Consumer) : M (list Consumer) :=
  match order with
  | [] => ret waiting
  | itemIndex :: order' =>
      waiting' <- deliver_to context sandboxConfig returnIntermediateSteps enableStreaming
                    itemIndex waiting ;;
      deliveries context sandboxConfig returnIntermediateSteps enableStreaming order' waiting'
  end.

(** What the abandoned calls do while the batch waits at [w]. It always
    comes back: the second branch is never taken ([deliver] catches what
    the loop body throws). *)
Definition meanwhile (context : Host) (sandboxConfig : SandboxConfig)
    (returnIntermediateSteps enableStreaming : bool) (w : wait) : MP unit :=
  fun p =>
    match deliveries context sandboxConfig returnIntermediateSteps enableStreaming
            (delivered context w) (abandoned p) (shared p) with
    | (Normal waiting, s) => (Normal tt, mkProcess s waiting)
    | (_, s) => (Normal tt, mkProcess s (abandoned p))
    end.

(** [await promise] in the main flow: once the promise has settled, the
    main flow goes on after what else was ready to run. *)
Definition awaited (context : Host) (sandboxConfig : SandboxConfig)
    (returnIntermediateSteps enableStreaming : bool) (w : wait) {A : Type}
    (promise : MP A) : MP A :=
  fun p =>
    let (r, p') := promise p in
    (r, (meanwhile context sandboxConfig returnIntermediateSteps enableStreaming w p').2).

(** The call stays where it waits: it joins the abandoned calls. *)
Definition left_waiting {A : Type} (c : Consumer) : MP A :=
  fun p => (Suspended, mkProcess (shared p) (abandoned p ++ [c])).

(** [for await (const msg of stream) { ... }] with the loop body of
    [executeAgent]: [consumed] messages were taken so far. While the call
    waits for the next one the abandoned calls run. The call is left
    waiting where the timer fires and where the stream hangs; a throw of
    the body ends the loop, the stream is not asked for more. *)
Fixpoint for_await (context : Host) (sandboxConfig : SandboxConfig) (itemIndex : nat)
    (returnIntermediateSteps enableStreaming : bool)
    (deadline : option nat) (consumed : nat) (msgs : list obj) (ending : stream_end)
    (vars : list INodeExecutionData * value) : MP (list INodeExecutionData * value) :=
  meanwhile context sandboxConfig returnIntermediateSteps enableStreaming
    (WaitMessage itemIndex consumed) ;;
  if bool_decide (deadline = Some consumed)
  then left_waiting (mkConsumer itemIndex msgs ending vars)
  else
    match msgs with
    | [] =>
        match ending with
        | Completes => ret vars
        | Fails e => throw e
        | Hangs => left_waiting (mkConsumer itemIndex [] Hangs vars)
        end
    | msg :: rest =>
        vars' <- lift (on_message context sandboxConfig itemIndex returnIntermediateSteps
                         enableStreaming msg vars) ;;
        for_await context sandboxConfig itemIndex returnIntermediateSteps enableStreaming
          deadline (S consumed) rest ending vars'
    end.

(** The [executeAgent] closure of one item. *)
Definition executeAgent (context : Host) (sandboxConfig : SandboxConfig)
    (itemIndex : nat) (returnIntermediateSteps enableStreaming : bool)
    (apiKey : jsstring) (stream : Stream) (deadline : option nat)
  : MP (list INodeExecutionData * value) :=
  try_finally
    (lift (setenv ANTHROPIC_API_KEY apiKey) ;;
     for_await context sandboxConfig itemIndex returnIntermediateSteps enableStreaming
       deadline 0 (messages stream) (ending stream) ([], VStr []))
    (lift (unsetenv ANTHROPIC_API_KEY)).

(** [Promise.race([executeAgent(), timeoutPromise])]: the race is lost
    exactly when [executeAgent] is still waiting as the timer fires; the
    race rejects and [executeAgent] is not cancelled. *)
Definition race_timeout {S A : Type} (agent : MS S A) : MS S A :=
  fun s =>
    match agent s with
    | (Suspended, s') => (Thrown (Error (js "Agent execution timeout")), s')
    | r => r
    end.

Definition on_off (b : bool) : jsstring := if b then js "ENABLED" else js "DISABLED".

Definition fullPrompt (systemMessage : jsstring) (workspace : WorkspaceContext)
    (enableFileAccess enableCodeExecution enableBashCommands : bool)
    (allowedCommands : list jsstring) (prompt : jsstring) : jsstring :=
  systemMessage ++ nl ++ nl
  ++ js "You are working in a sandboxed workspace at: " ++ path workspace ++ nl ++ nl
  ++ js "Security constraints:" ++ nl
  ++ js "- File access: " ++ on_off enableFileAccess ++ nl
  ++ js "- Code execution: " ++ on_off enableCodeExecution ++ nl
  ++ js "- Bash commands: "
  ++ (if enableBashCommands
      then js "ENABLED (allowed: " ++ join (js ", ") allowedCommands ++ js ")"
      else js "DISABLED") ++ nl ++ nl
  ++ js "User request:" ++ nl
  ++ prompt.

(** The [try] block of one loop iteration: the records this item adds to
    [returnData]. *)
Definition run_item (context : Host) (options : Options) (sandboxConfig : SandboxConfig)
    (workspace : WorkspaceContext) (itemIndex : nat) (item : Item)
  : MP (list INodeExecutionData) :=
  let systemMessage := or_str (opt_systemMessage options) [] in
  let maxTurns := or_num (opt_maxTurns options) 10 in
  let returnIntermediateSteps := is_true (opt_returnIntermediateSteps options) in
  let enableStreaming := not_false (opt_enableStreaming options) in
  prompt <- host_result (getPromptInputByType item) ;;
  (if negb (truthy (VStr prompt))
   then throw (NodeOperationError (js "No prompt provided for Claude Agent") (Some itemIndex))
   else ret tt) ;;
  lift (auditLog context (js "AGENT_START")
          {[ js "itemIndex" := num itemIndex;
             js "promptLength" := num (length prompt);
             js "workspace" := VStr (path workspace) ]}) ;;
  query <-
    awaited context sandboxConfig returnIntermediateSteps enableStreaming
      (WaitImport itemIndex)
      match import_sdk item with
      | Some query => ret query
      | None =>
          throw (NodeOperationError
                   (js "Failed to load Claude Agent SDK. Make sure @anthropic-ai/claude-agent-sdk is installed.")
                   (Some itemIndex))
      end ;;
  credentials <-
    awaited context sandboxConfig returnIntermediateSteps enableStreaming
      (WaitCredentials itemIndex) (host_result (getCredentials item)) ;;
  apiKey <-
    (if truthy (from_option VStr VUndefined credentials)
     then ret (default [] credentials)
     else throw (NodeOperationError
                   (js "Anthropic API key not found. Please configure Anthropic credentials.")
                   (Some itemIndex))) ;;
  let fullPrompt :=
    fullPrompt systemMessage workspace
      (enableFileAccess sandboxConfig) (enableCodeExecution sandboxConfig)
      (enableBashCommands sandboxConfig) (allowedCommands sandboxConfig) prompt in
  vars <-
    awaited context sandboxConfig returnIntermediateSteps enableStreaming
      (WaitRace itemIndex)
      (race_timeout
         (executeAgent context sandboxConfig itemIndex returnIntermediateSteps enableStreaming
            apiKey (query fullPrompt maxTurns) (deadline item))) ;;
  let '(agentMessages, finalResult) := vars in
  if enableStreaming && returnIntermediateSteps
  then ret agentMessages
  else ret [mkData {[ js "output" := finalResult; js "workspace" := VStr (path workspace) ]}].

(** The loop over the input items, with its per-item [catch]. *)
Fixpoint process_items (context : Host) (options : Options) (sandboxConfig : SandboxConfig)
    (workspace : WorkspaceContext) (itemIndex : nat) (items : list Item)
    (returnData : list INodeExecutionData) : MP (list INodeExecutionData) :=
  match items with
  | [] => ret returnData
  | item :: rest =>
      returnData' <-
        try_catch
          (added <- run_item context options sandboxConfig workspace itemIndex item ;;
           ret (returnData ++ added))
          (fun error =>
             if continueOnFail context
             then ret (returnData ++
                       [mkData {[ js "error" :=
                                    VStr (error_message (NodeError_message context) error);
                                  js "itemIndex" := num itemIndex ]}])
             else throw error) ;;
      process_items context options sandboxConfig workspace (S itemIndex) rest returnData'
  end.

Definition sandboxConfig_of (options : Options) (workspacePath : jsstring) : SandboxConfig :=
  let allowedCommandsStr := or_str (opt_allowedCommands options) (js "node,python3,npm,pip,git") in
  mkSandboxConfig workspacePath
    (not_false (opt_enableFileAccess options))
    (not_false (opt_enableCodeExecution options))
    (is_true (opt_enableBashCommands options))
    (map trim (split_char 44 [] allowedCommandsStr))
    (or_num (opt_timeout options) 300000).

(** [await cleanupSandboxedWorkspace(this, workspace)] seen from the
    process: the call is made; the abandoned calls run while [fs.rm] is
    awaited, and again before the main flow goes on. *)
Definition awaited_cleanup (context : Host) (options : Options)
    (sandboxConfig : SandboxConfig) (workspace : WorkspaceContext) : MP unit :=
  let returnIntermediateSteps := is_true (opt_returnIntermediateSteps options) in
  let enableStreaming := not_false (opt_enableStreaming options) in
  awaited context sandboxConfig returnIntermediateSteps enableStreaming WaitTeardown
    (lift (emit (ERm (path workspace))) ;;
     meanwhile context sandboxConfig returnIntermediateSteps enableStreaming WaitRm ;;
     lift (cleanup_settled context workspace)).

(** The part of a batch in which agent calls run, from a process in which
    the batch has abandoned none, to the point where the batch returns:
    what the calls still abandoned then do later is not followed. *)
Definition alone {A : Type} (m : MP A) : M A :=
  fun s => let (r, p) := m (mkProcess s []) in (r, shared p).

(** Main execution function for Claude Code Agent. A throw of
    [createSandboxedWorkspace] leaves [workspace] null, and the [finally]
    block then has nothing to clean up. *)
Definition claudeCodeAgentExecute (context : Host) (options : Options) (items : list Item)
  : M (list (list INodeExecutionData)) :=
  let sandboxConfig := sandboxConfig_of options [] in
  auditLog context (js "AGENT_INIT")
    {[ js "enableFileAccess" := VBool (enableFileAccess sandboxConfig);
       js "enableCodeExecution" := VBool (enableCodeExecution sandboxConfig);
       js "enableBashCommands" := VBool (enableBashCommands sandboxConfig);
       js "allowedCommands" := VArr (map VStr (allowedCommands sandboxConfig));
       js "maxTurns" := VNum (or_num (opt_maxTurns options) 10) ]} ;;
  workspace <- createSandboxedWorkspace context (opt_workspacePath options) ;;
  let sandboxConfig := sandboxConfig_of options (path workspace) in
  returnData <-
    alone
      (try_finally
         (process_items context options sandboxConfig workspace 0 items [])
         (awaited_cleanup context options sandboxConfig workspace)) ;;
  ret [returnData].

End Execute.

(* ===================================================================== *)
(** * What the statements below observe *)
(* ===================================================================== *)

Module Observations.

Import Common Execute.

(** ** Path containment, as the specification words it *)

(** The candidate canonicalizes to a location at or below the workspace. *)
Definition canonically_within (process_cwd candidate workspace : jsstring) : bool :=
  bool_decide (NodePath.segments (NodePath.resolve process_cwd [workspace])
               `prefix_of` NodePath.segments (NodePath.resolve process_cwd [candidate])).

(** The candidate, as written, is an absolute path that does not lie under
    the workspace. *)
Definition raw_absolute_outside (process_cwd candidate workspace : jsstring) : bool :=
  NodePath.isAbsolute candidate
  && negb (bool_decide (NodePath.segments (NodePath.resolve process_cwd [workspace])
                        `prefix_of` NodePath.segments candidate)).

(** [isPathContained] of the specification's testable property. *)
Definition spec_isPathContained (process_cwd candidate workspace : jsstring) : bool :=
  canonically_within process_cwd candidate workspace
  && negb (raw_absolute_outside process_cwd candidate workspace).

(** A plain path segment: a name, neither empty nor [.] nor [..], without
    a separator in it. *)
Definition plain (seg : jsstring) : Prop :=
  seg <> [] /\ seg <> js "." /\ seg <> NodePath.dotdot /\ NodePath.slash ∉ seg.

(** ** Traces *)

(** The events emitted between two states of one execution. *)
Definition new_events (before after : State) : list event :=
  drop (length (trace before)) (trace after).

Definition is_fs_call (ev : event) : bool :=
  match ev with
  | EMkdir _ | ERm _ => true
  | ELog _ _ _ => false
  end.

(** The file-system calls of a trace, in order. *)
Definition fs_calls (t : list event) : list event := List.filter is_fs_call t.

Definition TOOL_USE_line : jsstring := js "[AUDIT] Claude Agent: TOOL_USE".

(** The shell command a tool-invocation audit event records: the one its
    [tool] and [toolInput] details carry, read the way the supervisor
    reads a message. *)
Definition audited_command (ev : event) : option jsstring :=
  match ev with
  | ELog Info message meta =>
      if jsstring_eqb message TOOL_USE_line
      then command_to_filter
             {[ js "tool" := get meta (js "tool");
                js "input" := get meta (js "toolInput") ]}
      else None
  | _ => None
  end.

Definition records_command (command : jsstring) (ev : event) : bool :=
  bool_decide (audited_command ev = Some command).

(** ** Messages *)

Definition is_shell_tool (msg : obj) : Prop :=
  get msg (js "tool") = VStr (js "bash") \/ get msg (js "tool") = VStr (js "execute_command").

(** The input payload carries the non-empty string [command] under
    [command] or [cmd]. *)
Definition carries_command (msg : obj) (command : jsstring) : Prop :=
  command <> [] /\
  exists input, get msg (js "input") = VObj input /\
    (get input (js "command") = VStr command \/ get input (js "cmd") = VStr command).

(** The messages on which the loop body throws under a given policy. *)
Definition throws_on (sandboxConfig : SandboxConfig) (msg : obj) : bool :=
  (is_str (get msg (js "type")) (js "result")
   && match get msg (js "result") with VUndefined | VNull => true | _ => false end)
  || (is_str (get msg (js "type")) (js "tool_use")
      && match command_to_filter msg with
         | Some command =>
             match filterCommand command sandboxConfig with None => true | Some _ => false end
         | None => false
         end).

(** ** The batch up to its loop *)

(** The code of [claudeCodeAgentExecute] before its loop: the
    initialization audit event and the creation of the workspace. *)
Definition batch_setup (context : Host) (options : Options) : M WorkspaceContext :=
  let sandboxConfig := sandboxConfig_of options [] in
  auditLog context (js "AGENT_INIT")
    {[ js "enableFileAccess" := VBool (enableFileAccess sandboxConfig);
       js "enableCodeExecution" := VBool (enableCodeExecution sandboxConfig);
       js "enableBashCommands" := VBool (enableBashCommands sandboxConfig);
       js "allowedCommands" := VArr (map VStr (allowedCommands sandboxConfig));
       js "maxTurns" := VNum (or_num (opt_maxTurns options) 10) ]} ;;
  createSandboxedWorkspace context (opt_workspacePath options).

(** A call of the environment builder inside the process. *)
Definition build_environment (workspace : WorkspaceContext) : M (gmap jsstring jsstring) :=
  ret (createSandboxedEnvironment workspace).

(** ** Sample surroundings *)

(** The words n8n-workflow's node errors look for in their text, with the
    description that replaces a text holding one of them. *)
Definition COMMON_ERRORS : list (string * string) :=
  [ ("ECONNREFUSED", "The service refused the connection - perhaps it is offline");
    ("ECONNRESET",
     "The connection to the server was closed unexpectedly, perhaps it is offline. You can retry the request immediately or wait and retry later.");
    ("ENOTFOUND",
     "The connection cannot be established, this usually occurs due to an incorrect host (domain) value");
    ("ETIMEDOUT",
     "The connection timed out, consider setting the 'Retry on Fail' option in the node settings");
    ("ERRADDRINUSE",
     "The port is already occupied by some other application, if possible change the port or kill the application that is using it");
    ("EADDRNOTAVAIL", "The address is not available, ensure that you have the right IP address");
    ("ECONNABORTED", "The connection was aborted, perhaps the server is offline");
    ("EHOSTUNREACH", "The host is unreachable, perhaps the server is offline");
    ("EAI_AGAIN", "The DNS server returned an error, perhaps the server is offline");
    ("ENOENT", "The file or directory does not exist");
    ("EISDIR", "The file path was expected but the given path is a directory");
    ("ENOTDIR", "The directory path was expected but the given path is a file");
    ("EACCES", "Forbidden by access permissions, make sure you have the right permissions");
    ("EEXIST", "The file or directory already exists");
    ("EPERM", "Operation not permitted, make sure you have the right permissions");
    ("GETADDRINFO", "The server closed the connection unexpectedly") ]%string.

(** [c.toUpperCase()] of an ASCII character *)
Definition upper (c : N) : N :=
  if (N.leb 97 c && N.leb c 122)%bool then (c - 32)%N else c.

(** [s.includes(part)] *)
Fixpoint includes (s part : jsstring) : bool :=
  startsWith s part || match s with [] => false | _ :: s' => includes s' part end.

(** The message of a node error built from an ASCII text, the way
    n8n-workflow's constructor sets it: the description of the first word
    of the table that the text holds, in whatever case; the text itself
    when it holds none. *)
Definition descriptive_message (text : jsstring) : jsstring :=
  match List.find (fun entry => includes (map upper text) (js entry.1)) COMMON_ERRORS with
  | Some entry => js entry.2
  | None => text
  end.

(** A host in whose process the abandoned calls receive what [schedule]
    says. *)
Definition scheduling_host (tolerant : bool) (schedule : wait -> list nat) : Host :=
  mkHost (Some (js "wf1")) (js "exec1") (js "AI Agent") tolerant
    (js "/tmp") (js "/home/node") (fun n => repeat 171%N n)
    (fun _ => None) (fun _ => None) (fun _ => js "2025-10-27T00:00:00.000Z")
    descriptive_message schedule.

(** A host in whose process the abandoned calls receive nothing more
    before the batch returns. *)
Definition sample_host (tolerant : bool) : Host := scheduling_host tolerant (fun _ => []).

Definition sample_options (bash : bool) (allowed : string) : Options :=
  mkOptions None None None None (Some bash) (Some (js allowed)) None (Some 50%Z) None None.

Definition initial_state : State := mkState ∅ [].

Definition tool_use (tool : string) (input : value) : obj :=
  {[ js "type" := VStr (js "tool_use"); js "tool" := VStr (js tool);
     js "input" := input; js "id" := VStr (js "call_1") ]}.

Definition final_result (text : string) : obj :=
  {[ js "type" := VStr (js "result"); js "result" := VStr (js text) ]}.

Definition sample_item (prompt : string) (stream : Stream) (deadline : option nat) : Item :=
  mkItem (inr (js prompt)) (Some (fun _ _ => stream)) (inr (Some (js "sk-ant-key"))) deadline.

(** ** Lines of the trace *)

(** The line [auditLog] writes when [n] events were emitted before it. *)
Definition audit_line (context : Host) (n : nat) (action : jsstring) (details : obj) : event :=
  ELog Info (js "[AUDIT] Claude Agent: " ++ action)
    (details ∪
     {[ js "workflowId" := from_option VStr VUndefined (getWorkflow_id context);
        js "executionId" := VStr (getExecutionId context);
        js "node" := VStr (getNode_name context);
        js "timestamp" := VStr (clock context n) ]}).

(** The audit line of a tool invocation, the warning and the error of a
    blocked command. *)
Definition tool_use_line (context : Host) (n itemIndex : nat) (msg : obj) : event :=
  audit_line context n (js "TOOL_USE")
    {[ js "itemIndex" := num itemIndex;
       js "tool" := get msg (js "tool");
       js "toolInput" := get msg (js "input") ]}.

Definition blocked_line (itemIndex : nat) (command : jsstring) : event :=
  ELog Warn (js "Blocked dangerous command")
    {[ js "command" := VStr command; js "itemIndex" := num itemIndex ]}.

Definition blocked_error (itemIndex : nat) (command : jsstring) : error :=
  NodeOperationError (js "Command blocked by security filters: " ++ command) (Some itemIndex).

(** The events that do not record a command the policy rejects. *)
Definition passes_policy (sandboxConfig : SandboxConfig) (ev : event) : Prop :=
  forall command, audited_command ev = Some command ->
                  filterCommand command sandboxConfig <> None.

(** ** Properties of computations *)

(** A computation is [stable] for a relation between states when every
    run of it relates the state it starts in to the state it leaves. *)
Definition stable {S : Type} (R : S -> S -> Prop) {A : Type} (m : MS S A) : Prop :=
  forall s, R s (m s).2.

(** The state only gained log lines: no file-system call was made. *)
Definition logged_only (s s' : State) : Prop :=
  exists es, trace s' = trace s ++ es /\ fs_calls es = [].

(** [process.env] is as it was. *)
Definition same_env (s s' : State) : Prop := process_env s' = process_env s.

(** A computation [settles] when no run of it is left suspended. *)
Definition settles {S A : Type} (m : MS S A) : Prop :=
  forall s, (m s).1 <> Suspended.

(** A relation between states, read on the state the process shares. *)
Definition on_shared (R : State -> State -> Prop) (p p' : Process) : Prop :=
  R (shared p) (shared p').

End Observations.

(* ===================================================================== *)
(** * What the statements about runs and batches observe *)
(* ===================================================================== *)

Module RunObservations.

Import Common Execute Observations.

(** [finalResult] after one more message: a final-result message replaces
    it, any other message leaves it. *)
Definition result_after (finalResult : value) (msg : obj) : value :=
  if is_str (get msg (js "type")) (js "result") then get msg (js "result") else finalResult.

(** [finalResult] after a whole stream; it starts as the empty string. *)
Definition last_result (msgs : list obj) : value := fold_left result_after msgs (VStr []).

(** Every variable of [process.env] other than the API key is as it was. *)
Definition others_kept (s s' : State) : Prop :=
  forall k, k <> ANTHROPIC_API_KEY -> process_env s' !! k = process_env s !! k.

(** The item has what a run needs before the agent is called: a prompt
    that is not empty, the SDK, and an API key that is not empty. *)
Definition item_ready (item : Item) (prompt : jsstring)
    (query : jsstring -> Z -> Stream) (apiKey : jsstring) : Prop :=
  getPromptInputByType item = inr prompt /\ prompt <> [] /\
  import_sdk item = Some query /\
  getCredentials item = inr (Some apiKey) /\ apiKey <> [].

(** The mode in which each item gives one collapsed record. *)
Definition summary_mode (options : Options) : bool :=
  negb (not_false (opt_enableStreaming options) && is_true (opt_returnIntermediateSteps options)).

(** The stream the SDK is asked for on behalf of an item. *)
Definition stream_of (options : Options) (sandboxConfig : SandboxConfig)
    (workspace : WorkspaceContext) (query : jsstring -> Z -> Stream) (prompt : jsstring)
  : Stream :=
  query
    (fullPrompt (or_str (opt_systemMessage options) []) workspace
       (enableFileAccess sandboxConfig) (enableCodeExecution sandboxConfig)
       (enableBashCommands sandboxConfig) (allowedCommands sandboxConfig) prompt)
    (or_num (opt_maxTurns options) 10).

(** The state in which the agent is called: the run was announced. *)
Definition started (context : Host) (workspace : WorkspaceContext) (itemIndex : nat)
    (prompt : jsstring) (s : State) : State :=
  mkState (process_env s)
    (trace s ++
     [audit_line context (length (trace s)) (js "AGENT_START")
        {[ js "itemIndex" := num itemIndex;
           js "promptLength" := num (length prompt);
           js "workspace" := VStr (path workspace) ]}]).

(** The loop variables after messages that went through the loop body. *)
Definition vars_after (returnIntermediateSteps enableStreaming : bool) (msgs : list obj)
    (vars : list INodeExecutionData * value) : list INodeExecutionData * value :=
  (if enableStreaming
   then vars.1 ++ map (fun m => convertAgentMessageToN8nData m returnIntermediateSteps) msgs
   else vars.1,
   fold_left result_after msgs vars.2).

(** The loop of an agent call over the messages [pre], none of which
    makes the body throw and before none of which the timer fires: before
    each, the call waits and the abandoned calls run. *)
Fixpoint through (context : Host) (sandboxConfig : SandboxConfig) (itemIndex : nat)
    (returnIntermediateSteps enableStreaming : bool) (consumed : nat) (pre : list obj)
    (vars : list INodeExecutionData * value) : MP (list INodeExecutionData * value) :=
  match pre with
  | [] => ret vars
  | msg :: rest =>
      meanwhile context sandboxConfig returnIntermediateSteps enableStreaming
        (WaitMessage itemIndex consumed) ;;
      vars' <- lift (on_message context sandboxConfig itemIndex returnIntermediateSteps
                       enableStreaming msg vars) ;;
      through context sandboxConfig itemIndex returnIntermediateSteps enableStreaming
        (S consumed) rest vars'
  end.

(** The process after a wait: the abandoned calls have received what
    the host delivers there. *)
Definition after_wait (context : Host) (sandboxConfig : SandboxConfig)
    (returnIntermediateSteps enableStreaming : bool) (w : wait) (p : Process) : Process :=
  (meanwhile context sandboxConfig returnIntermediateSteps enableStreaming w p).2.

(** The API key, once gone from [process.env], is still gone. *)
Definition key_gone (s s' : State) : Prop :=
  process_env s !! ANTHROPIC_API_KEY = None -> process_env s' !! ANTHROPIC_API_KEY = None.

(** The same, in the process. *)
Definition started_in (context : Host) (workspace : WorkspaceContext) (itemIndex : nat)
    (prompt : jsstring) (p : Process) : Process :=
  mkProcess (started context workspace itemIndex prompt p) (abandoned p).

Definition timeout_error : error := Error (js "Agent execution timeout").

(** The text of the error of a blocked command. *)
Definition blocked_text (command : jsstring) : jsstring :=
  js "Command blocked by security filters: " ++ command.

End RunObservations.

Module AuditObservations.

Import Common Execute Observations.

Definition AUDIT_prefix : jsstring := js "[AUDIT] Claude Agent: ".

(** An event is [attributed] when it is no audit line, or its metadata
    names the workflow, the execution and the node of the host. *)
Definition attributed (context : Host) (ev : event) : Prop :=
  match ev with
  | ELog _ message meta =>
      startsWith message AUDIT_prefix = true ->
      meta !! js "workflowId" = Some (from_option VStr VUndefined (getWorkflow_id context)) /\
      meta !! js "executionId" = Some (VStr (getExecutionId context)) /\
      meta !! js "node" = Some (VStr (getNode_name context))
  | _ => True
  end.

(** The state only gained events, all of them attributed. *)
Definition audited_by (context : Host) (s s' : State) : Prop :=
  exists es, trace s' = trace s ++ es /\ Forall (attributed context) es.

End AuditObservations.

(* ===================================================================== *)
(** * The matcher decides the language of a pattern *)
(* ===================================================================== *)

Module RegexFacts.
Import Regex.

Create HintDb regex.
#[local] Hint Constructors lang : regex.

Lemma lang_eps_inv s : lang REps s -> s = [].
Proof. intros H; inversion H; reflexivity. Qed.

Lemma lang_cat_inv r1 r2 s :
  lang (RCat r1 r2) s -> exists s1 s2, s = s1 ++ s2 /\ lang r1 s1 /\ lang r2 s2.
Proof. intros H; inversion H; subst; eauto. Qed.

Lemma lang_alt_inv r1 r2 s : lang (RAlt r1 r2) s -> lang r1 s \/ lang r2 s.
Proof. intros H; inversion H; subst; auto. Qed.

Lemma nullable_lang r : nullable r = true <-> lang r [].
Proof.
  induction r; simpl.
  - split; [discriminate | intros H; inversion H].
  - split; auto with regex.
  - split; [discriminate | intros H; inversion H].
  - rewrite andb_true_iff, IHr1, IHr2. split.
    + intros [H1 H2]. change (@nil N) with (@nil N ++ []). auto with regex.
    + intros H. apply lang_cat_inv in H as (s1 & s2 & E & H1 & H2).
      symmetry in E. apply app_eq_nil in E as [-> ->]. auto.
  - rewrite orb_true_iff, IHr1, IHr2. split.
    + intros [H | H]; auto with regex.
    + apply lang_alt_inv.
  - split; auto with regex.
Qed.

Lemma cat_lang r1 r2 s : lang (cat r1 r2) s <-> lang (RCat r1 r2) s.
Proof.
  split.
  - destruct r1, r2; simpl; intros H; try assumption;
      try (now inversion H);
      try (change s with ([] ++ s); auto with regex).
  - intros H. apply lang_cat_inv in H as (s1 & s2 & -> & H1 & H2).
    destruct r1, r2; simpl; try (now inversion H1); try (now inversion H2);
      try (apply lang_eps_inv in H1 as ->; simpl; assumption);
      auto with regex.
Qed.

Lemma alt_lang r1 r2 s : lang (alt r1 r2) s <-> lang (RAlt r1 r2) s.
Proof.
  split.
  - destruct r1, r2; simpl; intros H; auto with regex.
  - intros H. apply lang_alt_inv in H as [H | H];
      destruct r1, r2; simpl; try (now inversion H); auto with regex.
Qed.

Lemma lang_star_cons_inv r c s :
  lang (RStar r) (c :: s) ->
  exists s1 s2, s = s1 ++ s2 /\ lang r (c :: s1) /\ lang (RStar r) s2.
Proof.
  intros H. remember (RStar r) as r' eqn:Er. remember (c :: s) as w eqn:Ew.
  revert c s Ew. induction H; intros c' s' Ew; try discriminate.
  injection Er as ->.
  destruct s1 as [|d s1].
  - simpl in Ew. apply IHlang2; auto.
  - simpl in Ew. injection Ew as -> <-. eauto.
Qed.

Lemma deriv_lang c r : forall s, lang (deriv c r) s <-> lang r (c :: s).
Proof.
  induction r; intros s; simpl.
  - split; intros H; inversion H.
  - split; intros H; inversion H.
  - destruct (p c) eqn:E; split; intros H.
    + apply lang_eps_inv in H as ->. auto with regex.
    + inversion H; subst. auto with regex.
    + inversion H.
    + inversion H; subst. congruence.
  - assert (Hcat : lang (cat (deriv c r1) r2) s <->
                   exists s1 s2, s = s1 ++ s2 /\ lang r1 (c :: s1) /\ lang r2 s2).
    { rewrite cat_lang. split.
      - intros H. apply lang_cat_inv in H as (s1 & s2 & -> & H1 & H2).
        apply IHr1 in H1. eauto.
      - intros (s1 & s2 & -> & H1 & H2). apply IHr1 in H1. auto with regex. }
    destruct (nullable r1) eqn:En.
    + rewrite alt_lang. split.
      * intros H. apply lang_alt_inv in H as [H | H].
        -- apply Hcat in H as (s1 & s2 & -> & H1 & H2).
           change (c :: s1 ++ s2) with ((c :: s1) ++ s2). auto with regex.
        -- apply IHr2 in H. apply nullable_lang in En.
           change (c :: s) with ([] ++ c :: s). auto with regex.
      * intros H. apply lang_cat_inv in H as (s1 & s2 & E & H1 & H2).
        destruct s1 as [|d s1]; simpl in E.
        -- subst s2. apply lang_alt_r. apply IHr2. assumption.
        -- injection E as <- ->. apply lang_alt_l. apply Hcat. eauto.
    + rewrite Hcat. split.
      * intros (s1 & s2 & -> & H1 & H2).
        change (c :: s1 ++ s2) with ((c :: s1) ++ s2). auto with regex.
      * intros H. apply lang_cat_inv in H as (s1 & s2 & E & H1 & H2).
        destruct s1 as [|d s1]; simpl in E.
        -- apply nullable_lang in H1. congruence.
        -- injection E as <- ->. eauto.
  - rewrite alt_lang. split.
    + intros H. apply lang_alt_inv in H as [H | H].
      * apply lang_alt_l, IHr1, H.
      * apply lang_alt_r, IHr2, H.
    + intros H. apply lang_alt_inv in H as [H | H].
      * apply lang_alt_l, IHr1, H.
      * apply lang_alt_r, IHr2, H.
  - rewrite cat_lang. split.
    + intros H. apply lang_cat_inv in H as (s1 & s2 & -> & H1 & H2).
      apply IHr in H1. change (c :: s1 ++ s2) with ((c :: s1) ++ s2).
      auto with regex.
    + intros H. apply lang_star_cons_inv in H as (s1 & s2 & -> & H1 & H2).
      apply IHr in H1. auto with regex.
Qed.

(** [matches_prefix] finds a prefix in the language, and only then. *)
Lemma matches_prefix_spec s : forall r,
  matches_prefix r s = true <-> exists b c, s = b ++ c /\ lang r b.
Proof.
  induction s as [|x s IH]; intros r; simpl.
  - rewrite orb_false_r, nullable_lang. split.
    + intros H. exists [], []. auto.
    + intros (b & c & E & H). symmetry in E. apply app_eq_nil in E as [-> _]. assumption.
  - rewrite orb_true_iff, nullable_lang, IH. split.
    + intros [H | (b & c & -> & H)].
      * exists [], (x :: s). auto.
      * apply deriv_lang in H. exists (x :: b), c. auto.
    + intros (b & c & E & H). destruct b as [|y b]; simpl in E.
      * left. assumption.
      * injection E as <- ->. right. exists b, c. split; [reflexivity|].
        apply deriv_lang. assumption.
Qed.

(** [test] holds exactly when some substring is in the language. *)
Lemma test_spec r s :
  test r s = true <-> exists a b c, s = a ++ b ++ c /\ lang r b.
Proof.
  induction s as [|x s IH]; cbn [test].
  - rewrite orb_false_r, matches_prefix_spec. split.
    + intros (b & c & E & H). exists [], b, c. auto.
    + intros (a & b & c & E & H). symmetry in E.
      apply app_eq_nil in E as [-> E]. eauto.
  - rewrite orb_true_iff, matches_prefix_spec, IH. split.
    + intros [(b & c & E & H) | (a & b & c & -> & H)].
      * exists [], b, c. auto.
      * exists (x :: a), b, c. auto.
    + intros (a & b & c & E & H). destruct a as [|y a]; simpl in E.
      * left. eauto.
      * injection E as <- ->. right. eauto.
Qed.

(** A string the matcher accepts in full is in the language. *)
Lemma lang_of_matcher r s :
  nullable (fold_left (fun r c => deriv c r) s r) = true -> lang r s.
Proof.
  revert r. induction s as [|c s IH]; intros r; simpl.
  - apply nullable_lang.
  - intros H. apply deriv_lang, IH, H.
Qed.

End RegexFacts.

(* ===================================================================== *)
(** * Paths made of plain segments *)
(* ===================================================================== *)

Module PathFacts.

Import NodePath Observations.

Lemma split_char_no_sep (seg cur : jsstring) :
  slash ∉ seg -> split_char slash cur seg = [cur ++ seg].
Proof.
  revert cur. induction seg as [|c seg IH]; intros cur Hno; cbn [split_char].
  - rewrite app_nil_r. reflexivity.
  - apply not_elem_of_cons in Hno as [Hc Hno].
    rewrite (proj2 (N.eqb_neq c slash)) by congruence.
    rewrite IH by assumption. rewrite <- app_assoc. reflexivity.
Qed.

Lemma split_char_sep (seg cur rest : jsstring) :
  slash ∉ seg ->
  split_char slash cur (seg ++ slash :: rest) = (cur ++ seg) :: split_char slash [] rest.
Proof.
  revert cur. induction seg as [|c seg IH]; intros cur Hno; cbn [split_char app].
  - rewrite N.eqb_refl, app_nil_r. reflexivity.
  - apply not_elem_of_cons in Hno as [Hc Hno].
    rewrite (proj2 (N.eqb_neq c slash)) by congruence.
    rewrite IH by assumption. rewrite <- app_assoc. reflexivity.
Qed.

Lemma split_char_join (segs : list jsstring) :
  segs <> [] -> Forall plain segs ->
  split_char slash [] (join [slash] segs) = segs.
Proof.
  induction segs as [|seg segs IH]; intros Hne Hplain; [congruence |].
  inversion Hplain as [| ? ? (_ & _ & _ & Hno) Hrest]; subst.
  destruct segs as [|seg' segs].
  - cbn [join]. apply split_char_no_sep. assumption.
  - change (join [slash] (seg :: seg' :: segs))
      with (seg ++ slash :: join [slash] (seg' :: segs)).
    rewrite split_char_sep by assumption. rewrite IH by (congruence || assumption).
    reflexivity.
Qed.

Lemma normalize_segments_plain (allowAboveRoot : bool) (segs acc : list jsstring) :
  Forall plain segs ->
  normalize_segments allowAboveRoot acc segs = rev acc ++ segs.
Proof.
  revert acc. induction segs as [|seg segs IH]; intros acc Hplain; cbn [normalize_segments].
  - rewrite app_nil_r. reflexivity.
  - inversion Hplain as [| ? ? (Hne & Hdot & Hdd & _) Hrest]; subst.
    unfold jsstring_eqb.
    rewrite !bool_decide_eq_false_2 by assumption. cbn [orb].
    rewrite IH by assumption. cbn [rev]. rewrite <- app_assoc. reflexivity.
Qed.

Lemma join_last_not_sep (segs : list jsstring) :
  segs <> [] -> Forall plain segs ->
  exists body c, join [slash] segs = body ++ [c] /\ c <> slash.
Proof.
  induction segs as [|seg segs IH]; intros Hne Hplain; [congruence |].
  inversion Hplain as [| ? ? (Hseg & _ & _ & Hno) Hrest]; subst.
  destruct segs as [|seg' segs].
  - cbn [join]. destruct (exists_last Hseg) as (body & c & ->).
    exists body, c. split; [reflexivity |].
    intros ->. apply Hno. apply elem_of_app. right. apply list_elem_of_singleton. reflexivity.
  - destruct IH as (body & c & E & Hc); [congruence | assumption |].
    change (join [slash] (seg :: seg' :: segs))
      with (seg ++ slash :: join [slash] (seg' :: segs)).
    rewrite E. exists (seg ++ slash :: body), c. split; [| assumption].
    rewrite <- app_assoc. reflexivity.
Qed.

(** An absolute path made of plain segments is its own normal form. *)
Lemma normalize_plain (segs : list jsstring) :
  segs <> [] -> Forall plain segs ->
  normalize (slash :: join [slash] segs) = slash :: join [slash] segs.
Proof.
  intros Hne Hplain.
  assert (Habs : isAbsolute (slash :: join [slash] segs) = true).
  { unfold isAbsolute. cbn [startsWith]. rewrite N.eqb_refl.
    destruct (join [slash] segs); reflexivity. }
  assert (Hsplit : split_char slash [] (slash :: join [slash] segs) = [] :: segs).
  { cbn [split_char]. rewrite N.eqb_refl, split_char_join by assumption. reflexivity. }
  assert (Hnorm : normalize_segments false [] ([] :: segs) = segs).
  { cbn [normalize_segments]. unfold jsstring_eqb at 1.
    rewrite bool_decide_eq_true_2 by reflexivity. cbn [orb].
    apply (normalize_segments_plain false segs []). assumption. }
  destruct (join_last_not_sep segs Hne Hplain) as (body & c & E & Hc).
  assert (Htrail : startsWith (rev (slash :: join [slash] segs)) [slash] = false).
  { rewrite E. cbn [rev]. rewrite rev_app_distr. cbn [rev app startsWith].
    rewrite (proj2 (N.eqb_neq slash c)) by congruence. reflexivity. }
  unfold normalize, normalizeString. cbv beta iota zeta.
  rewrite Habs, Htrail. cbn [negb]. rewrite Hsplit, Hnorm.
  destruct (join [slash] segs) as [|x xs] eqn:Ej; [| reflexivity].
  destruct body; discriminate E.
Qed.

Lemma segments_plain (segs : list jsstring) :
  segs <> [] -> Forall plain segs ->
  segments (slash :: join [slash] segs) = segs.
Proof.
  intros Hne Hplain. unfold segments. cbn [split_char]. rewrite N.eqb_refl.
  rewrite split_char_join by assumption.
  rewrite filter_cons_False by (intros H; apply H; reflexivity).
  clear Hne. induction Hplain as [| seg rest (Hseg & _) _ IH]; [reflexivity |].
  rewrite filter_cons_True by exact Hseg. rewrite IH. reflexivity.
Qed.

Lemma join_app (a b : list jsstring) :
  a <> [] -> b <> [] ->
  join [slash] (a ++ b) = join [slash] a ++ slash :: join [slash] b.
Proof.
  induction a as [|x a IH]; intros Ha Hb; [congruence |].
  destruct a as [|y a].
  - destruct b; [congruence |]. reflexivity.
  - change (join [slash] ((x :: y :: a) ++ b))
      with (x ++ slash :: join [slash] ((y :: a) ++ b)).
    rewrite IH by (congruence || assumption).
    change (join [slash] (x :: y :: a)) with (x ++ slash :: join [slash] (y :: a)).
    rewrite <- app_assoc. reflexivity.
Qed.

(** With a temporary directory that is a normalized absolute path other
    than the root, a workflow id that is a plain name and at least one
    random byte, the path derived when no custom path is given lies three
    levels below the temporary directory. *)
Lemma hex_digit_plain (n : N) :
  (n < 16)%N -> hex_digit n <> slash /\ hex_digit n <> 46%N.
Proof.
  intros Hn. unfold hex_digit, slash. destruct (N.ltb_spec n 10); split; lia.
Qed.

Lemma to_hex_chars (bytes : list N) :
  Forall (fun c => c <> slash /\ c <> 46%N) (to_hex bytes).
Proof.
  induction bytes as [|b bytes IH]; [constructor |].
  cbn [to_hex flat_map app]. fold (to_hex bytes).
  constructor; [| constructor; [| exact IH]]; apply hex_digit_plain.
  - apply N.Div0.div_lt_upper_bound. change (16 * 16)%N with 256%N.
    apply N.mod_lt. discriminate.
  - apply N.mod_lt. discriminate.
Qed.

Lemma to_hex_plain (bytes : list N) : bytes <> [] -> plain (to_hex bytes).
Proof.
  intros Hne. pose proof (to_hex_chars bytes) as Hc.
  destruct bytes as [|b bytes]; [congruence |].
  assert (Hhead : exists c rest, to_hex (b :: bytes) = c :: rest /\ c <> 46%N).
  { cbn [to_hex flat_map app]. eexists _, _. split; [reflexivity |].
    apply hex_digit_plain. apply N.Div0.div_lt_upper_bound.
    change (16 * 16)%N with 256%N. apply N.mod_lt. discriminate. }
  destruct Hhead as (c & rest & E & Hdot). rewrite E in *.
  repeat split.
  - discriminate.
  - intros [= -> _]. apply Hdot. reflexivity.
  - intros [= -> _]. apply Hdot. reflexivity.
  - intros Hin. apply (proj1 (Forall_forall _ _) Hc) in Hin. destruct Hin as [H _].
    apply H. reflexivity.
Qed.

Lemma namespace_plain : plain (js "n8n-claude-agent").
Proof.
  repeat split; try discriminate.
  intros Hin. repeat (apply elem_of_cons in Hin as [Hin | Hin]; [discriminate Hin |]).
  inversion Hin.
Qed.

Lemma join_paths_under (base : list jsstring) (a b c : jsstring) :
  base <> [] -> Forall plain base -> plain a -> plain b -> plain c ->
  join_paths [slash :: join [slash] base; a; b; c]
  = slash :: join [slash] (base ++ [a; b; c]).
Proof.
  intros Hne Hbase Ha Hb Hc.
  assert (Hall : Forall plain (base ++ [a; b; c]))
    by (apply Forall_app; split;
        [assumption | repeat (apply List.Forall_cons; [assumption |]); apply List.Forall_nil]).
  assert (Hne' : base ++ [a; b; c] <> []) by (destruct base; discriminate).
  unfold join_paths.
  destruct Ha as (Ha & _), Hb as (Hb & _), Hc as (Hc & _).
  rewrite filter_cons_True by discriminate.
  rewrite filter_cons_True by exact Ha.
  rewrite filter_cons_True by exact Hb.
  rewrite filter_cons_True by exact Hc.
  rewrite filter_nil.
  assert (E : join [slash] [slash :: join [slash] base; a; b; c]
              = slash :: join [slash] (base ++ [a; b; c])).
  { rewrite join_app by (assumption || discriminate). reflexivity. }
  rewrite E. apply normalize_plain; assumption.
Qed.

End PathFacts.

(* ===================================================================== *)
(** * Policy engine, result translator, workspace manager *)
(* ===================================================================== *)

Section Policy.

Import Common Execute Observations.

(** ** Path containment *)

Lemma startsWith_slash_absolute (p : jsstring) :
  startsWith p (js "/") = NodePath.isAbsolute p.
Proof. reflexivity. Qed.

(** C1 (as amended): an absolute candidate path is rejected for every
    workspace and every working directory, whether or not it canonicalizes
    to a location at or below the workspace. *)
Theorem validatePath_absolute_rejected (process_cwd filePath workspacePath : jsstring) :
  NodePath.isAbsolute filePath = true ->
  validatePath process_cwd filePath workspacePath = false.
Proof.
  intros Habs. unfold validatePath.
  rewrite startsWith_slash_absolute, Habs. apply andb_false_r.
Qed.

Lemma validatePath_absolute_rejected_witness :
  NodePath.isAbsolute (js "/ws/a") = true /\
  validatePath (js "/home/node") (js "/ws/a") (js "/ws") = false.
Proof.
  split; [reflexivity |].
  apply (validatePath_absolute_rejected (js "/home/node") (js "/ws/a") (js "/ws")).
  reflexivity.
Defined.

(** C1 (counterexample): [/ws/a] is absolute, canonicalizes below [/ws]
    and is not, as written, outside [/ws]; the check still answers
    [false], so it is not equivalent to the containment the property
    describes. *)
Lemma validatePath_absolute_inside_counterexample :
  NodePath.isAbsolute (js "/ws/a") = true /\
  canonically_within (js "/home/node") (js "/ws/a") (js "/ws") = true /\
  raw_absolute_outside (js "/home/node") (js "/ws/a") (js "/ws") = false /\
  ~ (validatePath (js "/home/node") (js "/ws/a") (js "/ws") = true <->
     spec_isPathContained (js "/home/node") (js "/ws/a") (js "/ws") = true).
Proof.
  split; [reflexivity |].
  split; [vm_compute; reflexivity |].
  split; [vm_compute; reflexivity |].
  intros [_ H].
  assert (Hv : validatePath (js "/home/node") (js "/ws/a") (js "/ws") = false)
    by (vm_compute; reflexivity).
  rewrite Hv in H. assert (false = true); [| discriminate].
  apply H. vm_compute. reflexivity.
Qed.

(** The check is [true] exactly when the candidate is written as a
    relative path and the relative path from the workspace to it does not
    begin with two dots. *)
Lemma validatePath_true_iff (process_cwd filePath workspacePath : jsstring) :
  validatePath process_cwd filePath workspacePath = true <->
  NodePath.isAbsolute filePath = false /\
  startsWith (NodePath.relative process_cwd
                (NodePath.resolve process_cwd [workspacePath])
                (NodePath.resolve process_cwd [filePath])) (js "..") = false.
Proof.
  unfold validatePath. rewrite startsWith_slash_absolute.
  rewrite andb_true_iff, !negb_true_iff. tauto.
Qed.

(** ** Command filter *)

(** C6: with shell-command execution disabled, every command is rejected,
    whatever its content and whatever the allowlist. *)
Theorem filterCommand_disabled_rejects (command : jsstring) (config : SandboxConfig) :
  enableBashCommands config = false -> filterCommand command config = None.
Proof. intros H. unfold filterCommand. rewrite H. reflexivity. Qed.

Lemma filterCommand_disabled_rejects_witness :
  enableBashCommands (mkSandboxConfig (js "/ws") true true false [js "node"] 300000) = false /\
  filterCommand (js "node script.js")
    (mkSandboxConfig (js "/ws") true true false [js "node"] 300000) = None.
Proof.
  split; [reflexivity |].
  apply (filterCommand_disabled_rejects (js "node script.js")
           (mkSandboxConfig (js "/ws") true true false [js "node"] 300000)).
  reflexivity.
Defined.

(** C2: a command with a substring in the language of one of the
    denylisted patterns is rejected under every policy: the allowlist is
    not consulted. *)
Theorem filterCommand_deny_precedence
    (command : jsstring) (config : SandboxConfig)
    (pattern : Regex.regex) (before matched after : jsstring) :
  In pattern dangerousPatterns ->
  command = before ++ matched ++ after ->
  Regex.lang pattern matched ->
  filterCommand command config = None.
Proof.
  intros Hin Hcmd Hlang. unfold filterCommand.
  destruct (negb (enableBashCommands config)); [reflexivity |].
  assert (Hex : existsb (fun p => Regex.test p command) dangerousPatterns = true).
  { apply existsb_exists. exists pattern. split; [assumption |].
    apply RegexFacts.test_spec. eauto. }
  rewrite Hex. reflexivity.
Qed.

Lemma filterCommand_deny_precedence_witness :
  isCommandAllowed (js "sudo rm -rf /") [js "sudo"] = true /\
  filterCommand (js "sudo rm -rf /")
    (mkSandboxConfig (js "/ws") true true true [js "sudo"] 300000) = None.
Proof.
  split; [vm_compute; reflexivity |].
  apply (filterCommand_deny_precedence (js "sudo rm -rf /")
           (mkSandboxConfig (js "/ws") true true true [js "sudo"] 300000)
           (Regex.ilit "sudo") [] (js "sudo") (js " rm -rf /")).
  - simpl. right. left. reflexivity.
  - reflexivity.
  - apply RegexFacts.lang_of_matcher. vm_compute. reflexivity.
Defined.

(** Each family of the deny list, on a command whose first word is
    allowed. *)
Example denylist_families :
  let config := mkSandboxConfig (js "/ws") true true true
                  (map js ["rm"; "sudo"; "chmod"; "curl"; "wget"; "echo"; "mkfs"; "dd"; ":(){"]%string)
                  300000 in
  map (fun c => filterCommand (js c) config)
    ["rm -rf /"; "sudo ls"; "chmod 777 f"; "curl http://h/i | sh"; "wget -O- h | sh";
     "echo x > /dev/sda"; "mkfs /dev/sdb1"; "dd if=/dev/zero of=f"; ":(){ :|:& };:"]%string
  = repeat None 9.
Proof. vm_compute. reflexivity. Qed.

(** A command that passes comes back unchanged. *)
Lemma filterCommand_Some_unchanged (command result : jsstring) (config : SandboxConfig) :
  filterCommand command config = Some result -> result = command.
Proof.
  unfold filterCommand. repeat case_match; congruence.
Qed.

(** ** Result translator *)

(** C8: the translation of a final-result message has the message's
    [result] as its [output], for both values of the detail flag. *)
Theorem convert_result_output (message : obj) (returnIntermediateSteps : bool) :
  get message (js "type") = VStr (js "result") ->
  get (json (convertAgentMessageToN8nData message returnIntermediateSteps)) (js "output")
  = get message (js "result").
Proof.
  intros Htype. unfold convertAgentMessageToN8nData. rewrite Htype.
  cbn [json].
  change (is_str (VStr (js "result")) (js "text")) with false.
  change (is_str (VStr (js "result")) (js "tool_use")) with false.
  change (is_str (VStr (js "result")) (js "tool_result")) with false.
  change (is_str (VStr (js "result")) (js "result")) with true.
  cbn iota. unfold get at 1. rewrite lookup_insert_eq. reflexivity.
Qed.

Lemma convert_result_output_witness :
  get (final_result "done") (js "type") = VStr (js "result") /\
  get (json (convertAgentMessageToN8nData (final_result "done") false)) (js "output")
  = VStr (js "done").
Proof.
  split; [vm_compute; reflexivity |].
  rewrite (convert_result_output (final_result "done") false); vm_compute; reflexivity.
Defined.

(** ** Sandboxed environment *)

(** C9: the environment built for a workspace holds exactly five
    variables: [HOME] and [WORKSPACE] are the workspace path, [PATH],
    [SHELL] and [USER] are fixed. It is the same map in every process
    state, so under every inherited [process.env], and for every workspace
    context with the same path. *)
Theorem sandboxed_environment_minimal
    (workspace : WorkspaceContext) (s1 s2 : State)
    (otherWorkflowId otherExecutionId otherCreated : jsstring) :
  let env := createSandboxedEnvironment workspace in
  env !! js "HOME" = Some (path workspace) /\
  env !! js "PATH" = Some (js "/usr/local/bin:/usr/bin:/bin") /\
  env !! js "WORKSPACE" = Some (path workspace) /\
  env !! js "SHELL" = Some (js "/bin/sh") /\
  env !! js "USER" = Some (js "n8n-agent") /\
  dom env = {[ js "HOME"; js "PATH"; js "WORKSPACE"; js "SHELL"; js "USER" ]} /\
  build_environment workspace s1 = (Normal env, s1) /\
  build_environment
    (mkWorkspaceContext (path workspace) otherWorkflowId otherExecutionId otherCreated) s2
  = (Normal env, s2).
Proof.
  unfold build_environment, createSandboxedEnvironment, ret. cbn [path].
  generalize (path workspace) as p. intros p.
  repeat split; vm_compute; reflexivity.
Qed.

(** ** Workspace creation *)

(** Without a custom path the workspace path is joined from the system
    temporary directory, and only [mkdir] can make the call fail. *)
Lemma createSandboxedWorkspace_default (context : Host) (s : State) :
  let derived :=
    NodePath.join_paths
      [tmpdir context; js "n8n-claude-agent";
       default (js "unknown") (getWorkflow_id context);
       to_hex (randomBytes context 8)] in
  match createSandboxedWorkspace context None s with
  | (Normal workspace, _) => path workspace = derived
  | (Thrown e, _) => mkdir context derived = Some e
  | (Suspended, _) => False
  end.
Proof.
  intros derived.
  unfold createSandboxedWorkspace. cbn [truthy from_option].
  unfold bind at 1. cbn [ret]. fold derived.
  unfold bind, emit, host_result.
  destruct (mkdir context derived) as [e |]; cbn [throw ret]; reflexivity.
Qed.

(** C10: an empty custom path is not rejected as a path that is not
    absolute. It is treated as no custom path at all: the workspace path
    is joined from the system temporary directory, the name space, the
    workflow id and the random suffix, and only [mkdir] can make the
    call fail. *)
Theorem empty_custom_path_uses_tmpdir (context : Host) (s : State) :
  let derived :=
    NodePath.join_paths
      [tmpdir context; js "n8n-claude-agent";
       default (js "unknown") (getWorkflow_id context);
       to_hex (randomBytes context 8)] in
  createSandboxedWorkspace context (Some []) s = createSandboxedWorkspace context None s /\
  match createSandboxedWorkspace context (Some []) s with
  | (Normal workspace, _) => path workspace = derived
  | (Thrown e, _) => mkdir context derived = Some e
  | (Suspended, _) => False
  end.
Proof.
  intros derived. split; [reflexivity |].
  change (createSandboxedWorkspace context (Some []) s)
    with (createSandboxedWorkspace context None s).
  apply createSandboxedWorkspace_default.
Qed.

(** Where the derived path lies: with a temporary directory that is a
    normalized absolute path other than the root, a workflow id that is a
    plain name and a random suffix that is not empty, the workspace is the
    directory [n8n-claude-agent/<workflow>/<suffix>] below the temporary
    directory. *)
Lemma default_workspace_below_tmpdir
    (context : Host) (s s1 : State) (workspace : WorkspaceContext) (base : list jsstring) :
  tmpdir context = NodePath.slash :: join [NodePath.slash] base ->
  base <> [] -> Forall plain base ->
  plain (default (js "unknown") (getWorkflow_id context)) ->
  randomBytes context 8 <> [] ->
  createSandboxedWorkspace context None s = (Normal workspace, s1) ->
  path workspace
  = tmpdir context ++ js "/n8n-claude-agent/"
    ++ default (js "unknown") (getWorkflow_id context)
    ++ js "/" ++ to_hex (randomBytes context 8)
  /\ NodePath.segments (path workspace)
     = base ++ [js "n8n-claude-agent"; default (js "unknown") (getWorkflow_id context);
                to_hex (randomBytes context 8)].
Proof.
  intros Htmp Hne Hbase Hwf Hrand Hrun.
  pose proof (createSandboxedWorkspace_default context s) as Hpath.
  cbv zeta in Hpath. rewrite Hrun in Hpath.
  assert (Hall : Forall plain
            (base ++ [js "n8n-claude-agent"; default (js "unknown") (getWorkflow_id context);
                      to_hex (randomBytes context 8)])).
  { apply Forall_app. split; [assumption |].
    repeat (apply List.Forall_cons;
            [first [assumption | apply PathFacts.namespace_plain
                   | apply PathFacts.to_hex_plain; assumption] |]).
    apply List.Forall_nil. }
  assert (Hne' : base ++ [js "n8n-claude-agent";
                          default (js "unknown") (getWorkflow_id context);
                          to_hex (randomBytes context 8)] <> [])
    by (destruct base; discriminate).
  rewrite Htmp in Hpath.
  rewrite PathFacts.join_paths_under in Hpath
    by (first [assumption | apply PathFacts.namespace_plain
              | apply PathFacts.to_hex_plain; assumption]).
  rewrite Hpath. split.
  - rewrite Htmp, PathFacts.join_app by (assumption || discriminate).
    cbn [join app]. reflexivity.
  - apply PathFacts.segments_plain; assumption.
Qed.

(** On the sample host the empty path gives a directory under [/tmp];
    a relative path that is not empty is refused. *)
Example createSandboxedWorkspace_samples :
  option_map path
    (match (createSandboxedWorkspace (sample_host false) (Some []) initial_state).1 with
     | Normal workspace => Some workspace
     | _ => None
     end)
  = Some (js "/tmp/n8n-claude-agent/wf1/abababababababab") /\
  (createSandboxedWorkspace (sample_host false) (Some (js "work/dir")) initial_state).1
  = Thrown (NodeOperationError (js "Workspace path must be an absolute path") None) /\
  (createSandboxedWorkspace (sample_host false) (Some (js "/etc/foo")) initial_state).2
  = initial_state.
Proof. vm_compute. repeat split; reflexivity. Qed.

End Policy.

(* ===================================================================== *)
(** * Invariants of the supervisor's computations *)
(* ===================================================================== *)

Module Stability.

Import Common Execute Observations RunObservations AuditObservations.

Section Combinators.

Context {S : Type} (R : S -> S -> Prop) `{!PreOrder R}.

Lemma R_refl s : R s s.
Proof. reflexivity. Qed.

Lemma R_trans s1 s2 s3 : R s1 s2 -> R s2 s3 -> R s1 s3.
Proof. intros; etrans; eassumption. Qed.

Lemma stable_ret {A : Type} (a : A) : stable R (ret a).
Proof. intros s. apply R_refl. Qed.

Lemma stable_throw {A : Type} (e : error) : stable R (throw e : MS S A).
Proof. intros s. apply R_refl. Qed.

Lemma stable_suspend {A : Type} : stable R (suspend : MS S A).
Proof. intros s. apply R_refl. Qed.

Lemma stable_host_result {A : Type} (r : error + A) : stable R (host_result r).
Proof. destruct r; intros s; apply R_refl. Qed.

Lemma stable_bind {A B : Type} (m : MS S A) (f : A -> MS S B) :
  stable R m -> (forall a, stable R (f a)) -> stable R (bind m f).
Proof.
  intros Hm Hf s. unfold bind. specialize (Hm s).
  destruct (m s) as [[a | e |] s1]; simpl in *; try assumption.
  eapply R_trans; [exact Hm | apply Hf].
Qed.

Lemma stable_try_catch {A : Type} (body : MS S A) (handler : error -> MS S A) :
  stable R body -> (forall e, stable R (handler e)) -> stable R (try_catch body handler).
Proof.
  intros Hb Hh s. unfold try_catch. specialize (Hb s).
  destruct (body s) as [[a | e |] s1]; simpl in *; try assumption.
  eapply R_trans; [exact Hb | apply Hh].
Qed.

Lemma stable_try_finally {A : Type} (body : MS S A) (fin : MS S unit) :
  stable R body -> stable R fin -> stable R (try_finally body fin).
Proof.
  intros Hb Hf s. unfold try_finally. specialize (Hb s).
  destruct (body s) as [[a | e |] s1]; simpl in *; try assumption;
    specialize (Hf s1); destruct (fin s1) as [[[] | e' |] s2]; simpl in *;
    eapply R_trans; eassumption.
Qed.

Lemma stable_race_timeout {A : Type} (agent : MS S A) :
  stable R agent -> stable R (race_timeout agent).
Proof.
  intros Ha s. unfold race_timeout. specialize (Ha s).
  destruct (agent s) as [[a | e |] s1]; assumption.
Qed.

End Combinators.

Lemma stable_now (R : State -> State -> Prop) `{!PreOrder R} (context : Host) :
  stable R (now context).
Proof. intros s. reflexivity. Qed.

(** ** Relations on the shared state, in the process *)

Section Process.

Context (R : State -> State -> Prop) `{!PreOrder R}.

#[export] Instance on_shared_preorder : PreOrder (on_shared R).
Proof.
  split.
  - intros p. unfold on_shared. reflexivity.
  - intros p1 p2 p3. unfold on_shared. intros H1 H2. etrans; eassumption.
Qed.

Lemma stable_lift {A : Type} (m : M A) : stable R m -> stable (on_shared R) (lift m).
Proof.
  intros Hm p. unfold lift, on_shared. specialize (Hm (shared p)).
  destruct (m (shared p)) as [r s]. exact Hm.
Qed.

Lemma stable_left_waiting {A : Type} (c : Consumer) :
  stable (on_shared R) (left_waiting c : MP A).
Proof. intros p. unfold on_shared. reflexivity. Qed.

Lemma stable_alone {A : Type} (m : MP A) : stable (on_shared R) m -> stable R (alone m).
Proof.
  intros Hm s. unfold alone. specialize (Hm (mkProcess s [])).
  destruct (m (mkProcess s [])) as [r p]. exact Hm.
Qed.

(** What the loop body and the deletion of the key preserve, the
    abandoned calls preserve, and so does the loop of an agent call. *)
Section Body.

Variables (context : Host) (cfg : SandboxConfig) (ris es : bool).

Hypothesis body_stable :
  forall i msg vars, stable R (on_message context cfg i ris es msg vars).
Hypothesis unset_stable : stable R (unsetenv ANTHROPIC_API_KEY).

Lemma stable_deliver (c : Consumer) : stable R (deliver context cfg ris es c).
Proof.
  unfold deliver. destruct (consumer_messages c) as [|msg rest].
  - destruct (consumer_ending c).
    + apply (stable_bind R); [exact unset_stable | intros; apply (stable_ret R)].
    + apply (stable_bind R); [exact unset_stable | intros; apply (stable_ret R)].
    + apply (stable_ret R).
  - apply (stable_try_catch R).
    + apply (stable_bind R); [apply body_stable | intros; apply (stable_ret R)].
    + intros e. apply (stable_bind R); [exact unset_stable | intros; apply (stable_ret R)].
Qed.

Lemma stable_deliver_to (itemIndex : nat) (waiting : list Consumer) :
  stable R (deliver_to context cfg ris es itemIndex waiting).
Proof.
  induction waiting as [|c others IH]; cbn [deliver_to].
  - apply (stable_ret R).
  - destruct (Nat.eqb (consumer_item c) itemIndex).
    + apply (stable_bind R); [apply stable_deliver | intros; apply (stable_ret R)].
    + apply (stable_bind R); [exact IH | intros; apply (stable_ret R)].
Qed.

Lemma stable_deliveries (order : list nat) :
  forall waiting, stable R (deliveries context cfg ris es order waiting).
Proof.
  induction order as [|itemIndex order IH]; intros waiting; cbn [deliveries].
  - apply (stable_ret R).
  - apply (stable_bind R); [apply stable_deliver_to | intros; apply IH].
Qed.

Lemma stable_meanwhile (w : wait) : stable (on_shared R) (meanwhile context cfg ris es w).
Proof.
  intros p. unfold meanwhile, on_shared.
  pose proof (stable_deliveries (delivered context w) (abandoned p) (shared p)) as H.
  destruct (deliveries _ _ _ _ _ _ _) as [[waiting | e |] s]; exact H.
Qed.

Lemma stable_awaited (w : wait) {A : Type} (promise : MP A) :
  stable (on_shared R) promise -> stable (on_shared R) (awaited context cfg ris es w promise).
Proof.
  intros Hm p. unfold awaited. specialize (Hm p).
  destruct (promise p) as [r p1]. cbn [snd] in *.
  eapply (R_trans (on_shared R)); [exact Hm | apply stable_meanwhile].
Qed.

Lemma stable_for_await (i : nat) (deadline : option nat) (ending : stream_end) :
  forall msgs consumed vars,
    stable (on_shared R) (for_await context cfg i ris es deadline consumed msgs ending vars).
Proof.
  induction msgs as [|msg rest IH]; intros consumed vars; cbn [for_await];
    (apply (stable_bind (on_shared R)); [apply stable_meanwhile | intros _]);
    (case_bool_decide; [apply stable_left_waiting |]).
  - destruct ending;
      [apply (stable_ret (on_shared R)) | apply (stable_throw (on_shared R))
       | apply stable_left_waiting].
  - apply (stable_bind (on_shared R)); [apply stable_lift, body_stable | intros ?; apply IH].
Qed.

Lemma stable_through (i : nat) :
  forall pre consumed vars,
    stable (on_shared R) (through context cfg i ris es consumed pre vars).
Proof.
  induction pre as [|msg rest IH]; intros consumed vars; cbn [through].
  - apply (stable_ret (on_shared R)).
  - apply (stable_bind (on_shared R)); [apply stable_meanwhile | intros _].
    apply (stable_bind (on_shared R)); [apply stable_lift, body_stable | intros ?; apply IH].
Qed.

End Body.

End Process.


Lemma logged_only_refl s : logged_only s s.
Proof. exists []. rewrite app_nil_r. auto. Qed.

Lemma fs_calls_app (a b : list event) : fs_calls (a ++ b) = fs_calls a ++ fs_calls b.
Proof. apply List.filter_app. Qed.

Lemma logged_only_trans s1 s2 s3 : logged_only s1 s2 -> logged_only s2 s3 -> logged_only s1 s3.
Proof.
  intros (e1 & E1 & F1) (e2 & E2 & F2). exists (e1 ++ e2). split.
  - rewrite E2, E1, app_assoc. reflexivity.
  - rewrite fs_calls_app, F1, F2. reflexivity.
Qed.

Lemma same_env_refl s : same_env s s.
Proof. reflexivity. Qed.

Lemma same_env_trans s1 s2 s3 : same_env s1 s2 -> same_env s2 s3 -> same_env s1 s3.
Proof. unfold same_env. congruence. Qed.

Lemma logged_only_logger level message meta : stable logged_only (logger level message meta).
Proof. intros s. exists [ELog level message meta]. auto. Qed.

Lemma same_env_emit ev : stable same_env (emit ev).
Proof. intros s. reflexivity. Qed.

Lemma logged_only_setenv k v : stable logged_only (setenv k v).
Proof. intros s. exists []. simpl. rewrite app_nil_r. auto. Qed.

Lemma logged_only_unsetenv k : stable logged_only (unsetenv k).
Proof. intros s. exists []. simpl. rewrite app_nil_r. auto. Qed.

#[export] Instance logged_only_preorder : PreOrder logged_only.
Proof. split; [exact logged_only_refl | exact logged_only_trans]. Qed.

#[export] Instance same_env_preorder : PreOrder same_env.
Proof. split; [exact same_env_refl | exact same_env_trans]. Qed.

(** Solves [stable R m] for a computation built from the combinators. *)
(** Solves [stable R m] for a computation built from the combinators. *)
Ltac stable_step :=
  lazymatch goal with
  | |- stable ?R (bind _ _) => apply (stable_bind R); [| intros ?]
  | |- stable ?R (try_catch _ _) => apply (stable_try_catch R); [| intros ?]
  | |- stable ?R (try_finally _ _) => apply (stable_try_finally R)
  | |- stable ?R (race_timeout _) => apply (stable_race_timeout R)
  | |- stable ?R (ret _) => apply (stable_ret R)
  | |- stable ?R (throw _) => apply (stable_throw R)
  | |- stable ?R suspend => apply (stable_suspend R)
  | |- stable ?R (host_result _) => apply (stable_host_result R)
  | |- stable ?R (now _) => apply (stable_now R)
  | |- stable (on_shared ?R) (lift _) => apply (stable_lift R)
  | |- stable (on_shared ?R) (left_waiting _) => apply (stable_left_waiting R)
  | |- stable ?R (alone _) => apply (stable_alone R)
  | |- stable logged_only (logger _ _ _) => apply logged_only_logger
  | |- stable logged_only (setenv _ _) => apply logged_only_setenv
  | |- stable logged_only (unsetenv _) => apply logged_only_unsetenv
  | |- stable same_env (emit _) => apply same_env_emit
  | |- stable _ (if ?b then _ else _) => destruct b
  | |- stable _ (match ?x with _ => _ end) => destruct x
  end.

Ltac stable_tac := repeat stable_step.

Lemma logged_only_auditLog context action details :
  stable logged_only (auditLog context action details).
Proof. unfold auditLog. stable_tac. Qed.

Lemma same_env_auditLog context action details :
  stable same_env (auditLog context action details).
Proof. unfold auditLog, logger. stable_tac. Qed.

Lemma same_env_on_message context cfg i ris es msg vars :
  stable same_env (on_message context cfg i ris es msg vars).
Proof.
  unfold on_message, get_length, logger. destruct vars.
  stable_tac; apply same_env_auditLog.
Qed.

Lemma logged_only_on_message context cfg i ris es msg vars :
  stable logged_only (on_message context cfg i ris es msg vars).
Proof.
  unfold on_message, get_length. destruct vars.
  stable_tac; apply logged_only_auditLog.
Qed.

(** ** The loop over the items

    A relation that the loop body, the writes of the key and the line
    announcing a run preserve is preserved by the run of an item and by
    the loop over the items, whatever the abandoned calls receive
    meanwhile. *)
Section Loop.

Context (R : State -> State -> Prop) `{!PreOrder R}.

Variable context : Host.

Hypothesis body_stable :
  forall cfg i ris es msg vars, stable R (on_message context cfg i ris es msg vars).
Hypothesis unset_stable : stable R (unsetenv ANTHROPIC_API_KEY).
Hypothesis set_stable : forall v, stable R (setenv ANTHROPIC_API_KEY v).
Hypothesis start_stable :
  forall (i n : nat) (workspace : WorkspaceContext),
    stable R (auditLog context (js "AGENT_START")
                {[ js "itemIndex" := num i;
                   js "promptLength" := num n;
                   js "workspace" := VStr (path workspace) ]}).

Lemma stable_meanwhile_loop cfg ris es w :
  stable (on_shared R) (meanwhile context cfg ris es w).
Proof. apply (stable_meanwhile R); [intros; apply body_stable | exact unset_stable]. Qed.

Lemma stable_awaited_loop cfg ris es w {A : Type} (promise : MP A) :
  stable (on_shared R) promise -> stable (on_shared R) (awaited context cfg ris es w promise).
Proof. apply (stable_awaited R); [intros; apply body_stable | exact unset_stable]. Qed.

Lemma stable_executeAgent cfg i ris es apiKey stream deadline :
  stable (on_shared R) (executeAgent context cfg i ris es apiKey stream deadline).
Proof.
  unfold executeAgent. stable_tac; try apply set_stable; try exact unset_stable.
  apply (stable_for_await R); [intros; apply body_stable | exact unset_stable].
Qed.

Lemma stable_run_item options cfg workspace i item :
  stable (on_shared R) (run_item context options cfg workspace i item).
Proof.
  unfold run_item.
  repeat first
    [ apply stable_awaited_loop
    | apply stable_executeAgent
    | apply start_stable
    | stable_step ].
Qed.

Lemma stable_process_items options cfg workspace items :
  forall i returnData,
    stable (on_shared R) (process_items context options cfg workspace i items returnData).
Proof.
  induction items as [|item rest IH]; intros i returnData; cbn [process_items].
  - stable_tac.
  - stable_tac; first [apply stable_run_item | apply IH].
Qed.

Lemma stable_awaited_cleanup options cfg workspace :
  stable R (emit (ERm (path workspace))) ->
  stable R (cleanup_settled context workspace) ->
  stable (on_shared R) (awaited_cleanup context options cfg workspace).
Proof.
  intros Hcall Hsettled. unfold awaited_cleanup.
  apply stable_awaited_loop.
  stable_tac; first [exact Hcall | exact Hsettled | apply stable_meanwhile_loop].
Qed.

End Loop.

Lemma logged_only_process_items context options cfg workspace items i returnData :
  stable (on_shared logged_only)
    (process_items context options cfg workspace i items returnData).
Proof.
  apply (stable_process_items logged_only); intros;
    first [ apply logged_only_on_message | apply logged_only_unsetenv
          | apply logged_only_setenv | apply logged_only_auditLog ].
Qed.

Lemma logged_only_meanwhile context cfg ris es w :
  stable (on_shared logged_only) (meanwhile context cfg ris es w).
Proof.
  apply (stable_meanwhile logged_only); intros;
    [apply logged_only_on_message | apply logged_only_unsetenv].
Qed.

(** ** Computations that come back *)

Section Settling.

Context {S : Type}.

Lemma settles_ret {A : Type} (a : A) : settles (ret a : MS S A).
Proof. intros s. discriminate. Qed.

Lemma settles_throw {A : Type} (e : error) : settles (throw e : MS S A).
Proof. intros s. discriminate. Qed.

Lemma settles_host_result {A : Type} (r : error + A) : settles (host_result r : MS S A).
Proof. destruct r; intros s; discriminate. Qed.

Lemma settles_bind {A B : Type} (m : MS S A) (f : A -> MS S B) :
  settles m -> (forall a, settles (f a)) -> settles (bind m f).
Proof.
  intros Hm Hf s. unfold bind. specialize (Hm s).
  destruct (m s) as [[a | e |] s1]; simpl in *; [apply Hf | discriminate | congruence].
Qed.

Lemma settles_try_catch {A : Type} (body : MS S A) (handler : error -> MS S A) :
  settles body -> (forall e, settles (handler e)) -> settles (try_catch body handler).
Proof.
  intros Hb Hh s. unfold try_catch. specialize (Hb s).
  destruct (body s) as [[a | e |] s1]; simpl in *; [discriminate | apply Hh | congruence].
Qed.

Lemma settles_try_finally {A : Type} (body : MS S A) (fin : MS S unit) :
  settles body -> settles fin -> settles (try_finally body fin).
Proof.
  intros Hb Hf s. unfold try_finally. specialize (Hb s).
  destruct (body s) as [[a | e |] s1]; simpl in *; [| | congruence];
    specialize (Hf s1); destruct (fin s1) as [[[] | e' |] s2]; simpl in *;
    congruence.
Qed.

Lemma settles_race_timeout {A : Type} (agent : MS S A) : settles (race_timeout agent).
Proof.
  intros s. unfold race_timeout. destruct (agent s) as [[a | e |] s1]; discriminate.
Qed.

End Settling.

Lemma settles_emit ev : settles (emit ev).
Proof. intros s. discriminate. Qed.

Lemma settles_now context : settles (now context).
Proof. intros s. discriminate. Qed.

Lemma settles_lift {A : Type} (m : M A) : settles m -> settles (lift m).
Proof.
  intros Hm p. unfold lift. specialize (Hm (shared p)).
  destruct (m (shared p)) as [r s]. exact Hm.
Qed.

(** The abandoned calls never hold the batch up. *)
Lemma meanwhile_returns context cfg ris es w p :
  (meanwhile context cfg ris es w p).1 = Normal tt.
Proof.
  unfold meanwhile. destruct (deliveries _ _ _ _ _ _ _) as [[waiting | e |] s]; reflexivity.
Qed.

Lemma settles_meanwhile context cfg ris es w : settles (meanwhile context cfg ris es w).
Proof. intros p. rewrite meanwhile_returns. discriminate. Qed.

Lemma settles_awaited context cfg ris es w {A : Type} (promise : MP A) :
  settles promise -> settles (awaited context cfg ris es w promise).
Proof.
  intros Hm p. unfold awaited. specialize (Hm p).
  destruct (promise p) as [r p1]. exact Hm.
Qed.

Lemma settles_alone {A : Type} (m : MP A) : settles m -> settles (alone m).
Proof.
  intros Hm s. unfold alone. specialize (Hm (mkProcess s [])).
  destruct (m (mkProcess s [])) as [r p]. exact Hm.
Qed.

Ltac settles_step :=
  lazymatch goal with
  | |- settles (bind _ _) => apply settles_bind; [| intros ?]
  | |- settles (try_catch _ _) => apply settles_try_catch; [| intros ?]
  | |- settles (try_finally _ _) => apply settles_try_finally
  | |- settles (race_timeout _) => apply settles_race_timeout
  | |- settles (awaited _ _ _ _ _ _) => apply settles_awaited
  | |- settles (meanwhile _ _ _ _ _) => apply settles_meanwhile
  | |- settles (lift _) => apply settles_lift
  | |- settles (alone _) => apply settles_alone
  | |- settles (ret _) => apply settles_ret
  | |- settles (throw _) => apply settles_throw
  | |- settles (host_result _) => apply settles_host_result
  | |- settles (now _) => apply settles_now
  | |- settles (logger _ _ _) => apply settles_emit
  | |- settles (emit _) => apply settles_emit
  | |- settles (if ?b then _ else _) => destruct b
  | |- settles (match ?x with _ => _ end) => destruct x
  end.

Ltac settles_tac := repeat settles_step.

Lemma settles_auditLog context action details : settles (auditLog context action details).
Proof. unfold auditLog. settles_tac. Qed.

Lemma settles_run_item context options cfg workspace i item :
  settles (run_item context options cfg workspace i item).
Proof. unfold run_item. settles_tac; apply settles_auditLog. Qed.

(** The loop over the items always comes back: with the records or with
    the error that aborts the batch. *)
Lemma settles_process_items context options cfg workspace items :
  forall i returnData,
    settles (process_items context options cfg workspace i items returnData).
Proof.
  induction items as [|item rest IH]; intros i returnData; cbn [process_items].
  - settles_tac.
  - settles_tac; first [apply settles_run_item | apply IH].
Qed.

(** Teardown never throws: it calls [rm] once and logs how it went. *)
Lemma cleanupSandboxedWorkspace_run context workspace s :
  exists line,
    cleanupSandboxedWorkspace context workspace s
    = (Normal tt, mkState (process_env s) (trace s ++ [ERm (path workspace); line]))
    /\ is_fs_call line = false.
Proof.
  unfold cleanupSandboxedWorkspace, try_catch, bind, emit, logger, host_result.
  destruct (rm context (path workspace)) as [e |];
    cbn [throw ret]; unfold emit; cbn [trace process_env];
    rewrite <- app_assoc; eexists; split; reflexivity.
Qed.


Lemma new_events_app s s' es : trace s' = trace s ++ es -> new_events s s' = es.
Proof. intros E. unfold new_events. rewrite E. apply drop_app_length. Qed.

Lemma bind_assoc_run {S A B C : Type} (m : MS S A) (f : A -> MS S B) (g : B -> MS S C) s :
  bind (bind m f) g s = bind m (fun a => bind (f a) g) s.
Proof. unfold bind. destruct (m s) as [[a | e |] s1]; reflexivity. Qed.

Lemma auditLog_run context action details s :
  exists line,
    auditLog context action details s
    = (Normal tt, mkState (process_env s) (trace s ++ [line]))
    /\ is_fs_call line = false.
Proof. eexists. split; reflexivity. Qed.

(** A workspace that was created cost one [mkdir], of its own path. *)
Lemma createSandboxedWorkspace_created context customPath s workspace s1 :
  createSandboxedWorkspace context customPath s = (Normal workspace, s1) ->
  exists line,
    trace s1 = trace s ++ [EMkdir (path workspace); line] /\ is_fs_call line = false.
Proof.
  unfold createSandboxedWorkspace.
  set (choice := if truthy _ then _ else _).
  unfold bind at 1. destruct (choice s) as [[p | e |] s0] eqn:Ec; try discriminate.
  assert (s0 = s) as ->.
  { subst choice. repeat case_match; cbv [ret throw] in Ec; congruence. }
  unfold bind, emit, host_result, logger, now.
  destruct (mkdir context p); cbn [throw ret emit]; [discriminate |].
  unfold emit. cbn [trace process_env].
  intros [= <- <-]. cbn [path trace]. rewrite <- app_assoc.
  eexists. split; reflexivity.
Qed.

Lemma batch_setup_created context options s workspace s1 :
  batch_setup context options s = (Normal workspace, s1) ->
  exists init_line created_line,
    trace s1 = trace s ++ [init_line; EMkdir (path workspace); created_line]
    /\ is_fs_call init_line = false /\ is_fs_call created_line = false.
Proof.
  unfold batch_setup. unfold bind at 1.
  destruct (auditLog_run context (js "AGENT_INIT")
              {[ js "enableFileAccess" := VBool (enableFileAccess (sandboxConfig_of options []));
                 js "enableCodeExecution" := VBool (enableCodeExecution (sandboxConfig_of options []));
                 js "enableBashCommands" := VBool (enableBashCommands (sandboxConfig_of options []));
                 js "allowedCommands" := VArr (map VStr (allowedCommands (sandboxConfig_of options [])));
                 js "maxTurns" := VNum (or_num (opt_maxTurns options) 10) ]} s)
    as (init_line & -> & Hinit).
  intros H. apply createSandboxedWorkspace_created in H as (line & E & Hline).
  cbn [trace] in E. rewrite <- app_assoc in E.
  exists init_line, line. auto.
Qed.

Lemma auditLog_eq context action details s :
  auditLog context action details s
  = (Normal tt, mkState (process_env s)
                  (trace s ++ [audit_line context (length (trace s)) action details])).
Proof. reflexivity. Qed.

(** A setup that fails leaves [process.env] alone; after the
    initialization line it has made at most the [mkdir] that failed. *)
Lemma batch_setup_failed context options s e s1 :
  batch_setup context options s = (Thrown e, s1) ->
  process_env s1 = process_env s /\
  exists init_line,
    is_fs_call init_line = false /\
    (new_events s s1 = [init_line] \/ exists p, new_events s s1 = [init_line; EMkdir p]).
Proof.
  unfold batch_setup. unfold bind at 1. rewrite auditLog_eq.
  set (init_line := audit_line context (length (trace s)) (js "AGENT_INIT") _).
  set (s0 := mkState (process_env s) (trace s ++ [init_line])).
  unfold createSandboxedWorkspace.
  set (choice := if truthy _ then _ else _).
  assert (Hchoice : (exists p, choice s0 = (Normal p, s0)) \/ (exists e0, choice s0 = (Thrown e0, s0))).
  { subst choice. repeat case_match; cbv [ret throw]; eauto. }
  unfold bind at 1.
  destruct Hchoice as [(p & ->) | (e0 & ->)].
  - unfold bind at 1. unfold emit at 1. unfold bind at 1. unfold host_result.
    destruct (mkdir context p) as [e1 |]; cbn [throw ret].
    + intros [= <- <-]. split; [reflexivity |]. exists init_line. split; [reflexivity |].
      right. exists p. apply new_events_app. subst s0. cbn [trace].
      rewrite <- app_assoc. reflexivity.
    + unfold bind, logger, emit, now, ret. discriminate.
  - intros [= <- <-]. split; [reflexivity |]. exists init_line. split; [reflexivity |].
    left. apply new_events_app. reflexivity.
Qed.

(** The setup always comes back. *)
Lemma settles_batch_setup context options : settles (batch_setup context options).
Proof.
  unfold batch_setup, createSandboxedWorkspace, logger.
  settles_tac; apply settles_auditLog.
Qed.

Lemma claudeCodeAgentExecute_after_setup context options items s :
  claudeCodeAgentExecute context options items s
  = bind (batch_setup context options)
      (fun workspace =>
         returnData <-
           alone
             (try_finally
                (process_items context options (sandboxConfig_of options (path workspace))
                   workspace 0 items [])
                (awaited_cleanup context options (sandboxConfig_of options (path workspace))
                   workspace)) ;;
         ret [returnData]) s.
Proof. unfold claudeCodeAgentExecute, batch_setup. rewrite bind_assoc_run. reflexivity. Qed.

(** ** The abandoned calls *)

(** Where no call was abandoned, waiting changes nothing. *)
Lemma deliveries_none context cfg ris es order s :
  deliveries context cfg ris es order [] s = (Normal [], s).
Proof. induction order as [|i order IH]; [reflexivity | exact IH]. Qed.

Lemma meanwhile_alone context cfg ris es w (p : Process) :
  abandoned p = [] -> meanwhile context cfg ris es w p = (Normal tt, p).
Proof.
  intros E. unfold meanwhile. rewrite E, deliveries_none. destruct p. cbn in E. subst.
  reflexivity.
Qed.

Lemma awaited_alone context cfg ris es w {A : Type} (promise : MP A) (p : Process) :
  abandoned (promise p).2 = [] -> awaited context cfg ris es w promise p = promise p.
Proof.
  intros E. unfold awaited. destruct (promise p) as [r p1]. cbn [snd] in E.
  rewrite meanwhile_alone by exact E. reflexivity.
Qed.

Lemma settles_on_message context cfg i ris es msg vars :
  settles (on_message context cfg i ris es msg vars).
Proof.
  unfold on_message, get_length. destruct vars. settles_tac; apply settles_auditLog.
Qed.

(** A delivery always comes back, and so the abandoned calls that remain
    are always known. *)
Lemma deliver_returns context cfg ris es c s :
  exists c' s', deliver context cfg ris es c s = (Normal c', s').
Proof.
  unfold deliver. destruct (consumer_messages c) as [|msg rest].
  - destruct (consumer_ending c); eexists _, _; reflexivity.
  - unfold try_catch, bind.
    pose proof (settles_on_message context cfg (consumer_item c) ris es msg
                  (consumer_vars c) s) as Hs.
    destruct (on_message _ _ _ _ _ _ _ s) as [[vars | e |] s1]; cbn [fst] in Hs;
      [| | congruence]; eexists _, _; reflexivity.
Qed.

Lemma deliver_to_returns context cfg ris es itemIndex waiting s :
  exists waiting' s', deliver_to context cfg ris es itemIndex waiting s = (Normal waiting', s').
Proof.
  revert s. induction waiting as [|c others IH]; intros s; cbn [deliver_to].
  - eexists _, _. reflexivity.
  - destruct (Nat.eqb (consumer_item c) itemIndex).
    + destruct (deliver_returns context cfg ris es c s) as (c' & s' & E).
      unfold bind. rewrite E. eexists _, _. reflexivity.
    + destruct (IH s) as (others' & s' & E).
      unfold bind. rewrite E. eexists _, _. reflexivity.
Qed.

Lemma deliveries_return context cfg ris es order :
  forall waiting s,
    exists waiting' s', deliveries context cfg ris es order waiting s = (Normal waiting', s').
Proof.
  induction order as [|itemIndex order IH]; intros waiting s; cbn [deliveries].
  - eexists _, _. reflexivity.
  - destruct (deliver_to_returns context cfg ris es itemIndex waiting s) as (w1 & s1 & E).
    unfold bind. rewrite E. apply IH.
Qed.

(** What the abandoned calls do while the batch waits: they write log
    lines, and the batch goes on. *)
Lemma meanwhile_logged context cfg ris es w (p : Process) :
  exists p' es',
    meanwhile context cfg ris es w p = (Normal tt, p') /\
    trace p' = trace p ++ es' /\ fs_calls es' = [].
Proof.
  pose proof (meanwhile_returns context cfg ris es w p) as Hr.
  pose proof (logged_only_meanwhile context cfg ris es w p) as (es' & E & F).
  destruct (meanwhile context cfg ris es w p) as [r p']. cbn [fst snd] in *. subst r.
  exists p', es'. auto.
Qed.

(** ** Teardown in the process *)

Lemma cleanup_settled_run context workspace s :
  exists line,
    cleanup_settled context workspace s
    = (Normal tt, mkState (process_env s) (trace s ++ [line]))
    /\ is_fs_call line = false.
Proof.
  unfold cleanup_settled, try_catch, bind, logger, host_result.
  destruct (rm context (path workspace)) as [e |];
    cbn [throw ret]; unfold emit; eexists; split; reflexivity.
Qed.

(** The teardown is the call of [rm] followed by what is done when [rm]
    has settled. *)
Lemma cleanup_split context workspace s :
  cleanupSandboxedWorkspace context workspace s
  = (emit (ERm (path workspace)) ;; cleanup_settled context workspace) s.
Proof.
  unfold cleanupSandboxedWorkspace, cleanup_settled, try_catch, bind, emit, logger, host_result.
  destruct (rm context (path workspace)) as [e |]; reflexivity.
Qed.

(** In a process without abandoned calls the teardown of the batch is
    [cleanupSandboxedWorkspace]. *)
Lemma awaited_cleanup_alone context options cfg workspace (p : Process) :
  abandoned p = [] ->
  awaited_cleanup context options cfg workspace p
  = lift (cleanupSandboxedWorkspace context workspace) p.
Proof.
  intros E. unfold awaited_cleanup.
  assert (Hin : forall q : Process, abandoned q = [] ->
            (lift (emit (ERm (path workspace))) ;;
             meanwhile context cfg (is_true (opt_returnIntermediateSteps options))
               (not_false (opt_enableStreaming options)) WaitRm ;;
             lift (cleanup_settled context workspace)) q
            = lift (cleanupSandboxedWorkspace context workspace) q).
  { intros q Eq. unfold lift at 3. rewrite cleanup_split.
    unfold bind at 1. unfold lift at 1. unfold emit at 1.
    unfold bind at 1. rewrite meanwhile_alone by exact Eq.
    unfold lift. unfold bind at 1. unfold emit at 1. cbn [shared abandoned]. reflexivity. }
  rewrite awaited_alone; [apply Hin; exact E |].
  rewrite Hin by exact E. unfold lift.
  destruct (cleanupSandboxedWorkspace context workspace p) as [r s]. exact E.
Qed.

(** Whatever the abandoned calls do meanwhile, the teardown returns, and
    the one file-system call made from its start to its end is the [rm]
    of the workspace. *)
Lemma awaited_cleanup_run context options cfg workspace (p : Process) :
  exists p' es',
    awaited_cleanup context options cfg workspace p = (Normal tt, p') /\
    trace p' = trace p ++ ERm (path workspace) :: es' /\
    fs_calls es' = [].
Proof.
  unfold awaited_cleanup, awaited.
  unfold bind at 1. unfold lift at 1. unfold emit at 1.
  set (p1 := mkProcess _ (abandoned p)).
  destruct (meanwhile_logged context cfg (is_true (opt_returnIntermediateSteps options))
              (not_false (opt_enableStreaming options)) WaitRm p1) as (p2 & es2 & E2 & T2 & F2).
  unfold bind at 1. rewrite E2.
  destruct (cleanup_settled_run context workspace p2) as (line & E3 & Hline).
  unfold lift. rewrite E3.
  set (p3 := mkProcess _ (abandoned p2)).
  destruct (meanwhile_logged context cfg (is_true (opt_returnIntermediateSteps options))
              (not_false (opt_enableStreaming options)) WaitTeardown p3)
    as (p4 & es4 & E4 & T4 & F4).
  rewrite E4. cbn [snd].
  exists p4, (es2 ++ [line] ++ es4). split; [reflexivity |]. split.
  - rewrite T4. subst p3. cbn [shared trace]. rewrite T2. subst p1. cbn [shared trace].
    rewrite <- !app_assoc. reflexivity.
  - rewrite !fs_calls_app, F2, F4. unfold fs_calls. cbn [List.filter]. rewrite Hline.
    reflexivity.
Qed.

(** ** The loop of an agent call *)

(** A stream is consumed front to back: as long as the timer does not
    fire before the end of a prefix, the loop over the whole stream is
    the loop through the prefix followed by the loop over the rest. *)
Lemma for_await_through (context : Host) (cfg : SandboxConfig) (i : nat) (ris es : bool)
    (deadline : option nat) (ending : stream_end)
    (rest : list obj) :
  forall (pre : list obj) (consumed : nat) (vars : list INodeExecutionData * value)
         (p : Process),
    (forall k, deadline = Some k -> consumed + length pre <= k) ->
    for_await context cfg i ris es deadline consumed (pre ++ rest) ending vars p
    = bind (through context cfg i ris es consumed pre vars)
        (fun vars' =>
           for_await context cfg i ris es deadline (consumed + length pre) rest ending vars')
        p.
Proof.
  induction pre as [|m pre IH]; intros consumed vars p Hdl.
  - cbn [app length through]. rewrite Nat.add_0_r. reflexivity.
  - cbn [app for_await through].
    rewrite bool_decide_eq_false_2
      by (intros E; specialize (Hdl _ E); cbn [length] in Hdl; lia).
    unfold bind.
    destruct (meanwhile context cfg ris es (WaitMessage i consumed) p) as [[[] | e |] p1];
      try reflexivity.
    destruct (lift (on_message context cfg i ris es m vars) p1) as [[vars1 | e |] p2];
      try reflexivity.
    rewrite IH by (intros k E; specialize (Hdl _ E); cbn [length] in Hdl; lia).
    unfold bind. cbn [length].
    replace (S consumed + length pre) with (consumed + S (length pre)) by lia.
    reflexivity.
Qed.

(** ** Messages and audit lines *)

Lemma is_str_true v lit : is_str v lit = true <-> v = VStr lit.
Proof.
  unfold is_str, jsstring_eqb. destruct v; try (split; [discriminate | congruence]).
  rewrite bool_decide_eq_true. split; congruence.
Qed.

Lemma details_tool (a b c : value) (base : obj) :
  get ({[ js "itemIndex" := a; js "tool" := b; js "toolInput" := c ]} ∪ base) (js "tool") = b.
Proof.
  unfold get. erewrite lookup_union_Some_l; [reflexivity |]. vm_compute. reflexivity.
Qed.

Lemma details_toolInput (a b c : value) (base : obj) :
  get ({[ js "itemIndex" := a; js "tool" := b; js "toolInput" := c ]} ∪ base) (js "toolInput") = c.
Proof.
  unfold get. erewrite lookup_union_Some_l; [reflexivity |]. vm_compute. reflexivity.
Qed.

Lemma get_pair_tool (b c : value) :
  get ({[ js "tool" := b; js "input" := c ]} : obj) (js "tool") = b.
Proof. vm_compute. reflexivity. Qed.

Lemma get_pair_input (b c : value) :
  get ({[ js "tool" := b; js "input" := c ]} : obj) (js "input") = c.
Proof. vm_compute. reflexivity. Qed.

Lemma command_to_filter_ext (m1 m2 : obj) :
  get m1 (js "tool") = get m2 (js "tool") ->
  get m1 (js "input") = get m2 (js "input") ->
  command_to_filter m1 = command_to_filter m2.
Proof. intros Ht Hi. unfold command_to_filter. rewrite Ht, Hi. reflexivity. Qed.

Lemma command_to_filter_Some (msg : obj) (command : jsstring) :
  command_to_filter msg = Some command ->
  is_shell_tool msg /\ carries_command msg command.
Proof.
  unfold command_to_filter, is_shell_tool, carries_command.
  destruct (is_str (get msg (js "tool")) (js "bash")) eqn:Eb;
    [| destruct (is_str (get msg (js "tool")) (js "execute_command")) eqn:Ee];
    cbn [orb]; try discriminate.
  all: intros H; split; [first [left; apply is_str_true, Eb | right; apply is_str_true, Ee] |].
  all: destruct (get msg (js "input")) as [| | | | | |input]; cbn [opt_get] in H;
    try (cbv [js_or truthy] in H; discriminate).
  all: unfold js_or in H;
    destruct (truthy (get input (js "command"))) eqn:Et.
  all: try (destruct (get input (js "command")) eqn:Ec; try discriminate;
            rewrite Et in H; injection H as ->;
            split; [intros ->; discriminate | exists input; auto]).
  all: destruct (get input (js "cmd")) eqn:Ec; try discriminate;
       destruct (truthy (VStr s)) eqn:Et2; try discriminate; injection H as ->;
       split; [intros ->; discriminate | exists input; auto].
Qed.


Lemma audited_command_tool_use context n i msg :
  audited_command (tool_use_line context n i msg) = command_to_filter msg.
Proof.
  unfold tool_use_line, audit_line, audited_command.
  change (jsstring_eqb (js "[AUDIT] Claude Agent: " ++ js "TOOL_USE") TOOL_USE_line) with true.
  cbn iota. apply command_to_filter_ext.
  - rewrite get_pair_tool. apply details_tool.
  - rewrite get_pair_input. apply details_toolInput.
Qed.

Lemma audited_command_other context n action details :
  jsstring_eqb (js "[AUDIT] Claude Agent: " ++ action) TOOL_USE_line = false ->
  audited_command (audit_line context n action details) = None.
Proof. intros H. unfold audit_line, audited_command. rewrite H. reflexivity. Qed.

Lemma type_tool_use_not_result (msg : obj) :
  is_str (get msg (js "type")) (js "tool_use") = true ->
  is_str (get msg (js "type")) (js "result") = false.
Proof. intros H. apply is_str_true in H. rewrite H. reflexivity. Qed.

(** The loop body on a tool invocation: one audit line, then the filter
    when the message carries a shell command. *)
Lemma on_message_tool_use (context : Host) (cfg : SandboxConfig) (i : nat) (ris es : bool)
    (msg : obj) (agentMessages : list INodeExecutionData) (finalResult : value) (s : State) :
  is_str (get msg (js "type")) (js "tool_use") = true ->
  let agentMessages' :=
    if es then agentMessages ++ [convertAgentMessageToN8nData msg ris] else agentMessages in
  let line := tool_use_line context (length (trace s)) i msg in
  on_message context cfg i ris es msg (agentMessages, finalResult) s
  = match command_to_filter msg with
    | Some command =>
        match filterCommand command cfg with
        | None =>
            (Thrown (blocked_error i command),
             mkState (process_env s) (trace s ++ [line; blocked_line i command]))
        | Some _ =>
            (Normal (agentMessages', finalResult),
             mkState (process_env s) (trace s ++ [line]))
        end
    | None =>
        (Normal (agentMessages', finalResult), mkState (process_env s) (trace s ++ [line]))
    end.
Proof.
  intros Htype agentMessages' line. unfold on_message.
  rewrite (type_tool_use_not_result msg Htype), Htype.
  unfold bind at 1. cbn [ret].
  unfold bind at 1. unfold bind at 1. rewrite auditLog_eq.
  destruct (command_to_filter msg) as [command |]; [| reflexivity].
  destruct (filterCommand command cfg); [reflexivity |].
  unfold bind, logger, emit, throw. cbn [trace process_env].
  rewrite <- app_assoc. reflexivity.
Qed.

(** A message on which the body does not throw is processed to the end;
    what it adds to the trace records no rejected command. *)
Lemma on_message_passes (context : Host) (cfg : SandboxConfig) (i : nat) (ris es : bool)
    (msg : obj) (vars : list INodeExecutionData * value) (s : State) :
  throws_on cfg msg = false ->
  exists vars' evs,
    on_message context cfg i ris es msg vars s
    = (Normal vars', mkState (process_env s) (trace s ++ evs))
    /\ Forall (passes_policy cfg) evs.
Proof.
  intros Hok. destruct vars as [agentMessages finalResult].
  unfold throws_on in Hok. apply orb_false_elim in Hok as [Hres Htool].
  destruct (is_str (get msg (js "type")) (js "tool_use")) eqn:Etool.
  - rewrite on_message_tool_use by exact Etool.
    cbn [andb] in Htool.
    assert (Hline : forall n, passes_policy cfg (tool_use_line context n i msg)).
    { intros n command. rewrite audited_command_tool_use. intros Ec.
      rewrite Ec in Htool. destruct (filterCommand command cfg); congruence. }
    destruct (command_to_filter msg) as [command |].
    + destruct (filterCommand command cfg); [| discriminate].
      eexists _, [_]. split; [reflexivity |]. constructor; [apply Hline | constructor].
    + eexists _, [_]. split; [reflexivity |]. constructor; [apply Hline | constructor].
  - unfold on_message. rewrite Etool.
    destruct (is_str (get msg (js "type")) (js "result")) eqn:Eres.
    + cbn [andb] in Hres.
      assert (Hlen : exists len, get_length (get msg (js "result")) = ret len).
      { unfold get_length. destruct (get msg (js "result")); try discriminate; eauto. }
      destruct Hlen as (len & Hlen). rewrite Hlen.
      unfold bind at 1. unfold bind at 1. cbn [ret]. unfold bind at 1.
      rewrite auditLog_eq. unfold bind, ret.
      eexists _, [_]. split; [reflexivity |].
      constructor; [| constructor].
      intros command. rewrite audited_command_other by reflexivity. discriminate.
    + unfold bind, ret. exists
        (if es then agentMessages ++ [convertAgentMessageToN8nData msg ris] else agentMessages,
         finalResult), [].
      rewrite app_nil_r. destruct s. split; [reflexivity | constructor].
Qed.

End Stability.

(* ===================================================================== *)
(** * Execution supervisor *)
(* ===================================================================== *)


Section Supervisor.

Import Common Execute Observations RunObservations Stability.

(** C4: a batch whose setup returns a workspace makes, from its start to
    its return, exactly two file-system calls: the [mkdir] of the
    workspace, before the loop over the items, and the [rm] of it, after
    the loop; the loop itself makes none, whatever the items do (succeed,
    lack a prompt, run a blocked command, time out, fail upstream), with
    or without tolerance of item errors, and whatever the abandoned calls
    receive meanwhile. A batch whose setup throws ends there with that
    error: it has made at most the [mkdir] that failed, and no [rm]. The
    setup always comes back. *)
Theorem workspace_created_and_destroyed_once
    (context : Host) (options : Options) (items : list Item) (s : State) :
  let setup := batch_setup context options s in
  let run := claudeCodeAgentExecute context options items s in
  match setup.1 with
  | Normal workspace =>
      let loop :=
        process_items context options (sandboxConfig_of options (path workspace)) workspace
          0 items [] (mkProcess setup.2 []) in
      run.1 <> Suspended /\
      fs_calls (new_events s setup.2) = [EMkdir (path workspace)] /\
      fs_calls (new_events setup.2 loop.2) = [] /\
      fs_calls (new_events loop.2 run.2) = [ERm (path workspace)] /\
      fs_calls (new_events s run.2) = [EMkdir (path workspace); ERm (path workspace)]
  | Thrown e =>
      run = (Thrown e, setup.2) /\
      (fs_calls (new_events s run.2) = [] \/
       exists p, fs_calls (new_events s run.2) = [EMkdir p])
  | Suspended => False
  end.
Proof.
  intros setup run. subst setup run.
  pose proof (settles_batch_setup context options s) as Hsettles.
  destruct (batch_setup context options s) as [[workspace | e |] s1] eqn:Hsetup;
    cbn [fst snd] in *; [| | congruence].
  - destruct (batch_setup_created _ _ _ _ _ Hsetup) as (l1 & l2 & E1 & Hl1 & Hl2).
    set (cfg := sandboxConfig_of options (path workspace)).
    pose proof (settles_process_items context options cfg workspace items 0 []
                  (mkProcess s1 [])) as Hloop.
    pose proof (logged_only_process_items context options cfg workspace items 0 []
                  (mkProcess s1 [])) as (loop_events & E2 & Hitems).
    assert (Hrun : exists r p3 teardown_events,
               claudeCodeAgentExecute context options items s = (r, shared p3) /\
               r <> Suspended /\
               trace p3
               = trace (process_items context options cfg workspace 0 items []
                          (mkProcess s1 [])).2
                 ++ ERm (path workspace) :: teardown_events /\
               fs_calls teardown_events = []).
    { rewrite claudeCodeAgentExecute_after_setup. unfold bind at 1. rewrite Hsetup.
      unfold bind, alone, try_finally. fold cfg.
      destruct (process_items context options cfg workspace 0 items [] (mkProcess s1 []))
        as [r2 p2]. cbn [fst snd] in *.
      destruct (awaited_cleanup_run context options cfg workspace p2)
        as (p3 & teardown_events & E3 & T3 & F3).
      destruct r2 as [returnData | e |]; [| | congruence]; rewrite E3; cbn [ret];
        eexists _, p3, teardown_events; (split; [reflexivity |]);
        (split; [discriminate |]); auto. }
    destruct Hrun as (r & p3 & teardown_events & -> & Hr & T3 & F3).
    destruct (process_items context options cfg workspace 0 items [] (mkProcess s1 []))
      as [r2 p2]. cbn [fst snd] in *.
    split; [exact Hr |].
    split.
    { rewrite (new_events_app _ _ _ E1). unfold fs_calls. cbn [List.filter].
      rewrite Hl1, Hl2. reflexivity. }
    split.
    { rewrite (new_events_app s1 p2 loop_events E2). exact Hitems. }
    split.
    { rewrite (new_events_app p2 p3 _ T3). unfold fs_calls. cbn [List.filter is_fs_call].
      fold (fs_calls teardown_events). rewrite F3. reflexivity. }
    cbn [shared] in E2. unfold new_events. rewrite T3, E2, E1, <- !app_assoc, drop_app_length.
    rewrite !fs_calls_app, Hitems. unfold fs_calls. cbn [List.filter is_fs_call].
    fold (fs_calls teardown_events). rewrite Hl1, Hl2, F3. reflexivity.
  - assert (Hrun : claudeCodeAgentExecute context options items s = (Thrown e, s1)).
    { rewrite claudeCodeAgentExecute_after_setup. unfold bind at 1. rewrite Hsetup.
      reflexivity. }
    rewrite Hrun. split; [reflexivity |]. cbn [snd].
    destruct (batch_setup_failed _ _ _ _ _ Hsetup) as (_ & init_line & Hline & [E | (p & E)]);
      rewrite E; unfold fs_calls; cbn [List.filter is_fs_call]; rewrite Hline; eauto.
Qed.

(** C4 (the claim at a failing input): a batch whose custom workspace
    path lies in a sensitive directory creates no workspace and invokes no
    destruction; a batch whose [mkdir] fails has called [mkdir] once and
    invokes no destruction either. Both throw what the setup threw. *)
Lemma batch_without_workspace_counterexample :
  let refused := mkOptions None None None None None None (Some (js "/etc/foo")) None None None in
  let items := [sample_item "hello" (mkStream [final_result "hi"] Completes) None] in
  let read_only :=
    mkHost (Some (js "wf1")) (js "exec1") (js "AI Agent") true
      (js "/tmp") (js "/home/node") (fun n => repeat 171%N n)
      (fun _ => Some (Error (js "EROFS: read-only file system, mkdir")))
      (fun _ => None) (fun _ => js "2025-10-27T00:00:00.000Z")
      descriptive_message (fun _ => []) in
  let run1 := claudeCodeAgentExecute (sample_host true) refused items initial_state in
  let run2 := claudeCodeAgentExecute read_only (sample_options true "node") items initial_state in
  (exists e, run1.1 = Thrown e) /\
  fs_calls (trace run1.2) = [] /\
  run2.1 = Thrown (Error (js "EROFS: read-only file system, mkdir")) /\
  fs_calls (trace run2.2) = [EMkdir (js "/tmp/n8n-claude-agent/wf1/abababababababab")].
Proof. vm_compute. split; [eexists; reflexivity |]. repeat split; reflexivity. Qed.

Lemma workspace_created_and_destroyed_once_witness :
  let context := sample_host true in
  let options := sample_options true "node" in
  let items :=
    [ mkItem (inr []) None (inl (Error [])) None;
      sample_item "list the files"
        (mkStream [tool_use "bash" (VObj {[ js "command" := VStr (js "sudo ls") ]})] Completes) None;
      sample_item "wait" (mkStream [] Hangs) None;
      sample_item "fail" (mkStream [] (Fails (Error (js "stream closed")))) None;
      sample_item "say done" (mkStream [final_result "done"] Completes) None ] in
  fs_calls (new_events initial_state
              (claudeCodeAgentExecute context options items initial_state).2)
  = [EMkdir (js "/tmp/n8n-claude-agent/wf1/abababababababab");
     ERm (js "/tmp/n8n-claude-agent/wf1/abababababababab")].
Proof.
  intros context options items.
  pose proof (workspace_created_and_destroyed_once context options items initial_state) as H.
  cbv zeta in H.
  assert (Hsetup : (batch_setup context options initial_state).1
                   = Normal (mkWorkspaceContext (js "/tmp/n8n-claude-agent/wf1/abababababababab")
                               (js "wf1") (js "exec1") (js "2025-10-27T00:00:00.000Z")))
    by (vm_compute; reflexivity).
  rewrite Hsetup in H. destruct H as (_ & _ & _ & _ & Hfs). exact Hfs.
Defined.

(** When the workspace cannot be created the batch throws what the
    creation threw, right there: the loop is not entered and there is
    no workspace to tear down. *)
Lemma setup_failure_ends_batch
    (context : Host) (options : Options) (items : list Item) (s s1 : State) (e : error) :
  batch_setup context options s = (Thrown e, s1) ->
  claudeCodeAgentExecute context options items s = (Thrown e, s1).
Proof.
  intros Hsetup. rewrite claudeCodeAgentExecute_after_setup.
  unfold bind at 1. rewrite Hsetup. reflexivity.
Qed.

(** ** The credential in [process.env] *)

(** When [executeAgent] has returned or thrown, the key is no longer in
    [process.env]. *)
Lemma executeAgent_settled_clears_key
    context cfg i ris es apiKey stream deadline (p : Process) r p' :
  executeAgent context cfg i ris es apiKey stream deadline p = (r, p') ->
  r <> Suspended ->
  process_env p' !! ANTHROPIC_API_KEY = None.
Proof.
  unfold executeAgent, try_finally.
  destruct (bind _ _ p) as [[vars | e |] p2];
    unfold lift, unsetenv; intros [= <- <-] Hr; try congruence; apply lookup_delete_eq.
Qed.

(** C3 (the code at the failing input): one item whose stream never
    yields. The deadline timer wins the race, the batch throws the timeout
    error after tearing the workspace down, and at that point
    [ANTHROPIC_API_KEY] is still set in [process.env]. *)
Theorem timeout_leaves_credential_installed :
  let run := claudeCodeAgentExecute (sample_host false) (sample_options false "node")
               [sample_item "hello" (mkStream [] Hangs) None] initial_state in
  run.1 = Thrown (Error (js "Agent execution timeout")) /\
  process_env run.2 !! ANTHROPIC_API_KEY = Some (js "sk-ant-key") /\
  fs_calls (trace run.2)
  = [EMkdir (js "/tmp/n8n-claude-agent/wf1/abababababababab");
     ERm (js "/tmp/n8n-claude-agent/wf1/abababababababab")].
Proof. vm_compute. repeat split; reflexivity. Qed.

(** With tolerance of item errors the batch returns normally after a
    timeout in the middle of a stream, with the error record of the item,
    and the key is still in [process.env]. *)
Example tolerated_timeout_keeps_credential :
  let run :=
    claudeCodeAgentExecute (sample_host true) (sample_options false "node")
      [sample_item "hello"
         (mkStream [ {[ js "type" := VStr (js "text"); js "text" := VStr (js "thinking") ]};
                     final_result "late" ] Completes) (Some 1)]
      initial_state in
  run.1 = Normal [[mkData {[ js "error" := VStr (js "Agent execution timeout");
                             js "itemIndex" := num 0 ]}]] /\
  process_env run.2 !! ANTHROPIC_API_KEY = Some (js "sk-ant-key").
Proof. vm_compute. split; reflexivity. Qed.

(** The call that lost the race goes on. The same batch, in a process in
    which the abandoned stream delivers its last message and its end
    while the batch waits for [rm]: the batch returns the same records,
    but the abandoned call has written its completion line after the call
    of [rm] and has deleted the key, which by then could have been the key
    of another run. *)
Example abandoned_call_goes_on :
  let late (w : wait) := match w with WaitRm => [0; 0] | _ => [] end in
  let run :=
    claudeCodeAgentExecute (scheduling_host true late) (sample_options false "node")
      [sample_item "hello"
         (mkStream [ {[ js "type" := VStr (js "text"); js "text" := VStr (js "thinking") ]};
                     final_result "late" ] Completes) (Some 1)]
      initial_state in
  run.1 = Normal [[mkData {[ js "error" := VStr (js "Agent execution timeout");
                             js "itemIndex" := num 0 ]}]] /\
  process_env run.2 !! ANTHROPIC_API_KEY = None /\
  map (fun ev => match ev with
                 | ELog _ message _ => message
                 | EMkdir _ => js "mkdir"
                 | ERm _ => js "rm"
                 end) (trace run.2)
  = [ js "[AUDIT] Claude Agent: AGENT_INIT"; js "mkdir"; js "Created sandboxed workspace";
      js "[AUDIT] Claude Agent: AGENT_START"; js "rm";
      js "[AUDIT] Claude Agent: AGENT_COMPLETE"; js "Cleaned up sandboxed workspace" ].
Proof. vm_compute. repeat split; reflexivity. Qed.


(** A shell tool invocation whose command the filter rejects, arriving
    before the timer fires after messages that went through the loop
    body, ends the call: it throws the error built from the text that
    names the command, its [finally] deletes the key, and the last two
    events are the audit line of the invocation and the warning. The call
    is over, it is not left in the process, and what its stream held after
    the message plays no part. *)
Lemma blocked_command_aborts_call
    (context : Host) (cfg : SandboxConfig) (i : nat) (ris es : bool) (apiKey : jsstring)
    (deadline : option nat) (pre : list obj) (msg : obj) (command : jsstring) (p : Process) :
  Forall (fun m => throws_on cfg m = false) pre ->
  (forall k, deadline = Some k -> length pre < k) ->
  is_str (get msg (js "type")) (js "tool_use") = true ->
  command_to_filter msg = Some command ->
  filterCommand command cfg = None ->
  exists p1 : Process,
    forall rest ending,
      executeAgent context cfg i ris es apiKey (mkStream (pre ++ msg :: rest) ending) deadline p
      = (Thrown (blocked_error i command),
         mkProcess
           (mkState (delete ANTHROPIC_API_KEY (process_env p1))
              (trace p1 ++ [tool_use_line context (length (trace p1)) i msg;
                            blocked_line i command]))
           (abandoned p1)).
Proof.
  intros Hpre Hdl Htype Hcmd Hrej.
  set (p0 := mkProcess (mkState (<[ANTHROPIC_API_KEY := apiKey]> (process_env p)) (trace p))
               (abandoned p)).
  assert (Hthrough : exists vars1 p1,
             through context cfg i ris es 0 pre ([], VStr []) p0 = (Normal vars1, p1)).
  { clear Hdl. generalize 0, (([], VStr []) : list INodeExecutionData * value), p0.
    induction pre as [|m pre IH]; intros consumed vars q; cbn [through].
    - eexists _, _. reflexivity.
    - inversion Hpre as [| ? ? Hm Hrest]; subst.
      pose proof (meanwhile_returns context cfg ris es (WaitMessage i consumed) q) as Hr.
      unfold bind at 1.
      destruct (meanwhile context cfg ris es (WaitMessage i consumed) q) as [r q1].
      cbn [fst] in Hr. subst r.
      destruct (on_message_passes context cfg i ris es m vars q1 Hm) as (vars1 & evs1 & E1 & _).
      unfold bind at 1. unfold lift. rewrite E1. cbv beta iota. apply IH. exact Hrest. }
  destruct Hthrough as ([agentMessages finalResult] & p1 & E1).
  exists (after_wait context cfg ris es (WaitMessage i (0 + length pre)) p1).
  intros rest ending. unfold executeAgent, try_finally.
  cbn [Execute.messages Execute.ending].
  unfold bind at 1. unfold lift at 1. unfold setenv at 1. fold p0.
  rewrite for_await_through by (intros k E; specialize (Hdl k E); lia).
  unfold bind at 1. rewrite E1. cbn [for_await]. unfold after_wait.
  pose proof (meanwhile_returns context cfg ris es (WaitMessage i (0 + length pre)) p1) as Hr.
  unfold bind at 1.
  destruct (meanwhile context cfg ris es (WaitMessage i (0 + length pre)) p1) as [r p2].
  cbn [fst snd] in *. subst r.
  rewrite bool_decide_eq_false_2 by (intros E; specialize (Hdl _ E); lia).
  unfold bind at 1. unfold lift at 1.
  rewrite on_message_tool_use by exact Htype. rewrite Hcmd, Hrej.
  reflexivity.
Qed.

(** The scenario of the specification, on the whole batch: shell commands
    enabled, allowlist [node], the agent asks for [sudo rm -rf /]. The
    text of the error holds none of the words n8n-workflow replaces, and
    the message names the command. *)
Example command_block_scenario :
  let run :=
    claudeCodeAgentExecute (sample_host false) (sample_options true "node")
      [sample_item "clean up"
         (mkStream [tool_use "bash" (VObj {[ js "command" := VStr (js "sudo rm -rf /") ]});
                    final_result "cleaned"] Completes) None]
      initial_state in
  run.1 = Thrown (blocked_error 0 (js "sudo rm -rf /")) /\
  error_message (NodeError_message (sample_host false)) (blocked_error 0 (js "sudo rm -rf /"))
  = js "Command blocked by security filters: sudo rm -rf /" /\
  length (List.filter (records_command (js "sudo rm -rf /")) (trace run.2)) = 1 /\
  process_env run.2 !! ANTHROPIC_API_KEY = None.
Proof. vm_compute. repeat split; reflexivity. Qed.

(** The policy plays no part in the loop body except through the filter,
    and the filter reads neither [enableFileAccess] nor
    [enableCodeExecution]. *)
Lemma on_message_ignores_capability_flags
    (context : Host) (cfg : SandboxConfig) (fileAccess codeExecution : bool)
    (i : nat) (ris es : bool) (msg : obj) (vars : list INodeExecutionData * value) :
  on_message context
    (mkSandboxConfig (workspacePath cfg) fileAccess codeExecution
       (enableBashCommands cfg) (allowedCommands cfg) (timeout cfg))
    i ris es msg vars
  = on_message context cfg i ris es msg vars.
Proof. reflexivity. Qed.

(** C7: a tool invocation that is not a shell tool carrying a non-empty
    string command (under [command] or [cmd]) is processed to the end, with
    the same result and the same trace under every policy, so no policy
    check bears on it; and for every message the two capability booleans
    [enableFileAccess] and [enableCodeExecution] change nothing. *)
Theorem filter_only_for_shell_commands
    (context : Host) (i : nat) (ris es : bool) (msg : obj)
    (vars : list INodeExecutionData * value) (s : State) :
  is_str (get msg (js "type")) (js "tool_use") = true ->
  ~ (is_shell_tool msg /\ exists command, carries_command msg command) ->
  (exists vars' s',
     forall cfg, on_message context cfg i ris es msg vars s = (Normal vars', s')) /\
  (forall cfg fileAccess codeExecution,
     on_message context
       (mkSandboxConfig (workspacePath cfg) fileAccess codeExecution
          (enableBashCommands cfg) (allowedCommands cfg) (timeout cfg))
       i ris es msg vars s
     = on_message context cfg i ris es msg vars s).
Proof.
  intros Htype Hnot. split.
  - destruct vars as [agentMessages finalResult].
    assert (Hnone : command_to_filter msg = None).
    { destruct (command_to_filter msg) as [command |] eqn:E; [| reflexivity].
      exfalso. apply Hnot. apply command_to_filter_Some in E as [Hs Hc]. eauto. }
    eexists _, _. intros cfg. rewrite on_message_tool_use by exact Htype.
    rewrite Hnone. reflexivity.
  - intros cfg fileAccess codeExecution.
    rewrite on_message_ignores_capability_flags. reflexivity.
Qed.


Lemma filter_only_for_shell_commands_witness :
  let msg := tool_use "execute_code" (VObj {[ js "code" := VStr (js "print(1)") ]}) in
  is_str (get msg (js "type")) (js "tool_use") = true /\
  ~ (is_shell_tool msg /\ exists command, carries_command msg command) /\
  exists vars' s',
    forall cfg,
      on_message (sample_host false) cfg 0 true true msg ([], VStr []) initial_state
      = (Normal vars', s').
Proof.
  intros msg.
  assert (Htype : is_str (get msg (js "type")) (js "tool_use") = true)
    by (vm_compute; reflexivity).
  assert (Hnot : ~ (is_shell_tool msg /\ exists command, carries_command msg command)).
  { intros [[H | H] _]; vm_compute in H; discriminate H. }
  split; [exact Htype |]. split; [exact Hnot |].
  exact (proj1 (filter_only_for_shell_commands (sample_host false) 0 true true msg
                  ([], VStr []) initial_state Htype Hnot)).
Defined.

(** A shell invocation goes unfiltered when [command] holds a truthy value
    that is not a string, even next to a string under [cmd], and when the
    command is the empty string; a file tool is not filtered whatever its
    input holds. *)
Example unfiltered_invocations :
  map command_to_filter
    [ tool_use "bash" (VObj {[ js "command" := VNum 5; js "cmd" := VStr (js "sudo ls") ]});
      tool_use "bash" (VObj {[ js "command" := VStr [] ]});
      tool_use "bash" VUndefined;
      tool_use "write_file" (VObj {[ js "command" := VStr (js "sudo ls") ]});
      tool_use "execute_command" (VObj {[ js "cmd" := VStr (js "sudo ls") ]}) ]
  = [None; None; None; None; Some (js "sudo ls")].
Proof. vm_compute. reflexivity. Qed.

End Supervisor.

Module ResolveFacts.

Import NodePath Observations PathFacts.

Lemma startsWith_nil (s : jsstring) : startsWith s [] = true.
Proof. destruct s; reflexivity. Qed.

Lemma startsWith_app (p rest : jsstring) : startsWith (p ++ rest) p = true.
Proof.
  induction p as [|x p IH]; [apply startsWith_nil |].
  cbn [app startsWith]. rewrite N.eqb_refl, IH. reflexivity.
Qed.

Lemma split_char_no_sep_out (s cur : jsstring) :
  slash ∉ cur -> Forall (fun seg => slash ∉ seg) (split_char slash cur s).
Proof.
  revert cur. induction s as [|c s IH]; intros cur Hcur; cbn [split_char].
  - constructor; [assumption | constructor].
  - destruct (N.eqb_spec c slash) as [-> | Hc].
    + constructor; [assumption |]. apply IH. apply not_elem_of_nil.
    + apply IH. intros Hin. apply elem_of_app in Hin as [Hin | Hin]; [auto |].
      apply list_elem_of_singleton in Hin. congruence.
Qed.

(** [split_char] undoes [join] on segments without a separator, empty
    ones included. *)
Lemma split_char_join_any (segs : list jsstring) :
  segs <> [] -> Forall (fun seg => slash ∉ seg) segs ->
  split_char slash [] (join [slash] segs) = segs.
Proof.
  induction segs as [|seg segs IH]; intros Hne Hno; [congruence |].
  inversion Hno as [| ? ? Hseg Hrest]; subst.
  destruct segs as [|seg' segs].
  - cbn [join]. apply split_char_no_sep. assumption.
  - change (join [slash] (seg :: seg' :: segs))
      with (seg ++ slash :: join [slash] (seg' :: segs)).
    rewrite split_char_sep by assumption. rewrite IH by (congruence || assumption).
    reflexivity.
Qed.

Lemma join_app_any (a b : list jsstring) :
  a <> [] -> b <> [] ->
  join [slash] (a ++ b) = join [slash] a ++ slash :: join [slash] b.
Proof. apply join_app. Qed.

(** What [normalize_segments] keeps at the root: the segments already
    kept are plain, and so is what it adds. *)
Lemma normalize_segments_root_plain (segs acc : list jsstring) :
  Forall (fun seg => slash ∉ seg) segs -> Forall plain acc ->
  Forall plain (normalize_segments false acc segs).
Proof.
  revert acc. induction segs as [|seg segs IH]; intros acc Hsegs Hacc;
    cbn [normalize_segments].
  - apply Forall_rev. assumption.
  - inversion Hsegs as [| ? ? Hseg Hrest]; subst.
    unfold jsstring_eqb.
    destruct (decide (seg = [])) as [-> | Hne].
    { rewrite bool_decide_eq_true_2 by reflexivity. cbn [orb]. apply IH; assumption. }
    rewrite (bool_decide_eq_false_2 (seg = [])) by assumption.
    destruct (decide (seg = js ".")) as [-> | Hdot].
    { rewrite bool_decide_eq_true_2 by reflexivity. cbn [orb]. apply IH; assumption. }
    rewrite (bool_decide_eq_false_2 (seg = js ".")) by assumption. cbn [orb].
    destruct (decide (seg = dotdot)) as [-> | Hdd].
    { rewrite bool_decide_eq_true_2 by reflexivity.
      destruct acc as [|prev acc']; [apply IH; [assumption | constructor] |].
      inversion Hacc as [| ? ? Hprev Hacc']; subst.
      case_bool_decide; apply IH; assumption. }
    rewrite (bool_decide_eq_false_2 (seg = dotdot)) by assumption.
    apply IH; [assumption |]. constructor; [| assumption].
    repeat split; assumption.
Qed.

(** Plain and empty segments only: the empty ones go, the others stay. *)
Lemma normalize_segments_plain_or_empty (b : bool) (segs acc : list jsstring) :
  Forall (fun seg => seg = [] \/ plain seg) segs ->
  normalize_segments b acc segs = rev acc ++ filter (fun seg => seg <> []) segs.
Proof.
  revert acc. induction segs as [|seg segs IH]; intros acc Hsegs; cbn [normalize_segments].
  - rewrite filter_nil, app_nil_r. reflexivity.
  - inversion Hsegs as [| ? ? Hseg Hrest]; subst. unfold jsstring_eqb.
    destruct Hseg as [-> | (Hne & Hdot & Hdd & _)].
    + rewrite bool_decide_eq_true_2 by reflexivity. cbn [orb].
      rewrite filter_cons_False by (intros H; apply H; reflexivity).
      apply IH. assumption.
    + rewrite !bool_decide_eq_false_2 by assumption. cbn [orb].
      rewrite filter_cons_True by assumption.
      rewrite IH by assumption. cbn [rev]. rewrite <- app_assoc. reflexivity.
Qed.

Lemma filter_nonempty_plain (segs : list jsstring) :
  Forall plain segs -> filter (fun seg : jsstring => seg <> []) segs = segs.
Proof.
  induction 1 as [| seg rest (Hseg & _) _ IH]; [reflexivity |].
  rewrite filter_cons_True by exact Hseg. rewrite IH. reflexivity.
Qed.

(** The string [/a/b/] normalizes, from the root, to the segments [a],
    [b]; more segments may follow the plain ones as long as they are plain
    or empty. *)
Lemma normalizeString_rooted (segs : list jsstring) :
  segs <> [] -> Forall (fun seg => seg = [] \/ plain seg) segs ->
  normalizeString (slash :: join [slash] segs) false
  = join [slash] (filter (fun seg => seg <> []) segs).
Proof.
  intros Hne Hsegs. unfold normalizeString. cbn [split_char]. rewrite N.eqb_refl.
  rewrite split_char_join_any; [| assumption |].
  - rewrite (normalize_segments_plain_or_empty false ([] :: segs) [])
      by (constructor; [left; reflexivity | assumption]).
    rewrite filter_cons_False by (intros H; apply H; reflexivity). reflexivity.
  - eapply Forall_impl; [exact Hsegs |]. intros seg [-> | (_ & _ & _ & H)];
      [apply not_elem_of_nil | exact H].
Qed.

Lemma plain_not_absolute (seg : jsstring) : plain seg -> isAbsolute seg = false.
Proof.
  intros (Hne & _ & _ & Hno). destruct seg as [|c seg]; [congruence |].
  unfold isAbsolute. cbn [startsWith].
  rewrite (proj2 (N.eqb_neq slash c)); [reflexivity |].
  intros <-. apply Hno. left.
Qed.

Lemma isAbsolute_cons (x : jsstring) : isAbsolute (slash :: x) = true.
Proof. unfold isAbsolute. cbn [startsWith]. rewrite N.eqb_refl. destruct x; reflexivity. Qed.

Lemma resolve_scan_cons (p : jsstring) (rest : list jsstring) (acc : jsstring) :
  p <> [] ->
  resolve_scan (p :: rest) acc
  = if isAbsolute p then (p ++ [slash] ++ acc, true)
    else resolve_scan rest (p ++ [slash] ++ acc).
Proof. intros Hne. destruct p; [congruence | reflexivity]. Qed.

(** [resolve] of a normalized directory and a name below it. *)
Lemma resolve_child (process_cwd : jsstring) (base : list jsstring) (name : jsstring) :
  base <> [] -> Forall plain base -> plain name ->
  resolve process_cwd [slash :: join [slash] base; name]
  = slash :: join [slash] (base ++ [name]).
Proof.
  intros Hne Hbase Hname. unfold resolve. cbn [rev app].
  rewrite resolve_scan_cons by (destruct Hname; assumption).
  rewrite (plain_not_absolute name Hname).
  rewrite resolve_scan_cons by discriminate.
  rewrite isAbsolute_cons. cbn [negb].
  assert (E : (slash :: join [slash] base) ++ [slash] ++ name ++ [slash] ++ []
              = slash :: join [slash] (base ++ [name; []])).
  { rewrite join_app by (assumption || discriminate). cbn [join app].
    rewrite <- ?app_assoc. reflexivity. }
  rewrite E.
  rewrite normalizeString_rooted.
  - rewrite filter_app, filter_nonempty_plain by assumption.
    rewrite filter_cons_True by (destruct Hname; assumption).
    rewrite filter_cons_False by (intros H; apply H; reflexivity).
    reflexivity.
  - destruct base; discriminate.
  - apply Forall_app. split.
    + eapply Forall_impl; [exact Hbase |]. intros; right; assumption.
    + constructor; [right; assumption |]. constructor; [left; reflexivity | constructor].
Qed.

(** With an absolute working directory, [resolve] of one path is a slash
    followed by plain segments joined by slashes. *)
Lemma resolve_shape (process_cwd x : jsstring) :
  isAbsolute process_cwd = true ->
  exists segs, Forall plain segs /\ resolve process_cwd [x] = slash :: join [slash] segs.
Proof.
  intros Hcwd.
  assert (Hne : process_cwd <> []) by (intros ->; discriminate Hcwd).
  assert (Hscan : exists rp, resolve_scan [x; process_cwd] [] = (rp, true)).
  { destruct x as [|c x].
    - change (resolve_scan [[]; process_cwd] []) with (resolve_scan [process_cwd] []).
      rewrite resolve_scan_cons by assumption. rewrite Hcwd. eauto.
    - rewrite resolve_scan_cons by discriminate.
      destruct (isAbsolute (c :: x)); [eauto |].
      rewrite resolve_scan_cons by assumption. rewrite Hcwd. eauto. }
  destruct Hscan as (rp & Hscan). unfold resolve. cbn [rev app]. rewrite Hscan.
  cbn [negb]. unfold normalizeString. eexists. split; [| reflexivity].
  apply normalize_segments_root_plain; [| constructor].
  apply split_char_no_sep_out. apply not_elem_of_nil.
Qed.

(** A resolved path resolves to itself. *)
Lemma resolve_resolved (process_cwd : jsstring) (segs : list jsstring) :
  Forall plain segs ->
  resolve process_cwd [slash :: join [slash] segs] = slash :: join [slash] segs.
Proof.
  intros Hsegs. unfold resolve. cbn [rev app].
  rewrite resolve_scan_cons by discriminate. rewrite isAbsolute_cons. cbn [negb].
  destruct segs as [|seg segs]; [reflexivity |].
  assert (E : (slash :: join [slash] (seg :: segs)) ++ [slash] ++ []
              = slash :: join [slash] ((seg :: segs) ++ [[]])).
  { rewrite join_app by discriminate. reflexivity. }
  rewrite E. rewrite normalizeString_rooted.
  - rewrite filter_app, filter_nonempty_plain by assumption.
    rewrite filter_cons_False by (intros H; apply H; reflexivity).
    rewrite filter_nil, app_nil_r. reflexivity.
  - discriminate.
  - apply Forall_app. split.
    + eapply Forall_impl; [exact Hsegs |]. intros; right; assumption.
    + constructor; [left; reflexivity | constructor].
Qed.

Lemma segments_resolved (segs : list jsstring) :
  Forall plain segs -> segments (slash :: join [slash] segs) = segs.
Proof.
  intros Hsegs. destruct segs as [|seg segs]; [reflexivity |].
  apply segments_plain; [discriminate | assumption].
Qed.

Lemma common_prefix_length_le (f t : list jsstring) :
  common_prefix_length f t <= length f.
Proof.
  revert t. induction f as [|x f IH]; intros t; [destruct t; cbn; lia |].
  destruct t as [|y t]; cbn [common_prefix_length length]; [lia |].
  destruct (jsstring_eqb x y); [specialize (IH t) |]; lia.
Qed.

Lemma common_prefix_length_full (f t : list jsstring) :
  common_prefix_length f t = length f <-> f `prefix_of` t.
Proof.
  revert t. induction f as [|x f IH]; intros t.
  - split; [intros _; apply prefix_nil | destruct t; reflexivity].
  - destruct t as [|y t]; cbn [common_prefix_length length].
    + split; [discriminate | intros H; apply prefix_nil_not in H; contradiction].
    + unfold jsstring_eqb. case_bool_decide as Exy.
      * subst y. split.
        -- intros H. apply prefix_cons, IH. lia.
        -- intros H. apply prefix_cons_inv_2, IH in H. lia.
      * split; [discriminate |]. intros H. apply prefix_cons_inv_1 in H. contradiction.
Qed.

Lemma startsWith_join_dotdot (l : list jsstring) :
  startsWith (join [slash] (dotdot :: l)) dotdot = true.
Proof.
  destruct l as [|y l].
  - reflexivity.
  - change (join [slash] (dotdot :: y :: l))
      with (dotdot ++ slash :: join [slash] (y :: l)).
    apply startsWith_app.
Qed.


Lemma startsWith_join_first (first : jsstring) (more : list jsstring) :
  plain first ->
  startsWith (join [slash] (first :: more)) dotdot = startsWith first dotdot.
Proof.
  intros (Hne & Hdot & _ & _).
  destruct more as [|y more]; [reflexivity |].
  change (join [slash] (first :: y :: more))
    with (first ++ slash :: join [slash] (y :: more)).
  generalize (join [slash] (y :: more)). intros rest.
  destruct first as [|c1 [|c2 first]]; [congruence | |].
  - cbn [app startsWith dotdot js map list_ascii_of_string].
    destruct (N.eqb_spec (N_of_ascii ".") c1) as [E | E]; [| reflexivity].
    exfalso. apply Hdot. rewrite <- E. reflexivity.
  - cbn [app startsWith dotdot js map list_ascii_of_string].
    rewrite !startsWith_nil. reflexivity.
Qed.

Lemma isAbsolute_head (c : N) (r : jsstring) : isAbsolute (c :: r) = N.eqb slash c.
Proof.
  unfold isAbsolute. cbn [startsWith]. rewrite startsWith_nil. apply andb_true_r.
Qed.

Lemma common_prefix_length_app (f t : list jsstring) :
  common_prefix_length f (f ++ t) = length f.
Proof. apply common_prefix_length_full. apply prefix_app_r. reflexivity. Qed.

(** [resolve] of a relative path made of plain segments, from a working
    directory that is a normalized absolute path. *)
Lemma resolve_relative_plain (base segs : list jsstring) :
  base <> [] -> Forall plain base -> segs <> [] -> Forall plain segs ->
  resolve (slash :: join [slash] base) [join [slash] segs]
  = slash :: join [slash] (base ++ segs).
Proof.
  intros Hb Hbase Hs Hsegs. unfold resolve. cbn [rev app].
  assert (Hne : join [slash] segs <> []).
  { destruct segs as [|x [|y segs]]; [congruence | |].
    - inversion Hsegs as [| ? ? (H & _) _]. exact H.
    - inversion Hsegs as [| ? ? (H & _) _]. cbn [join]. destruct x; [congruence | discriminate]. }
  assert (Hrel : isAbsolute (join [slash] segs) = false).
  { destruct segs as [|x segs]; [congruence |].
    inversion Hsegs as [| ? ? Hx _]; subst.
    pose proof (plain_not_absolute x Hx) as Hx'. destruct Hx as (Hxne & _).
    destruct x as [|c x]; [congruence |].
    rewrite isAbsolute_head in Hx'.
    destruct segs; cbn [join app]; rewrite isAbsolute_head; exact Hx'. }
  rewrite resolve_scan_cons by assumption. rewrite Hrel.
  rewrite resolve_scan_cons by discriminate. rewrite isAbsolute_cons. cbn [negb].
  assert (E : (slash :: join [slash] base) ++ [slash] ++ join [slash] segs ++ [slash] ++ []
              = slash :: join [slash] (base ++ segs ++ [[]])).
  { rewrite join_app by (assumption || (destruct segs; discriminate)).
    rewrite join_app by (assumption || discriminate).
    rewrite <- ?app_assoc. reflexivity. }
  rewrite E, normalizeString_rooted.
  - rewrite !filter_app, !filter_nonempty_plain by assumption.
    rewrite filter_cons_False by (intros H; apply H; reflexivity).
    rewrite filter_nil, app_nil_r. reflexivity.
  - destruct base; [congruence | discriminate].
  - repeat (apply Forall_app; split).
    + eapply Forall_impl; [exact Hbase |]. intros; right; assumption.
    + eapply Forall_impl; [exact Hsegs |]. intros; right; assumption.
    + constructor; [left; reflexivity | constructor].
Qed.

(** A leading [first/..] cancels out. *)
Lemma resolve_climb (process_cwd first : jsstring) (target : list jsstring) (name : jsstring) :
  plain first -> target <> [] -> Forall plain target -> plain name ->
  resolve process_cwd [slash :: join [slash] (first :: dotdot :: target); name]
  = slash :: join [slash] (target ++ [name]).
Proof.
  intros Hfirst Hne Htarget Hname. unfold resolve. cbn [rev app].
  rewrite resolve_scan_cons by (destruct Hname; assumption).
  rewrite (plain_not_absolute name Hname).
  rewrite resolve_scan_cons by discriminate. rewrite isAbsolute_cons. cbn [negb].
  assert (E : (slash :: join [slash] (first :: dotdot :: target)) ++ [slash] ++ name ++ [slash] ++ []
              = slash :: join [slash] ((first :: dotdot :: target) ++ [name; []])).
  { rewrite (join_app (first :: dotdot :: target)) by discriminate.
    change (join [slash] [name; []]) with (name ++ [slash]).
    generalize (join [slash] (first :: dotdot :: target)). intros J.
    cbn [app]. reflexivity. }
  rewrite E. unfold normalizeString. cbn [split_char]. rewrite N.eqb_refl.
  assert (Hplain_no : forall seg, plain seg -> slash ∉ seg) by (intros seg (_ & _ & _ & H); exact H).
  rewrite split_char_join_any.
  - cbn [app normalize_segments]. unfold jsstring_eqb.
    destruct Hfirst as (F1 & F2 & F3 & F4).
    rewrite (bool_decide_eq_true_2 ([] = [])) by reflexivity. cbn [orb].
    rewrite (bool_decide_eq_false_2 (first = [])) by assumption.
    rewrite (bool_decide_eq_false_2 (first = js ".")) by assumption. cbn [orb].
    rewrite (bool_decide_eq_false_2 (first = dotdot)) by assumption.
    rewrite (bool_decide_eq_false_2 (dotdot = [])) by discriminate.
    rewrite (bool_decide_eq_false_2 (dotdot = js ".")) by discriminate. cbn [orb].
    rewrite (bool_decide_eq_true_2 (dotdot = dotdot)) by reflexivity.
    rewrite (normalize_segments_plain_or_empty false (target ++ [name; []]) []).
    + rewrite filter_app, filter_nonempty_plain by assumption.
      rewrite filter_cons_True by (destruct Hname; assumption).
      rewrite filter_cons_False by (intros H; apply H; reflexivity).
      reflexivity.
    + apply Forall_app. split.
      * eapply Forall_impl; [exact Htarget |]. intros; right; assumption.
      * constructor; [right; assumption |]. constructor; [left; reflexivity | constructor].
  - discriminate.
  - cbn [app]. constructor; [apply Hplain_no; assumption |].
    constructor.
    { intros Hin. repeat (apply elem_of_cons in Hin as [Hin | Hin]; [discriminate Hin |]).
      inversion Hin. }
    apply Forall_app. split.
    + eapply Forall_impl; [exact Htarget |]. exact Hplain_no.
    + constructor; [apply Hplain_no; assumption |].
      constructor; [apply not_elem_of_nil | constructor].
Qed.

Lemma agent_dir_plain (bytes : list N) : plain (js "claude-agent-" ++ to_hex bytes).
Proof.
  repeat split; try discriminate.
  intros Hin. apply elem_of_app in Hin as [Hin | Hin].
  - repeat (apply elem_of_cons in Hin as [Hin | Hin]; [discriminate Hin |]). inversion Hin.
  - pose proof (to_hex_chars bytes) as Hc.
    apply (proj1 (Forall_forall _ _) Hc) in Hin. destruct Hin as [H _]. apply H. reflexivity.
Qed.

End ResolveFacts.

(* ===================================================================== *)
(** * The workspace manager *)
(* ===================================================================== *)

Section Workspace.

Import Common Execute Observations Stability ResolveFacts.

(** X1: a custom path that is not empty and does not begin with a slash
    is refused before anything is done: no directory is made, nothing is
    logged, the state is as it was. *)
Theorem relative_custom_path_refused
    (context : Host) (customPath : jsstring) (s : State) :
  customPath <> [] ->
  NodePath.isAbsolute customPath = false ->
  createSandboxedWorkspace context (Some customPath) s
  = (Thrown (NodeOperationError (js "Workspace path must be an absolute path") None), s).
Proof.
  intros Hne Hrel. unfold createSandboxedWorkspace.
  destruct customPath as [|c rest]; [congruence |].
  cbn [truthy from_option default id].
  change (startsWith (c :: rest) (js "/")) with (NodePath.isAbsolute (c :: rest)).
  rewrite Hrel. reflexivity.
Qed.

Lemma relative_custom_path_refused_witness :
  createSandboxedWorkspace (sample_host false) (Some (js "work/dir")) initial_state
  = (Thrown (NodeOperationError (js "Workspace path must be an absolute path") None),
     initial_state).
Proof.
  apply (relative_custom_path_refused (sample_host false) (js "work/dir") initial_state).
  - discriminate.
  - reflexivity.
Defined.

(** X2: a custom path that begins, as a string, with one of the six
    sensitive directories is refused before anything is done, whatever
    follows the prefix ([/etcetera] is refused like [/etc/x]). *)
Theorem denied_custom_path_refused
    (context : Host) (denied rest : jsstring) (s : State) :
  In denied deniedPaths ->
  createSandboxedWorkspace context (Some (denied ++ rest)) s
  = (Thrown (NodeOperationError
               (js "Workspace path cannot be in sensitive system directories: /etc, /root, /sys, /proc, /dev, /boot")
               None), s).
Proof.
  intros Hin. unfold createSandboxedWorkspace.
  assert (Hcons : exists tail, denied = NodePath.slash :: tail).
  { cbn [deniedPaths In] in Hin.
    repeat (destruct Hin as [<- | Hin]; [eexists; reflexivity |]). contradiction. }
  destruct Hcons as (tail & ->).
  cbn [app truthy from_option default id].
  assert (Habs : startsWith (NodePath.slash :: tail ++ rest) (js "/") = true).
  { cbn [js map list_ascii_of_string startsWith]. rewrite startsWith_nil.
    reflexivity. }
  rewrite Habs. cbn [negb].
  assert (Hex : existsb (fun d => startsWith (NodePath.slash :: tail ++ rest) d) deniedPaths
                = true).
  { apply existsb_exists. exists (NodePath.slash :: tail). split; [exact Hin |].
    apply (startsWith_app (NodePath.slash :: tail) rest). }
  rewrite Hex. reflexivity.
Qed.

Lemma denied_custom_path_refused_witness :
  js "/etc" ++ js "etera" = js "/etcetera" /\
  createSandboxedWorkspace (sample_host false) (Some (js "/etc" ++ js "etera")) initial_state
  = (Thrown (NodeOperationError
               (js "Workspace path cannot be in sensitive system directories: /etc, /root, /sys, /proc, /dev, /boot")
               None), initial_state).
Proof.
  split; [reflexivity |].
  apply (denied_custom_path_refused (sample_host false) (js "/etc") (js "etera") initial_state).
  cbn [deniedPaths In]. left. reflexivity.
Defined.

End Workspace.

Section WorkspaceLifecycle.

Import Common Execute Observations Stability PathFacts ResolveFacts.

(** What the call does once the workspace path is chosen: one [mkdir];
    then the log line and the context, or the error of [mkdir]. *)
Lemma createSandboxedWorkspace_custom (context : Host) (customPath : jsstring) (s : State) :
  customPath <> [] ->
  NodePath.isAbsolute customPath = true ->
  existsb (fun denied => startsWith customPath denied) deniedPaths = false ->
  let p := NodePath.resolve (cwd context)
             [customPath; js "claude-agent-" ++ to_hex (randomBytes context 8)] in
  createSandboxedWorkspace context (Some customPath) s
  = match mkdir context p with
    | Some e => (Thrown e, mkState (process_env s) (trace s ++ [EMkdir p]))
    | None =>
        (Normal (mkWorkspaceContext p (default (js "unknown") (getWorkflow_id context))
                   (getExecutionId context) (clock context (length (trace s) + 2))),
         mkState (process_env s)
           (trace s ++
            [EMkdir p;
             ELog Info (js "Created sandboxed workspace")
               {[ js "workspacePath" := VStr p;
                  js "workflowId" := VStr (default (js "unknown") (getWorkflow_id context));
                  js "executionId" := VStr (getExecutionId context) ]}]))
    end.
Proof.
  intros Hne Habs Hden p. unfold createSandboxedWorkspace.
  assert (Ht : truthy (from_option VStr VUndefined (Some customPath)) = true)
    by (destruct customPath; [congruence | reflexivity]).
  rewrite Ht. cbn [default from_option id].
  change (startsWith customPath (js "/")) with (NodePath.isAbsolute customPath).
  rewrite Habs, Hden. cbn [negb]. fold p.
  unfold bind at 1. cbn [ret]. unfold bind at 1. unfold emit at 1.
  unfold bind at 1. unfold host_result.
  destruct (mkdir context p) as [e |]; cbn [throw ret]; [reflexivity |].
  unfold bind, logger, emit, now, ret. cbn [trace process_env].
  rewrite <- app_assoc, !length_app. cbn [length app].
  replace (length (trace s) + 1 + 1) with (length (trace s) + 2) by lia.
  reflexivity.
Qed.

(** X3: a custom path that is a normalized absolute path outside the
    sensitive directories gets the workspace
    [<custom path>/claude-agent-<hex suffix>]: that directory is the one
    passed to [mkdir] and the one returned. *)
Theorem custom_path_workspace
    (context : Host) (base : list jsstring) (s : State) :
  base <> [] -> Forall plain base ->
  existsb (fun denied => startsWith (NodePath.slash :: join [NodePath.slash] base) denied)
    deniedPaths = false ->
  mkdir context
    (NodePath.slash :: join [NodePath.slash] base
     ++ js "/claude-agent-" ++ to_hex (randomBytes context 8)) = None ->
  exists workspace s',
    createSandboxedWorkspace context (Some (NodePath.slash :: join [NodePath.slash] base)) s
    = (Normal workspace, s') /\
    path workspace
    = NodePath.slash :: join [NodePath.slash] base
      ++ js "/claude-agent-" ++ to_hex (randomBytes context 8) /\
    fs_calls (new_events s s') = [EMkdir (path workspace)].
Proof.
  intros Hne Hbase Hden Hmk.
  rewrite createSandboxedWorkspace_custom; [| discriminate | apply isAbsolute_cons | exact Hden].
  cbv zeta.
  rewrite resolve_child by (assumption || apply agent_dir_plain).
  assert (E : NodePath.slash
              :: join [NodePath.slash] (base ++ [js "claude-agent-" ++ to_hex (randomBytes context 8)])
              = NodePath.slash :: join [NodePath.slash] base
                ++ js "/claude-agent-" ++ to_hex (randomBytes context 8)).
  { rewrite join_app by (assumption || discriminate). reflexivity. }
  rewrite E, Hmk. eexists _, _. split; [reflexivity |]. split; [reflexivity |].
  erewrite new_events_app by (cbn [trace]; reflexivity). reflexivity.
Qed.

#[local] Instance plain_dec (seg : jsstring) : Decision (plain seg).
Proof. unfold plain. apply _. Defined.

Lemma custom_path_workspace_witness :
  exists workspace s',
    createSandboxedWorkspace (sample_host false) (Some (js "/srv/agents")) initial_state
    = (Normal workspace, s') /\
    path workspace = js "/srv/agents/claude-agent-abababababababab" /\
    fs_calls (new_events initial_state s') = [EMkdir (path workspace)].
Proof.
  apply (custom_path_workspace (sample_host false) [js "srv"; js "agents"] initial_state).
  - discriminate.
  - apply (bool_decide_unpack _). vm_compute. reflexivity.
  - vm_compute. reflexivity.
  - reflexivity.
Defined.

(** X4: the sensitive directories are matched against the custom path as
    it is written, before it is resolved. A path that enters a plain
    directory and climbs back out with [..] into a sensitive directory is
    accepted, and the workspace is created inside the sensitive
    directory. *)
Theorem climbing_custom_path_reaches_denied
    (context : Host) (first denied : jsstring) (s : State) :
  In denied deniedPaths ->
  plain first ->
  existsb (fun d => startsWith (NodePath.slash :: first ++ js "/.." ++ denied) d) deniedPaths
  = false ->
  mkdir context (denied ++ js "/claude-agent-" ++ to_hex (randomBytes context 8)) = None ->
  exists workspace s',
    createSandboxedWorkspace context (Some (NodePath.slash :: first ++ js "/.." ++ denied)) s
    = (Normal workspace, s') /\
    path workspace = denied ++ js "/claude-agent-" ++ to_hex (randomBytes context 8).
Proof.
  intros Hin Hfirst Hden Hmk.
  assert (Hd : exists dn, plain dn /\ denied = NodePath.slash :: dn).
  { cbn [deniedPaths In] in Hin.
    repeat (destruct Hin as [<- | Hin];
            [eexists; split; [| reflexivity];
             apply (bool_decide_unpack _); vm_compute; reflexivity |]).
    contradiction. }
  destruct Hd as (dn & Hdn & ->).
  assert (Ecustom : NodePath.slash :: first ++ js "/.." ++ NodePath.slash :: dn
                    = NodePath.slash
                      :: join [NodePath.slash] [first; NodePath.dotdot; dn])
    by reflexivity.
  rewrite Ecustom in *.
  rewrite createSandboxedWorkspace_custom; [| discriminate | apply isAbsolute_cons | exact Hden].
  cbv zeta.
  rewrite (resolve_climb (cwd context) first [dn])
    by (first [assumption | discriminate | apply agent_dir_plain
              | constructor; [assumption | constructor]]).
  assert (E : NodePath.slash
              :: join [NodePath.slash]
                   ([dn] ++ [js "claude-agent-" ++ to_hex (randomBytes context 8)])
              = (NodePath.slash :: dn) ++ js "/claude-agent-"
                ++ to_hex (randomBytes context 8))
    by (cbn [app join]; rewrite <- ?app_assoc; reflexivity).
  rewrite E, Hmk. eexists _, _. split; reflexivity.
Qed.

Lemma climbing_custom_path_reaches_denied_witness :
  exists workspace s',
    createSandboxedWorkspace (sample_host false) (Some (js "/tmp/../etc")) initial_state
    = (Normal workspace, s') /\
    path workspace = js "/etc/claude-agent-abababababababab".
Proof.
  apply (climbing_custom_path_reaches_denied (sample_host false) (js "tmp") (js "/etc")
           initial_state).
  - cbn [deniedPaths In]. left. reflexivity.
  - apply (bool_decide_unpack _). vm_compute. reflexivity.
  - vm_compute. reflexivity.
  - reflexivity.
Defined.

(** X5: teardown never throws. It calls [rm] once on the workspace path
    and writes one line: information when [rm] succeeded, a warning with
    the message of the error when it failed; [process.env] is not touched.
    A second teardown of the same workspace behaves the same way. *)
Theorem cleanup_never_throws (context : Host) (workspace : WorkspaceContext) (s : State) :
  let line :=
    match rm context (path workspace) with
    | None =>
        ELog Info (js "Cleaned up sandboxed workspace")
          {[ js "workspacePath" := VStr (path workspace) ]}
    | Some e =>
        ELog Warn (js "Failed to cleanup workspace")
          {[ js "workspacePath" := VStr (path workspace);
             js "error" := VStr (error_message (NodeError_message context) e) ]}
    end in
  cleanupSandboxedWorkspace context workspace s
  = (Normal tt, mkState (process_env s) (trace s ++ [ERm (path workspace); line])) /\
  (cleanupSandboxedWorkspace context workspace ;;
   cleanupSandboxedWorkspace context workspace) s
  = (Normal tt,
     mkState (process_env s)
       (trace s ++ [ERm (path workspace); line; ERm (path workspace); line])).
Proof.
  intros line.
  assert (H1 : forall s0, cleanupSandboxedWorkspace context workspace s0
               = (Normal tt,
                  mkState (process_env s0) (trace s0 ++ [ERm (path workspace); line]))).
  { intros s0. subst line.
    unfold cleanupSandboxedWorkspace, try_catch, bind, emit, logger, host_result.
    destruct (rm context (path workspace)) as [e |];
      cbn [throw ret]; unfold emit; cbn [trace process_env];
      rewrite <- app_assoc; reflexivity. }
  split; [apply H1 |].
  unfold bind. rewrite H1, H1. cbn [trace process_env]. rewrite <- app_assoc. reflexivity.
Qed.

(** X6: when the workspace cannot be created (the custom path is refused
    or [mkdir] fails) the batch throws that error at once: no item is
    looked at, nothing is removed, and after the initialization line the
    trace holds at most the failed [mkdir]. *)
Theorem creation_failure_ends_batch
    (context : Host) (options : Options) (items : list Item) (s s1 : State) (e : error) :
  batch_setup context options s = (Thrown e, s1) ->
  claudeCodeAgentExecute context options items s = (Thrown e, s1) /\
  process_env s1 = process_env s /\
  exists init_line,
    is_fs_call init_line = false /\
    (new_events s s1 = [init_line] \/ exists p, new_events s s1 = [init_line; EMkdir p]).
Proof.
  intros Hsetup. split.
  { rewrite claudeCodeAgentExecute_after_setup. unfold bind at 1. rewrite Hsetup. reflexivity. }
  exact (batch_setup_failed _ _ _ _ _ Hsetup).
Qed.

Lemma creation_failure_ends_batch_witness :
  let options := mkOptions None None None None None None (Some (js "/etc/n8n")) None None None in
  let items := [sample_item "hello" (mkStream [final_result "hi"] Completes) None] in
  exists e s1,
    batch_setup (sample_host true) options initial_state = (Thrown e, s1) /\
    claudeCodeAgentExecute (sample_host true) options items initial_state = (Thrown e, s1) /\
    length (new_events initial_state s1) = 1.
Proof.
  intros options items.
  destruct (batch_setup (sample_host true) options initial_state) as [r s1] eqn:Hsetup.
  assert (Hr : exists e, r = Thrown e).
  { assert (H : (batch_setup (sample_host true) options initial_state).1 = r)
      by (rewrite Hsetup; reflexivity).
    vm_compute in H. subst r. eauto. }
  destruct Hr as (e & ->). exists e, s1. split; [reflexivity |].
  destruct (creation_failure_ends_batch (sample_host true) options items initial_state s1 e
              Hsetup) as (Hrun & _ & _).
  split; [exact Hrun |].
  assert (H : (batch_setup (sample_host true) options initial_state).2 = s1)
    by (rewrite Hsetup; reflexivity).
  rewrite <- H. vm_compute. reflexivity.
Defined.

End WorkspaceLifecycle.

(* ===================================================================== *)
(** * The path check *)
(* ===================================================================== *)

Section PathPolicy.

Import Common Execute Observations Stability PathFacts ResolveFacts.

(** X7: in a process whose working directory is an absolute path, a
    candidate the check accepts resolves to the workspace directory or to
    a location below it. *)
Theorem validatePath_sound (process_cwd filePath workspacePath : jsstring) :
  NodePath.isAbsolute process_cwd = true ->
  validatePath process_cwd filePath workspacePath = true ->
  canonically_within process_cwd filePath workspacePath = true.
Proof.
  intros Hcwd Hv.
  destruct (resolve_shape process_cwd workspacePath Hcwd) as (f & Hf & Ef).
  destruct (resolve_shape process_cwd filePath Hcwd) as (t & Ht & Et).
  unfold canonically_within. rewrite Ef, Et, !segments_resolved by assumption.
  apply bool_decide_eq_true_2.
  unfold validatePath in Hv. apply andb_true_iff in Hv as [Hrel _].
  apply negb_true_iff in Hrel. rewrite Ef, Et in Hrel.
  unfold NodePath.relative in Hrel.
  rewrite !resolve_resolved, !segments_resolved in Hrel by assumption.
  apply common_prefix_length_full.
  pose proof (common_prefix_length_le f t) as Hle.
  destruct (length f - NodePath.common_prefix_length f t) as [|k] eqn:Ek; [lia |].
  cbn [repeat app] in Hrel. rewrite startsWith_join_dotdot in Hrel. discriminate.
Qed.

Lemma validatePath_sound_witness :
  validatePath (js "/ws") (js "src/../data/in.csv") (js "/ws") = true /\
  canonically_within (js "/ws") (js "src/../data/in.csv") (js "/ws") = true.
Proof.
  assert (H : validatePath (js "/ws") (js "src/../data/in.csv") (js "/ws") = true)
    by (vm_compute; reflexivity).
  split; [exact H |].
  apply (validatePath_sound (js "/ws") (js "src/../data/in.csv") (js "/ws")).
  - reflexivity.
  - exact H.
Defined.

(** X8: when the workspace is the working directory of the process, a
    relative candidate made of plain names is accepted, unless its first
    name begins with two dots: such a name is taken for a climb out of the
    workspace although it lies inside. *)
Theorem validatePath_plain_relative
    (base : list jsstring) (first : jsstring) (more : list jsstring) :
  base <> [] -> Forall plain base -> Forall plain (first :: more) ->
  validatePath (NodePath.slash :: join [NodePath.slash] base)
    (join [NodePath.slash] (first :: more))
    (NodePath.slash :: join [NodePath.slash] base)
  = negb (startsWith first NodePath.dotdot).
Proof.
  intros Hb Hbase Hsegs. unfold validatePath.
  rewrite resolve_relative_plain by (assumption || discriminate).
  rewrite (resolve_resolved _ base) by assumption.
  unfold NodePath.relative.
  rewrite (resolve_resolved _ base) by assumption.
  rewrite (resolve_resolved _ (base ++ first :: more))
    by (apply Forall_app; split; assumption).
  rewrite !segments_resolved by (try apply Forall_app; try split; assumption).
  rewrite common_prefix_length_app, Nat.sub_diag, drop_app_length. cbn [repeat app].
  inversion Hsegs as [| ? ? Hfirst _]; subst.
  rewrite startsWith_join_first by assumption.
  assert (Hrel : startsWith (join [NodePath.slash] (first :: more)) (js "/") = false).
  { destruct Hfirst as (Hne & _ & _ & Hno). destruct first as [|c first]; [congruence |].
    assert (Hc : N.eqb NodePath.slash c = false).
    { apply N.eqb_neq. intros <-. apply Hno. left. }
    change (startsWith (join [NodePath.slash] ((c :: first) :: more)) (js "/"))
      with (NodePath.isAbsolute (join [NodePath.slash] ((c :: first) :: more))).
    destruct more; cbn [join app]; rewrite isAbsolute_head; exact Hc. }
  rewrite Hrel. apply andb_true_r.
Qed.

Lemma validatePath_plain_relative_witness :
  validatePath (js "/ws") (js "data/in.csv") (js "/ws") = true /\
  validatePath (js "/ws") (js "..cache/in.csv") (js "/ws") = false.
Proof.
  assert (Hplain : forall x : string,
             (js x <> [] /\ js x <> js "." /\ js x <> NodePath.dotdot /\
              bool_decide (NodePath.slash ∈ js x) = false) -> plain (js x)).
  { intros x (H1 & H2 & H3 & H4). repeat split; try assumption.
    apply bool_decide_eq_false in H4. exact H4. }
  assert (Pws : plain (js "ws")) by (apply Hplain; repeat split; discriminate || reflexivity).
  assert (Pdata : plain (js "data")) by (apply Hplain; repeat split; discriminate || reflexivity).
  assert (Pcache : plain (js "..cache")) by (apply Hplain; repeat split; discriminate || reflexivity).
  assert (Pin : plain (js "in.csv")) by (apply Hplain; repeat split; discriminate || reflexivity).
  split.
  - apply (validatePath_plain_relative [js "ws"] (js "data") [js "in.csv"]).
    + discriminate.
    + constructor; [assumption | constructor].
    + constructor; [assumption |]. constructor; [assumption | constructor].
  - apply (validatePath_plain_relative [js "ws"] (js "..cache") [js "in.csv"]).
    + discriminate.
    + constructor; [assumption | constructor].
    + constructor; [assumption |]. constructor; [assumption | constructor].
Defined.

End PathPolicy.

(* ===================================================================== *)
(** * The command policy *)
(* ===================================================================== *)

Module StringFacts.

Lemma trimStart_blank_app (lead s : jsstring) :
  Forall (fun c => is_whitespace c = true) lead -> trimStart (lead ++ s) = trimStart s.
Proof.
  induction 1 as [| c lead Hc _ IH]; [reflexivity |].
  cbn [app trimStart]. rewrite Hc. exact IH.
Qed.

Lemma trimStart_blank (s : jsstring) :
  Forall (fun c => is_whitespace c = true) s -> trimStart s = [].
Proof.
  intros H. rewrite <- (app_nil_r s). rewrite trimStart_blank_app by assumption. reflexivity.
Qed.

Lemma trimStart_solid_head (c : N) (s : jsstring) :
  is_whitespace c = false -> trimStart (c :: s) = c :: s.
Proof. intros H. cbn [trimStart]. rewrite H. reflexivity. Qed.

(** [trimEnd] removes a blank tail behind a body that does not end in
    white space. *)
Lemma trimEnd_body (body tail : jsstring) :
  Forall (fun c => is_whitespace c = true) tail ->
  (body = [] \/ exists b c, body = b ++ [c] /\ is_whitespace c = false) ->
  trimEnd (body ++ tail) = body.
Proof.
  intros Htail Hbody. unfold trimEnd. rewrite rev_app_distr.
  rewrite trimStart_blank_app by (apply Forall_rev; assumption).
  destruct Hbody as [-> | (b & c & -> & Hc)]; [reflexivity |].
  rewrite rev_app_distr. cbn [rev app]. rewrite trimStart_solid_head by assumption.
  change (c :: rev b) with ([c] ++ rev b). rewrite rev_app_distr, rev_involutive.
  reflexivity.
Qed.

(** Every string is a body that does not end in white space, followed by
    a blank tail. *)
Lemma blank_tail_split (s : jsstring) :
  exists body tail,
    s = body ++ tail /\
    Forall (fun c => is_whitespace c = true) tail /\
    (body = [] \/ exists b c, body = b ++ [c] /\ is_whitespace c = false).
Proof.
  induction s as [|x s IH] using rev_ind.
  - exists [], []. repeat split; [constructor | left; reflexivity].
  - destruct (is_whitespace x) eqn:Ex.
    + destruct IH as (body & tail & -> & Htail & Hbody).
      exists body, (tail ++ [x]). rewrite app_assoc. repeat split; [| assumption].
      apply Forall_app. split; [assumption | constructor; [assumption | constructor]].
    + exists (s ++ [x]), []. rewrite app_nil_r. repeat split; [constructor |].
      right. eauto.
Qed.

Lemma split_ws_word (word rest cur : jsstring) :
  Forall (fun c => is_whitespace c = false) word ->
  (rest = [] \/ exists c r, rest = c :: r /\ is_whitespace c = true) ->
  exists more, split_ws false cur (word ++ rest) = (cur ++ word) :: more.
Proof.
  intros Hword Hrest. revert cur.
  induction Hword as [| c word Hc _ IH]; intros cur.
  - rewrite app_nil_r. cbn [app].
    destruct Hrest as [-> | (c & r & -> & Hc)].
    + exists []. reflexivity.
    + cbn [split_ws]. rewrite Hc. eauto.
  - cbn [app split_ws]. rewrite Hc.
    destruct (IH (cur ++ [c])) as (more & ->). rewrite <- app_assoc. eauto.
Qed.

End StringFacts.

Section CommandPolicy.

Import Common Execute Observations StringFacts.

(** X9: the allowlist is consulted for the first word of the command and
    nothing else: white space before the word is ignored, and what
    follows the white space after the word plays no part. The comparison
    is exact. *)
Theorem isCommandAllowed_first_word
    (lead word rest : jsstring) (allowed : list jsstring) :
  Forall (fun c => is_whitespace c = true) lead ->
  word <> [] ->
  Forall (fun c => is_whitespace c = false) word ->
  (rest = [] \/ exists c r, rest = c :: r /\ is_whitespace c = true) ->
  isCommandAllowed (lead ++ word ++ rest) allowed = bool_decide (word ∈ allowed).
Proof.
  intros Hlead Hne Hword Hrest. unfold isCommandAllowed, trim.
  rewrite trimStart_blank_app by assumption.
  assert (Hts : trimStart (word ++ rest) = word ++ rest).
  { destruct word as [|c word]; [congruence |].
    inversion Hword; subst. apply trimStart_solid_head. assumption. }
  rewrite Hts.
  destruct (blank_tail_split rest) as (rbody & tail & -> & Htail & Hrbody).
  assert (Hte : trimEnd (word ++ rbody ++ tail) = word ++ rbody).
  { rewrite app_assoc. apply trimEnd_body; [assumption |].
    right. destruct Hrbody as [-> | (b & c & -> & Hc)].
    - rewrite app_nil_r.
      destruct (exists_last Hne) as (w & c & ->). exists w, c. split; [reflexivity |].
      apply Forall_app in Hword as [_ Hc]. inversion Hc; assumption.
    - exists (word ++ b), c. rewrite app_assoc. auto. }
  rewrite Hte.
  assert (Hrb : rbody = [] \/ exists c r, rbody = c :: r /\ is_whitespace c = true).
  { destruct rbody as [|c r]; [left; reflexivity |]. right.
    destruct Hrest as [Hnil | (c' & r' & E & Hc')]; [discriminate Hnil |].
    injection E as -> _. eauto. }
  destruct (split_ws_word word rbody [] Hword Hrb) as (more & ->). reflexivity.
Qed.

Lemma isCommandAllowed_first_word_witness :
  isCommandAllowed (js "  git   status --short ") [js "node"; js "git"] = true /\
  isCommandAllowed (js "Git status") [js "node"; js "git"] = false.
Proof.
  split.
  - apply (isCommandAllowed_first_word (js "  ") (js "git") (js "   status --short ")
             [js "node"; js "git"]).
    + repeat constructor.
    + discriminate.
    + repeat constructor.
    + right. eexists _, _. split; reflexivity.
  - apply (isCommandAllowed_first_word [] (js "Git") (js " status") [js "node"; js "git"]).
    + constructor.
    + discriminate.
    + repeat constructor.
    + right. eexists _, _. split; reflexivity.
Defined.

(** X10: a command that is empty or made of white space only has the empty
    string as its first word: it is allowed exactly when the allowlist
    holds the empty string. *)
Theorem isCommandAllowed_blank (command : jsstring) (allowed : list jsstring) :
  Forall (fun c => is_whitespace c = true) command ->
  isCommandAllowed command allowed = bool_decide ([] ∈ allowed).
Proof.
  intros Hblank. unfold isCommandAllowed, trim.
  rewrite trimStart_blank by assumption. reflexivity.
Qed.

Lemma isCommandAllowed_blank_witness :
  isCommandAllowed (js "   ") [js "node"; js "git"] = false /\
  isCommandAllowed (js "   ") (allowedCommands (sandboxConfig_of (sample_options true "node,") []))
  = true.
Proof.
  split.
  - apply (isCommandAllowed_blank (js "   ") [js "node"; js "git"]). repeat constructor.
  - apply (isCommandAllowed_blank (js "   ")
             (allowedCommands (sandboxConfig_of (sample_options true "node,") []))).
    repeat constructor.
Defined.

(** X11: the filter lets a command through exactly when shell commands are
    enabled, no part of the command is in the language of a denylisted
    pattern, and the first word is on the allowlist; what comes back is
    then the command itself. *)
Theorem filterCommand_Some_iff (command result : jsstring) (config : SandboxConfig) :
  filterCommand command config = Some result <->
  result = command /\
  enableBashCommands config = true /\
  (forall pattern before matched after,
     In pattern dangerousPatterns -> command = before ++ matched ++ after ->
     ~ Regex.lang pattern matched) /\
  isCommandAllowed command (allowedCommands config) = true.
Proof.
  unfold filterCommand. split.
  - destruct (enableBashCommands config); cbn [negb]; [| discriminate].
    destruct (existsb _ dangerousPatterns) eqn:Hex; [discriminate |].
    destruct (isCommandAllowed command (allowedCommands config)); cbn [negb]; [| discriminate].
    intros [= <-]. repeat split.
    intros pattern before matched after Hin Hcmd Hlang.
    assert (Htrue : existsb (fun p => Regex.test p command) dangerousPatterns = true).
    { apply existsb_exists. exists pattern. split; [assumption |].
      apply RegexFacts.test_spec. eauto. }
    congruence.
  - intros (-> & Hen & Hno & Hallowed). rewrite Hen, Hallowed. cbn [negb].
    destruct (existsb _ dangerousPatterns) eqn:Hex; [| reflexivity].
    apply existsb_exists in Hex as (pattern & Hin & Htest).
    apply RegexFacts.test_spec in Htest as (a & b & c & E & Hlang).
    exfalso. exact (Hno pattern a b c Hin E Hlang).
Qed.

End CommandPolicy.

Section DenyList.

Import Common Execute Observations.

Lemma lang_ilit4 (p1 p2 p3 p4 : ascii) (c1 c2 c3 c4 : N) :
  Regex.canonicalize c1 = Regex.canonicalize (N_of_ascii p1) ->
  Regex.canonicalize c2 = Regex.canonicalize (N_of_ascii p2) ->
  Regex.canonicalize c3 = Regex.canonicalize (N_of_ascii p3) ->
  Regex.canonicalize c4 = Regex.canonicalize (N_of_ascii p4) ->
  Regex.lang (Regex.ilit (String p1 (String p2 (String p3 (String p4 EmptyString)))))
    [c1; c2; c3; c4].
Proof.
  intros H1 H2 H3 H4.
  change [c1; c2; c3; c4] with ([c1] ++ [c2] ++ [c3] ++ [c4] ++ []).
  cbn [Regex.ilit js list_ascii_of_string map fold_right].
  repeat (apply Regex.lang_cat;
          [apply Regex.lang_set; unfold Regex.ichar; apply N.eqb_eq; assumption |]).
  apply Regex.lang_eps.
Qed.

(** X12: a command in which the letters of [sudo] or of [mkfs] follow one
    another, in any mix of upper and lower case and anywhere in the
    command (inside a longer word too), is rejected under every policy. *)
Theorem filterCommand_rejects_sudo_mkfs_anywhere
    (before word after : jsstring) (config : SandboxConfig) :
  map Regex.canonicalize word = js "SUDO" \/ map Regex.canonicalize word = js "MKFS" ->
  filterCommand (before ++ word ++ after) config = None.
Proof.
  intros Hword. unfold filterCommand.
  destruct (negb (enableBashCommands config)); [reflexivity |].
  assert (Hex : existsb (fun p => Regex.test p (before ++ word ++ after)) dangerousPatterns
                = true); [| rewrite Hex; reflexivity].
  apply existsb_exists.
  destruct word as [|c1 [|c2 [|c3 [|c4 [|c5 word]]]]];
    try (destruct Hword as [H | H]; discriminate H).
  destruct Hword as [H | H]; injection H as H1 H2 H3 H4.
  - exists (Regex.ilit "sudo"). split; [cbn [dangerousPatterns In]; tauto |].
    apply RegexFacts.test_spec. exists before, [c1; c2; c3; c4], after.
    split; [reflexivity |]. apply lang_ilit4; assumption.
  - exists (Regex.ilit "mkfs"). split; [cbn [dangerousPatterns In]; tauto |].
    apply RegexFacts.test_spec. exists before, [c1; c2; c3; c4], after.
    split; [reflexivity |]. apply lang_ilit4; assumption.
Qed.

Lemma filterCommand_rejects_sudo_mkfs_anywhere_witness :
  isCommandAllowed (js "node pSuDocode.js") [js "node"] = true /\
  filterCommand (js "node p" ++ js "SuDo" ++ js "code.js")
    (mkSandboxConfig (js "/ws") true true true [js "node"] 300000) = None.
Proof.
  split; [vm_compute; reflexivity |].
  apply (filterCommand_rejects_sudo_mkfs_anywhere (js "node p") (js "SuDo") (js "code.js")
           (mkSandboxConfig (js "/ws") true true true [js "node"] 300000)).
  left. vm_compute. reflexivity.
Defined.

End DenyList.

Section Translator.

Import Common Execute Observations.

Ltac key_ne := let H := fresh in intros H; vm_compute in H; discriminate H.

(** X13: whatever the kind of the message and whatever the detail flag,
    the translated record carries the message's [type] as its [type]. *)
Theorem convert_keeps_type (message : obj) (returnIntermediateSteps : bool) :
  get (json (convertAgentMessageToN8nData message returnIntermediateSteps)) (js "type")
  = get message (js "type").
Proof.
  unfold convertAgentMessageToN8nData. cbn [json].
  generalize (get message (js "type")) as type. intros type.
  unfold get at 1.
  repeat case_match;
    rewrite ?lookup_insert_ne by key_ne; rewrite lookup_singleton_eq; reflexivity.
Qed.

(** X14: the fields of a tool invocation or of a tool result reach the
    translated record only when detail is asked for: without it the record
    holds the type tag and nothing else; with it, a tool invocation gives
    its tool, input and id, a tool result its invocation id and content. *)
Theorem convert_tool_detail (message : obj) :
  (get message (js "type") = VStr (js "tool_use") \/
   get message (js "type") = VStr (js "tool_result") ->
   json (convertAgentMessageToN8nData message false)
   = {[ js "type" := get message (js "type") ]}) /\
  (get message (js "type") = VStr (js "tool_use") ->
   json (convertAgentMessageToN8nData message true)
   = {[ js "type" := VStr (js "tool_use");
        js "tool" := get message (js "tool");
        js "toolInput" := get message (js "input");
        js "toolCallId" := get message (js "id") ]}) /\
  (get message (js "type") = VStr (js "tool_result") ->
   json (convertAgentMessageToN8nData message true)
   = {[ js "type" := VStr (js "tool_result");
        js "toolCallId" := get message (js "tool_use_id");
        js "toolResult" := get message (js "content") ]}).
Proof.
  unfold convertAgentMessageToN8nData. cbn [json].
  repeat split.
  - intros [-> | ->]; reflexivity.
  - intros ->.
    generalize (get message (js "tool")) (get message (js "input")) (get message (js "id")).
    intros a b c. vm_compute. reflexivity.
  - intros ->.
    generalize (get message (js "tool_use_id")) (get message (js "content")).
    intros a b. vm_compute. reflexivity.
Qed.

Lemma convert_tool_detail_witness :
  let message := tool_use "bash" (VObj {[ js "command" := VStr (js "ls") ]}) in
  json (convertAgentMessageToN8nData message false) = {[ js "type" := VStr (js "tool_use") ]} /\
  get (json (convertAgentMessageToN8nData message true)) (js "tool") = VStr (js "bash").
Proof.
  intros message.
  assert (Htype : get message (js "type") = VStr (js "tool_use")) by (vm_compute; reflexivity).
  destruct (convert_tool_detail message) as (Hoff & Hon & _).
  split.
  - rewrite (Hoff (or_introl Htype)), Htype. reflexivity.
  - rewrite (Hon Htype). vm_compute. reflexivity.
Defined.

End Translator.

(* ===================================================================== *)
(** * Runs of one item *)
(* ===================================================================== *)

Module RunFacts.

Import Common Execute Observations Stability RunObservations.

Lemma bind_Normal_inv {S A B : Type} (m : MS S A) (f : A -> MS S B) (s s' : S) (b : B) :
  bind m f s = (Normal b, s') ->
  exists a s1, m s = (Normal a, s1) /\ f a s1 = (Normal b, s').
Proof.
  unfold bind. destruct (m s) as [[a | e |] s1]; try discriminate. eauto.
Qed.

Lemma awaited_Normal_inv context cfg ris es w {A : Type} (promise : MP A) (p p' : Process)
    (a : A) :
  awaited context cfg ris es w promise p = (Normal a, p') ->
  exists p1, promise p = (Normal a, p1).
Proof.
  unfold awaited. destruct (promise p) as [r p1]. intros [= -> _]. eauto.
Qed.

Lemma bind_ret_l {S A B : Type} (a : A) (f : A -> MS S B) (s : S) :
  bind (ret a) f s = f a s.
Proof. reflexivity. Qed.

Lemma truthy_str (x : jsstring) : x <> [] -> truthy (VStr x) = true.
Proof. destruct x; [congruence | reflexivity]. Qed.

(** What the loop variables are after a message that was processed. *)
Lemma on_message_value (context : Host) (cfg : SandboxConfig) (i : nat) (ris es : bool)
    (msg : obj) (vars : list INodeExecutionData * value)
    (s s' : State) (vars' : list INodeExecutionData * value) :
  on_message context cfg i ris es msg vars s = (Normal vars', s') ->
  vars' = vars_after ris es [msg] vars.
Proof.
  destruct vars as [agentMessages finalResult].
  unfold on_message, vars_after, result_after. cbn [fst snd map fold_left]. intros H.
  apply bind_Normal_inv in H as (fr & s1 & H1 & H).
  apply bind_Normal_inv in H as ([] & s2 & _ & H).
  injection H as <- _. f_equal.
  destruct (is_str (get msg (js "type")) (js "result")).
  - apply bind_Normal_inv in H1 as (len & s3 & _ & H1).
    apply bind_Normal_inv in H1 as ([] & s4 & _ & H1).
    injection H1 as <- _. reflexivity.
  - injection H1 as <- _. reflexivity.
Qed.

Lemma vars_after_cons ris es msg msgs vars :
  vars_after ris es (msg :: msgs) vars = vars_after ris es msgs (vars_after ris es [msg] vars).
Proof.
  unfold vars_after. cbn [fst snd map fold_left].
  destruct es; [rewrite <- app_assoc |]; reflexivity.
Qed.

(** Messages on which the body does not throw are all processed, each
    translated in order, whatever the abandoned calls receive between
    them. *)
Lemma through_passes (context : Host) (cfg : SandboxConfig) (i : nat) (ris es : bool) :
  forall (pre : list obj) (consumed : nat) (vars : list INodeExecutionData * value)
         (p : Process),
    Forall (fun m => throws_on cfg m = false) pre ->
    exists p', through context cfg i ris es consumed pre vars p
               = (Normal (vars_after ris es pre vars), p').
Proof.
  induction pre as [|m pre IH]; intros consumed vars p Hok.
  - exists p. unfold vars_after. cbn [through map fold_left].
    destruct vars, es; rewrite ?app_nil_r; reflexivity.
  - inversion Hok as [| ? ? Hm Hrest]; subst. cbn [through].
    pose proof (meanwhile_returns context cfg ris es (WaitMessage i consumed) p) as Hr.
    unfold bind at 1.
    destruct (meanwhile context cfg ris es (WaitMessage i consumed) p) as [r p1].
    cbn [fst] in Hr. subst r.
    destruct (on_message_passes context cfg i ris es m vars p1 Hm) as (vars1 & evs1 & E1 & _).
    pose proof (on_message_value _ _ _ _ _ _ _ _ _ _ E1) as ->.
    unfold bind at 1. unfold lift. rewrite E1. cbv beta iota.
    rewrite (vars_after_cons ris es m pre vars). apply IH. exact Hrest.
Qed.

(** ** Relations the run of an item preserves *)

Lemma others_kept_refl s : others_kept s s.
Proof. intros k _. reflexivity. Qed.

Lemma others_kept_trans s1 s2 s3 : others_kept s1 s2 -> others_kept s2 s3 -> others_kept s1 s3.
Proof. intros H1 H2 k Hk. rewrite (H2 k Hk). apply (H1 k Hk). Qed.

#[export] Instance others_kept_preorder : PreOrder others_kept.
Proof. split; [exact others_kept_refl | exact others_kept_trans]. Qed.

Lemma others_kept_emit ev : stable others_kept (emit ev).
Proof. intros s k _. reflexivity. Qed.

Lemma others_kept_setenv v : stable others_kept (setenv ANTHROPIC_API_KEY v).
Proof. intros s k Hk. cbn [setenv snd process_env]. apply lookup_insert_ne. congruence. Qed.

Lemma others_kept_unsetenv : stable others_kept (unsetenv ANTHROPIC_API_KEY).
Proof. intros s k Hk. cbn [unsetenv snd process_env]. apply lookup_delete_ne. congruence. Qed.

Lemma same_env_others_kept {A : Type} (m : M A) : stable same_env m -> stable others_kept m.
Proof. intros H s k _. rewrite (H s). reflexivity. Qed.

Lemma others_kept_auditLog context action details :
  stable others_kept (auditLog context action details).
Proof. apply same_env_others_kept, same_env_auditLog. Qed.

Lemma others_kept_on_message context cfg i ris es msg vars :
  stable others_kept (on_message context cfg i ris es msg vars).
Proof. apply same_env_others_kept, same_env_on_message. Qed.

Lemma others_kept_run_item context options cfg workspace i item :
  stable (on_shared others_kept) (run_item context options cfg workspace i item).
Proof.
  apply (stable_run_item others_kept); intros;
    first [ apply others_kept_on_message | apply others_kept_unsetenv
          | apply others_kept_setenv | apply others_kept_auditLog ].
Qed.

Lemma key_gone_refl s : key_gone s s.
Proof. intros H. exact H. Qed.

Lemma key_gone_trans s1 s2 s3 : key_gone s1 s2 -> key_gone s2 s3 -> key_gone s1 s3.
Proof. unfold key_gone. auto. Qed.

#[export] Instance key_gone_preorder : PreOrder key_gone.
Proof. split; [exact key_gone_refl | exact key_gone_trans]. Qed.

Lemma same_env_key_gone {A : Type} (m : M A) : stable same_env m -> stable key_gone m.
Proof. intros H s Hk. rewrite (H s). exact Hk. Qed.

Lemma key_gone_unsetenv : stable key_gone (unsetenv ANTHROPIC_API_KEY).
Proof. intros s _. apply lookup_delete_eq. Qed.

(** The abandoned calls never put the key back. *)
Lemma key_gone_meanwhile context cfg ris es w :
  stable (on_shared key_gone) (meanwhile context cfg ris es w).
Proof.
  apply (stable_meanwhile key_gone); intros;
    [apply same_env_key_gone, same_env_on_message | apply key_gone_unsetenv].
Qed.

(** ** The run of an item that is ready *)

(** An item that is ready reaches the race: the run is announced, the
    batch waits for the SDK and for the credentials, then the agent runs
    against the timer and the records are built from what it collected. *)
Lemma run_item_ready (context : Host) (options : Options) (cfg : SandboxConfig)
    (workspace : WorkspaceContext) (i : nat) (item : Item)
    (prompt : jsstring) (query : jsstring -> Z -> Stream) (apiKey : jsstring) (p : Process) :
  item_ready item prompt query apiKey ->
  let ris := is_true (opt_returnIntermediateSteps options) in
  let es := not_false (opt_enableStreaming options) in
  run_item context options cfg workspace i item p
  = bind
      (awaited context cfg ris es (WaitRace i)
         (race_timeout
            (executeAgent context cfg i ris es apiKey
               (stream_of options cfg workspace query prompt) (deadline item))))
      (fun vars =>
         let '(agentMessages, finalResult) := vars in
         if es && ris
         then ret agentMessages
         else ret [mkData {[ js "output" := finalResult;
                             js "workspace" := VStr (path workspace) ]}])
      (after_wait context cfg ris es (WaitCredentials i)
         (after_wait context cfg ris es (WaitImport i)
            (started_in context workspace i prompt p))).
Proof.
  intros (Hp & Hpne & Hsdk & Hcred & Hkne) ris es. unfold run_item.
  rewrite Hp, Hsdk, Hcred. cbn [host_result].
  rewrite bind_ret_l. rewrite (truthy_str prompt Hpne). cbn [negb].
  rewrite bind_ret_l. unfold bind at 1. unfold lift at 1. rewrite auditLog_eq.
  fold (started context workspace i prompt p).
  fold (started_in context workspace i prompt p).
  unfold bind at 1. unfold awaited at 1. cbn [ret]. fold ris es.
  fold (after_wait context cfg ris es (WaitImport i) (started_in context workspace i prompt p)).
  unfold bind at 1. unfold awaited at 1. cbn [ret].
  fold (after_wait context cfg ris es (WaitCredentials i)
          (after_wait context cfg ris es (WaitImport i)
             (started_in context workspace i prompt p))).
  cbn [from_option default id].
  rewrite (truthy_str apiKey Hkne). rewrite bind_ret_l.
  reflexivity.
Qed.

End RunFacts.

Section RunProperties.

Import Common Execute Observations Stability RunObservations RunFacts.

(** X15: with shell commands not enabled in the options (the default),
    every shell tool invocation that carries a command ends the run: it is
    audited, the warning is written and the error built from the text
    that names the command is thrown, whatever the command and whatever
    the allowlist. The message of that error is what n8n-workflow makes
    of the text. *)
Theorem shell_disabled_blocks_invocation
    (context : Host) (options : Options) (workspacePath : jsstring)
    (i : nat) (ris es : bool) (msg : obj) (command : jsstring)
    (vars : list INodeExecutionData * value) (s : State) :
  opt_enableBashCommands options <> Some true ->
  is_str (get msg (js "type")) (js "tool_use") = true ->
  command_to_filter msg = Some command ->
  on_message context (sandboxConfig_of options workspacePath) i ris es msg vars s
  = (Thrown (NodeOperationError (blocked_text command) (Some i)),
     mkState (process_env s)
       (trace s ++ [tool_use_line context (length (trace s)) i msg; blocked_line i command])) /\
  error_message (NodeError_message context) (NodeOperationError (blocked_text command) (Some i))
  = NodeError_message context (blocked_text command).
Proof.
  intros Hopt Htype Hcmd. split; [| reflexivity]. destruct vars as [agentMessages finalResult].
  rewrite on_message_tool_use by exact Htype. rewrite Hcmd.
  assert (Hoff : enableBashCommands (sandboxConfig_of options workspacePath) = false).
  { cbn [sandboxConfig_of enableBashCommands]. unfold is_true.
    destruct (opt_enableBashCommands options) as [[|] |]; [congruence | reflexivity | reflexivity]. }
  unfold filterCommand. rewrite Hoff. reflexivity.
Qed.

Lemma shell_disabled_blocks_invocation_witness :
  let msg := tool_use "bash" (VObj {[ js "command" := VStr (js "node fix-eperm.js") ]}) in
  let options := mkOptions None None None None None (Some (js "node")) None None None None in
  (on_message (sample_host false) (sandboxConfig_of options (js "/ws")) 0 false true msg
     ([], VStr []) initial_state).1
  = Thrown (NodeOperationError (js "Command blocked by security filters: node fix-eperm.js")
              (Some 0)) /\
  error_message (NodeError_message (sample_host false))
    (NodeOperationError (js "Command blocked by security filters: node fix-eperm.js") (Some 0))
  = js "Operation not permitted, make sure you have the right permissions".
Proof.
  intros msg options.
  destruct (shell_disabled_blocks_invocation (sample_host false) options (js "/ws") 0 false true
              msg (js "node fix-eperm.js") ([], VStr []) initial_state) as [Hrun Hmsg].
  - discriminate.
  - vm_compute. reflexivity.
  - vm_compute. reflexivity.
  - rewrite Hrun. split; [reflexivity |].
    change (js "Command blocked by security filters: node fix-eperm.js")
      with (blocked_text (js "node fix-eperm.js")).
    rewrite Hmsg. vm_compute. reflexivity.
Defined.

(** X16: an item whose prompt is empty is refused before anything is done
    for it: the run is not announced, the process is as it was. With
    tolerance of item errors the loop then adds the record of that error,
    with the message n8n-workflow gives it and the index of the item, and
    goes on with the next item from the same process. *)
Theorem missing_prompt_rejected
    (context : Host) (options : Options) (cfg : SandboxConfig)
    (workspace : WorkspaceContext) (i : nat) (item : Item) (rest : list Item)
    (returnData : list INodeExecutionData) (p : Process) :
  getPromptInputByType item = inr [] ->
  run_item context options cfg workspace i item p
  = (Thrown (NodeOperationError (js "No prompt provided for Claude Agent") (Some i)), p) /\
  (continueOnFail context = true ->
   process_items context options cfg workspace i (item :: rest) returnData p
   = process_items context options cfg workspace (S i) rest
       (returnData ++
        [mkData {[ js "error" :=
                     VStr (NodeError_message context (js "No prompt provided for Claude Agent"));
                   js "itemIndex" := num i ]}]) p).
Proof.
  intros Hp.
  assert (Hrun : run_item context options cfg workspace i item p
                 = (Thrown (NodeOperationError (js "No prompt provided for Claude Agent")
                              (Some i)), p))
    by (unfold run_item; rewrite Hp; reflexivity).
  split; [exact Hrun |].
  intros Htol. cbn [process_items]. unfold bind at 1. unfold try_catch. unfold bind at 1.
  rewrite Hrun, Htol. reflexivity.
Qed.

Lemma missing_prompt_rejected_witness :
  let context := sample_host true in
  let options := sample_options false "node" in
  let cfg := sandboxConfig_of options (js "/ws") in
  let workspace := mkWorkspaceContext (js "/ws") (js "wf1") (js "exec1") [] in
  (process_items context options cfg workspace 3 [mkItem (inr []) None (inr None) None] []
     (mkProcess initial_state []))
  = (Normal [mkData {[ js "error" := VStr (js "No prompt provided for Claude Agent");
                       js "itemIndex" := num 3 ]}],
     mkProcess initial_state []).
Proof.
  intros context options cfg workspace.
  destruct (missing_prompt_rejected context options cfg workspace 3
              (mkItem (inr []) None (inr None) None) [] [] (mkProcess initial_state []) eq_refl)
    as (_ & Hloop).
  rewrite (Hloop eq_refl). reflexivity.
Defined.

(** X17: an item with a prompt but without the SDK, or without an API key
    that is not empty, is announced and then refused with the error of
    what is missing, once the batch has waited for the SDK, and for the
    credentials: the agent is not called and the key is not placed in
    [process.env]. The process is then the one in which the run was
    announced, after what the abandoned calls received during those
    waits. *)
Theorem unready_item_refused
    (context : Host) (options : Options) (cfg : SandboxConfig)
    (workspace : WorkspaceContext) (i : nat) (item : Item) (prompt : jsstring) (p : Process) :
  let ris := is_true (opt_returnIntermediateSteps options) in
  let es := not_false (opt_enableStreaming options) in
  getPromptInputByType item = inr prompt -> prompt <> [] ->
  (import_sdk item = None ->
   run_item context options cfg workspace i item p
   = (Thrown (NodeOperationError
                (js "Failed to load Claude Agent SDK. Make sure @anthropic-ai/claude-agent-sdk is installed.")
                (Some i)),
      after_wait context cfg ris es (WaitImport i) (started_in context workspace i prompt p))) /\
  (import_sdk item <> None ->
   getCredentials item = inr None \/ getCredentials item = inr (Some []) ->
   run_item context options cfg workspace i item p
   = (Thrown (NodeOperationError
                (js "Anthropic API key not found. Please configure Anthropic credentials.")
                (Some i)),
      after_wait context cfg ris es (WaitCredentials i)
        (after_wait context cfg ris es (WaitImport i)
           (started_in context workspace i prompt p)))).
Proof.
  intros ris es Hp Hpne. split.
  - intros Hsdk. unfold run_item. rewrite Hp, Hsdk. cbn [host_result].
    rewrite bind_ret_l, (truthy_str prompt Hpne). cbn [negb].
    rewrite bind_ret_l. unfold bind at 1. unfold lift at 1. rewrite auditLog_eq. reflexivity.
  - intros Hsdk Hcred. unfold run_item. rewrite Hp. cbn [host_result].
    rewrite bind_ret_l, (truthy_str prompt Hpne). cbn [negb].
    rewrite bind_ret_l. unfold bind at 1. unfold lift at 1. rewrite auditLog_eq.
    destruct (import_sdk item) as [query |]; [| congruence].
    destruct Hcred as [-> | ->]; reflexivity.
Qed.

Lemma unready_item_refused_witness :
  let item := mkItem (inr (js "hello")) (Some (fun _ _ => mkStream [] Completes))
                (inr (Some [])) None in
  let run :=
    run_item (sample_host false) (sample_options false "node")
      (sandboxConfig_of (sample_options false "node") (js "/ws"))
      (mkWorkspaceContext (js "/ws") (js "wf1") (js "exec1") []) 0 item
      (mkProcess initial_state []) in
  run.1 = Thrown (NodeOperationError
                    (js "Anthropic API key not found. Please configure Anthropic credentials.")
                    (Some 0)) /\
  process_env run.2 = ∅ /\ length (trace run.2) = 1.
Proof.
  intros item run. subst run.
  destruct (unready_item_refused (sample_host false) (sample_options false "node")
              (sandboxConfig_of (sample_options false "node") (js "/ws"))
              (mkWorkspaceContext (js "/ws") (js "wf1") (js "exec1") []) 0 item (js "hello")
              (mkProcess initial_state []) eq_refl) as (_ & Hkey).
  { discriminate. }
  rewrite Hkey; [repeat split; reflexivity | discriminate | right; reflexivity].
Defined.

(** An agent call whose stream ends before the timer fires, and holds no
    message on which the loop body throws, returns the loop variables
    these messages give. *)
Lemma executeAgent_completes
    (context : Host) (cfg : SandboxConfig) (i : nat) (ris es : bool) (apiKey : jsstring)
    (msgs : list obj) (deadline : option nat) (p : Process) :
  Forall (fun m => throws_on cfg m = false) msgs ->
  (forall k, deadline = Some k -> length msgs < k) ->
  exists p',
    executeAgent context cfg i ris es apiKey (mkStream msgs Completes) deadline p
    = (Normal (vars_after ris es msgs ([], VStr [])), p').
Proof.
  intros Hok Hdl.
  set (p0 := mkProcess (mkState (<[ANTHROPIC_API_KEY := apiKey]> (process_env p)) (trace p))
               (abandoned p)).
  destruct (through_passes context cfg i ris es msgs 0 ([], VStr []) p0 Hok) as (p1 & E1).
  set (pw := after_wait context cfg ris es (WaitMessage i (0 + length msgs)) p1).
  exists (mkProcess (mkState (delete ANTHROPIC_API_KEY (process_env pw)) (trace pw))
            (abandoned pw)).
  unfold executeAgent, try_finally.
  cbn [Execute.messages Execute.ending].
  unfold bind at 1. unfold lift at 1. unfold setenv at 1. fold p0.
  rewrite <- (app_nil_r msgs) at 1.
  rewrite for_await_through by (intros k E; specialize (Hdl k E); lia).
  unfold bind at 1. rewrite E1. cbn [for_await].
  pose proof (meanwhile_returns context cfg ris es (WaitMessage i (0 + length msgs)) p1) as Hr.
  subst pw. unfold after_wait. unfold bind at 1.
  destruct (meanwhile context cfg ris es (WaitMessage i (0 + length msgs)) p1) as [r p2].
  cbn [fst snd] in *. subst r.
  rewrite bool_decide_eq_false_2 by (intros E; specialize (Hdl _ E); lia).
  reflexivity.
Qed.

(** X18: an item that is ready, whose stream ends before the deadline
    and holds no message on which the run throws, succeeds, whatever the
    abandoned calls receive meanwhile. With streaming and detail both on,
    its records are the translations of the messages, one for each, in
    order; otherwise it is one record with the result of the last
    final-result message (the empty string when there is none) and the
    workspace path. The key is gone from [process.env]. *)
Theorem run_item_succeeds
    (context : Host) (options : Options) (cfg : SandboxConfig)
    (workspace : WorkspaceContext) (i : nat) (item : Item)
    (prompt : jsstring) (query : jsstring -> Z -> Stream) (apiKey : jsstring)
    (msgs : list obj) (s : Process) :
  item_ready item prompt query apiKey ->
  stream_of options cfg workspace query prompt = mkStream msgs Completes ->
  Forall (fun m => throws_on cfg m = false) msgs ->
  (forall k, deadline item = Some k -> length msgs < k) ->
  exists s',
    run_item context options cfg workspace i item s
    = (Normal (if summary_mode options
               then [mkData {[ js "output" := last_result msgs;
                               js "workspace" := VStr (path workspace) ]}]
               else map (fun m => convertAgentMessageToN8nData m true) msgs), s') /\
    process_env s' = delete ANTHROPIC_API_KEY (process_env s).
Proof.
  intros Hready Hstream Hok Hdl.
  set (ris := is_true (opt_returnIntermediateSteps options)).
  set (es := not_false (opt_enableStreaming options)).
  pose proof (others_kept_run_item context options cfg workspace i item s) as Hkept.
  rewrite (run_item_ready context options cfg workspace i item prompt query apiKey s Hready)
    in *.
  cbv zeta in *. fold ris es in Hkept |- *.
  set (p0 := after_wait context cfg ris es (WaitCredentials i) _) in *.
  rewrite Hstream in *.
  destruct (executeAgent_completes context cfg i ris es apiKey msgs (deadline item) p0 Hok Hdl)
    as (p1 & E1).
  pose proof (executeAgent_settled_clears_key _ _ _ _ _ _ _ _ _ _ _ E1) as Hgone.
  specialize (Hgone ltac:(discriminate)).
  pose proof (key_gone_meanwhile context cfg ris es (WaitRace i) p1 Hgone) as Hgone'.
  unfold bind at 1 in Hkept. unfold bind at 1.
  unfold awaited at 1 in Hkept. unfold awaited at 1.
  unfold race_timeout in *. rewrite E1 in *. cbn [snd] in *.
  fold (after_wait context cfg ris es (WaitRace i) p1) in *.
  set (p2 := after_wait context cfg ris es (WaitRace i) p1) in *.
  assert (Henv : process_env p2 = delete ANTHROPIC_API_KEY (process_env s)).
  { assert (Hk : others_kept s p2).
    { unfold vars_after in Hkept. cbn [fst snd] in Hkept.
      destruct (es && ris); exact Hkept. }
    apply map_eq. intros k. destruct (decide (k = ANTHROPIC_API_KEY)) as [-> | Hne].
    - rewrite lookup_delete_eq. exact Hgone'.
    - rewrite lookup_delete_ne by congruence. apply Hk. exact Hne. }
  exists p2. split; [| exact Henv].
  unfold vars_after, summary_mode, last_result. cbn [fst snd]. fold ris es.
  destruct es, ris; reflexivity.
Qed.

Lemma run_item_succeeds_witness :
  let options := sample_options true "node" in
  let cfg := sandboxConfig_of options (js "/ws") in
  let workspace := mkWorkspaceContext (js "/ws") (js "wf1") (js "exec1") [] in
  let msgs := [ final_result "draft";
                tool_use "bash" (VObj {[ js "command" := VStr (js "node -v") ]});
                final_result "done" ] in
  let item := sample_item "hello" (mkStream msgs Completes) None in
  exists s',
    run_item (sample_host false) options cfg workspace 0 item (mkProcess initial_state [])
    = (Normal [mkData {[ js "output" := VStr (js "done");
                         js "workspace" := VStr (js "/ws") ]}], s') /\
    process_env s' = ∅.
Proof.
  intros options cfg workspace msgs item.
  destruct (run_item_succeeds (sample_host false) options cfg workspace 0 item
              (js "hello") (fun _ _ => mkStream msgs Completes) (js "sk-ant-key") msgs
              (mkProcess initial_state [])) as (s' & Hrun & Henv).
  - repeat split; discriminate.
  - reflexivity.
  - repeat (constructor; [vm_compute; reflexivity |]). constructor.
  - intros k Hk. discriminate Hk.
  - exists s'. split; [exact Hrun | rewrite Henv; reflexivity].
Defined.

(** In a process without abandoned calls, the messages that go through
    the loop body leave no abandoned call and leave [process.env] as it
    was. *)
Lemma through_alone (context : Host) (cfg : SandboxConfig) (i : nat) (ris es : bool) :
  forall (pre : list obj) (consumed : nat) (vars : list INodeExecutionData * value)
         (p : Process) r p',
    abandoned p = [] ->
    through context cfg i ris es consumed pre vars p = (r, p') ->
    abandoned p' = [] /\ process_env p' = process_env p.
Proof.
  induction pre as [|m pre IH]; intros consumed vars p r p' Hp; cbn [through].
  - intros [= _ <-]. split; [exact Hp | reflexivity].
  - unfold bind at 1. rewrite meanwhile_alone by exact Hp.
    unfold bind at 1. unfold lift.
    pose proof (same_env_on_message context cfg i ris es m vars p) as Henv.
    destruct (on_message context cfg i ris es m vars p) as [[vars1 | e |] s1];
      cbn [snd] in *; unfold same_env in Henv;
      try (intros [= _ <-]; split; [exact Hp | exact Henv]).
    intros H. apply IH in H as [Ha He]; [| exact Hp].
    split; [exact Ha |]. rewrite He. exact Henv.
Qed.

(** X19: when the timer fires while the call waits for its next message,
    after messages that all went through the loop body, the race rejects
    with the timeout error, and the call is not cancelled: it is left in
    the process, waiting, with the messages its stream still holds. The
    state in which the batch goes on does not depend on these messages;
    they are for the abandoned call to receive later. A stream that stops
    yielding without ending loses the race in the same way. When no call
    was abandoned before, the key is still in [process.env] at that
    point. *)
Theorem timer_wins_race
    (context : Host) (cfg : SandboxConfig) (i : nat) (ris es : bool) (apiKey : jsstring)
    (first : list obj) (p : Process) :
  Forall (fun m => throws_on cfg m = false) first ->
  exists p1 : Process,
    (forall later ending,
       race_timeout
         (executeAgent context cfg i ris es apiKey (mkStream (first ++ later) ending)
            (Some (length first))) p
       = (Thrown timeout_error,
          mkProcess (shared p1)
            (abandoned p1
             ++ [mkConsumer i later ending (vars_after ris es first ([], VStr []))]))) /\
    race_timeout
      (executeAgent context cfg i ris es apiKey (mkStream first Hangs) None) p
    = (Thrown timeout_error,
       mkProcess (shared p1)
         (abandoned p1 ++ [mkConsumer i [] Hangs (vars_after ris es first ([], VStr []))])) /\
    (abandoned p = [] ->
     abandoned p1 = [] /\ process_env p1 !! ANTHROPIC_API_KEY = Some apiKey).
Proof.
  intros Hok.
  set (p0 := mkProcess (mkState (<[ANTHROPIC_API_KEY := apiKey]> (process_env p)) (trace p))
               (abandoned p)).
  destruct (through_passes context cfg i ris es first 0 ([], VStr []) p0 Hok) as (p1 & E1).
  exists (after_wait context cfg ris es (WaitMessage i (0 + length first)) p1).
  split; [| split].
  - intros later ending.
    unfold race_timeout, executeAgent, try_finally.
    cbn [Execute.messages Execute.ending].
    unfold bind at 1. unfold lift at 1. unfold setenv at 1. fold p0.
    rewrite for_await_through by (intros k [= <-]; lia).
    unfold bind at 1. rewrite E1.
    assert (Hs : for_await context cfg i ris es (Some (length first)) (0 + length first)
                   later ending (vars_after ris es first ([], VStr [])) p1
                 = (Suspended,
                    mkProcess
                      (shared (after_wait context cfg ris es (WaitMessage i (0 + length first)) p1))
                      (abandoned (after_wait context cfg ris es
                                    (WaitMessage i (0 + length first)) p1)
                       ++ [mkConsumer i later ending (vars_after ris es first ([], VStr []))]))).
    { unfold after_wait.
      pose proof (meanwhile_returns context cfg ris es (WaitMessage i (0 + length first)) p1)
        as Hr.
      destruct later; cbn [for_await]; unfold bind at 1;
        destruct (meanwhile context cfg ris es (WaitMessage i (0 + length first)) p1)
          as [r p2]; cbn [fst snd] in *; subst r;
        rewrite bool_decide_eq_true_2 by reflexivity; reflexivity. }
    rewrite Hs. reflexivity.
  - unfold race_timeout, executeAgent, try_finally.
    cbn [Execute.messages Execute.ending].
    unfold bind at 1. unfold lift at 1. unfold setenv at 1. fold p0.
    rewrite <- (app_nil_r first) at 1.
    rewrite for_await_through by (intros k Hk; discriminate Hk).
    unfold bind at 1. rewrite E1. cbn [for_await]. unfold after_wait.
    pose proof (meanwhile_returns context cfg ris es (WaitMessage i (0 + length first)) p1)
      as Hr.
    unfold bind at 1.
    destruct (meanwhile context cfg ris es (WaitMessage i (0 + length first)) p1) as [r p2].
    cbn [fst snd] in *. subst r.
    rewrite bool_decide_eq_false_2 by discriminate. reflexivity.
  - intros Hp.
    destruct (through_alone context cfg i ris es first 0 ([], VStr []) p0 _ _ Hp E1)
      as [Ha He].
    unfold after_wait. rewrite meanwhile_alone by exact Ha. cbn [snd].
    split; [exact Ha |]. rewrite He. subst p0. cbn [shared process_env].
    apply lookup_insert_eq.
Qed.

Lemma timer_wins_race_witness :
  let cfg := sandboxConfig_of (sample_options true "node") (js "/ws") in
  let first := [final_result "draft"] in
  let run :=
    race_timeout
      (executeAgent (sample_host false) cfg 0 false true (js "sk-ant-key")
         (mkStream (first ++ [final_result "done"]) Completes) (Some (length first)))
      (mkProcess initial_state []) in
  run.1 = Thrown timeout_error /\
  map consumer_messages (abandoned run.2) = [[final_result "done"]] /\
  process_env run.2 !! ANTHROPIC_API_KEY = Some (js "sk-ant-key").
Proof.
  intros cfg first run. subst run.
  destruct (timer_wins_race (sample_host false) cfg 0 false true (js "sk-ant-key") first
              (mkProcess initial_state [])) as (p1 & Hrun & _ & Halone).
  - constructor; [vm_compute; reflexivity | constructor].
  - destruct (Halone eq_refl) as [Ha Hk].
    rewrite (Hrun [final_result "done"] Completes). cbn [fst snd abandoned shared].
    rewrite Ha. split; [reflexivity |]. split; [reflexivity | exact Hk].
Defined.

(** X20: a final-result message whose [result] is [undefined] or [null]
    ends the run with the [TypeError] of reading its length; the run is
    not reported complete and nothing is written for the message. *)
Theorem result_without_text_throws
    (context : Host) (cfg : SandboxConfig) (i : nat) (ris es : bool) (msg : obj)
    (vars : list INodeExecutionData * value) (s : State) :
  is_str (get msg (js "type")) (js "result") = true ->
  get msg (js "result") = VUndefined \/ get msg (js "result") = VNull ->
  exists message,
    on_message context cfg i ris es msg vars s = (Thrown (TypeError message), s).
Proof.
  intros Htype Hres. destruct vars as [agentMessages finalResult].
  unfold on_message. rewrite Htype.
  destruct Hres as [-> | ->]; eexists; reflexivity.
Qed.

Lemma result_without_text_throws_witness :
  let msg : obj := {[ js "type" := VStr (js "result") ]} in
  exists message,
    on_message (sample_host false) (sandboxConfig_of (sample_options true "node") (js "/ws"))
      0 false true msg ([], VStr []) initial_state
    = (Thrown (TypeError message), initial_state).
Proof.
  intros msg.
  apply (result_without_text_throws (sample_host false)
           (sandboxConfig_of (sample_options true "node") (js "/ws")) 0 false true msg
           ([], VStr []) initial_state).
  - vm_compute. reflexivity.
  - left. vm_compute. reflexivity.
Defined.

End RunProperties.

(* ===================================================================== *)
(** * Batches *)
(* ===================================================================== *)

Module BatchFacts.

Import Common Execute Observations Stability RunObservations RunFacts.

Lemma others_kept_createSandboxedWorkspace context customPath :
  stable others_kept (createSandboxedWorkspace context customPath).
Proof.
  unfold createSandboxedWorkspace, logger.
  repeat first [apply others_kept_emit | stable_step].
Qed.

Lemma others_kept_cleanup_settled context workspace :
  stable others_kept (cleanup_settled context workspace).
Proof.
  unfold cleanup_settled, logger.
  repeat first [apply others_kept_emit | stable_step].
Qed.

Lemma others_kept_process_items context options cfg workspace items i returnData :
  stable (on_shared others_kept)
    (process_items context options cfg workspace i items returnData).
Proof.
  apply (stable_process_items others_kept); intros;
    first [ apply others_kept_on_message | apply others_kept_unsetenv
          | apply others_kept_setenv | apply others_kept_auditLog ].
Qed.

Lemma others_kept_awaited_cleanup context options cfg workspace :
  stable (on_shared others_kept) (awaited_cleanup context options cfg workspace).
Proof.
  apply (stable_awaited_cleanup others_kept); intros;
    first [ apply others_kept_on_message | apply others_kept_unsetenv
          | apply others_kept_emit | apply others_kept_cleanup_settled ].
Qed.

(** In the mode of one collapsed record per item, an item that succeeds
    adds exactly one record. *)
Lemma run_item_summary_one context options cfg workspace i item (p p' : Process) added :
  summary_mode options = true ->
  run_item context options cfg workspace i item p = (Normal added, p') ->
  length added = 1.
Proof.
  unfold summary_mode, run_item. intros Hmode H.
  apply negb_true_iff in Hmode.
  apply bind_Normal_inv in H as (prompt & p1 & _ & H).
  apply bind_Normal_inv in H as ([] & p2 & _ & H).
  apply bind_Normal_inv in H as ([] & p3 & _ & H).
  apply bind_Normal_inv in H as (query & p4 & _ & H).
  apply bind_Normal_inv in H as (credentials & p5 & _ & H).
  apply bind_Normal_inv in H as (apiKey & p6 & _ & H).
  apply bind_Normal_inv in H as ([agentMessages finalResult] & p7 & _ & H).
  rewrite Hmode in H. injection H as <- _. reflexivity.
Qed.

(** With tolerance of item errors the loop returns, and each item adds
    its records or one error record. *)
Lemma process_items_tolerant context options cfg workspace items :
  continueOnFail context = true ->
  forall i returnData (p : Process),
    exists added p',
      process_items context options cfg workspace i items returnData p
      = (Normal (returnData ++ added), p') /\
      (summary_mode options = true -> length added = length items).
Proof.
  intros Htol. induction items as [|item rest IH]; intros i returnData p; cbn [process_items].
  - exists [], p. rewrite app_nil_r. split; reflexivity.
  - unfold bind at 1. unfold try_catch. unfold bind at 1.
    pose proof (settles_run_item context options cfg workspace i item p) as Hsettle.
    destruct (run_item context options cfg workspace i item p) as [[added | e |] p1] eqn:Hrun;
      cbn [fst] in Hsettle; [| | congruence].
    + cbn [ret].
      destruct (IH (S i) (returnData ++ added) p1) as (added' & p' & -> & Hlen).
      exists (added ++ added'), p'. rewrite app_assoc. split; [reflexivity |].
      intros Hmode. rewrite length_app, (Hlen Hmode).
      rewrite (run_item_summary_one _ _ _ _ _ _ _ _ _ Hmode Hrun). reflexivity.
    + rewrite Htol. cbn [ret].
      destruct (IH (S i)
                  (returnData ++
                   [mkData {[ js "error" :=
                                VStr (error_message (NodeError_message context) e);
                              js "itemIndex" := num i ]}]) p1)
        as (added' & p' & -> & Hlen).
      eexists (_ :: added'), p'. rewrite <- app_assoc. split; [reflexivity |].
      intros Hmode. cbn [length]. rewrite (Hlen Hmode). reflexivity.
Qed.

(** The loop over a list of items is the loop over its first part and
    then, when that returned, the loop over the rest. *)
Lemma process_items_app context options cfg workspace before :
  forall after i returnData (p : Process),
    process_items context options cfg workspace i (before ++ after) returnData p
    = bind (process_items context options cfg workspace i before returnData)
        (fun returnData' =>
           process_items context options cfg workspace (i + length before) after returnData') p.
Proof.
  induction before as [|item before IH]; intros after i returnData p.
  - cbn [app process_items length]. rewrite Nat.add_0_r. reflexivity.
  - cbn [app process_items length]. rewrite bind_assoc_run.
    set (first_item := try_catch _ _). unfold bind.
    destruct (first_item p) as [[rd | e |] p1]; [| reflexivity | reflexivity].
    rewrite IH. replace (S i + length before) with (i + S (length before)) by lia.
    reflexivity.
Qed.

End BatchFacts.

Section BatchProperties.

Import Common Execute Observations Stability RunObservations RunFacts BatchFacts.

(** X21: with tolerance of item errors, a batch that got its workspace
    returns: no item error, timeout or blocked command makes it throw. In
    the mode of one collapsed record per item the output holds exactly one
    record for each input item. *)
Theorem tolerant_batch_returns
    (context : Host) (options : Options) (items : list Item)
    (s s1 : State) (workspace : WorkspaceContext) :
  continueOnFail context = true ->
  batch_setup context options s = (Normal workspace, s1) ->
  exists returnData s',
    claudeCodeAgentExecute context options items s = (Normal [returnData], s') /\
    (summary_mode options = true -> length returnData = length items).
Proof.
  intros Htol Hsetup.
  rewrite claudeCodeAgentExecute_after_setup. unfold bind at 1. rewrite Hsetup.
  destruct (process_items_tolerant context options (sandboxConfig_of options (path workspace))
              workspace items Htol 0 [] (mkProcess s1 [])) as (added & p2 & Hloop & Hlen).
  unfold bind, alone, try_finally. rewrite Hloop.
  destruct (awaited_cleanup_run context options (sandboxConfig_of options (path workspace))
              workspace p2) as (p3 & es' & -> & _).
  cbn [ret app]. eauto.
Qed.

Lemma tolerant_batch_returns_witness :
  let items :=
    [ mkItem (inr []) None (inl (Error [])) None;
      sample_item "wait" (mkStream [] Hangs) None;
      sample_item "say done" (mkStream [final_result "done"] Completes) None ] in
  exists returnData s',
    claudeCodeAgentExecute (sample_host true) (sample_options true "node") items initial_state
    = (Normal [returnData], s') /\
    length returnData = 3.
Proof.
  intros items.
  destruct (tolerant_batch_returns (sample_host true) (sample_options true "node") items
              initial_state
              (batch_setup (sample_host true) (sample_options true "node") initial_state).2
              (mkWorkspaceContext (js "/tmp/n8n-claude-agent/wf1/abababababababab")
                 (js "wf1") (js "exec1") (js "2025-10-27T00:00:00.000Z")))
    as (returnData & s' & Hrun & Hlen).
  - reflexivity.
  - vm_compute. reflexivity.
  - exists returnData, s'. split; [exact Hrun | apply Hlen; reflexivity].
Defined.

(** X22: without tolerance of item errors, the first item that fails ends
    the batch: the error of that item is thrown once the workspace has
    been torn down, the items after it are not run and the records
    collected before it are not returned. The teardown runs in the
    process the failure left: a call the failed item abandoned, when the
    failure was its timeout, goes on while [rm] is awaited. *)
Theorem first_error_aborts_batch
    (context : Host) (options : Options) (before rest : list Item) (item : Item)
    (s s1 : State) (p2 p3 : Process) (workspace : WorkspaceContext)
    (returnData : list INodeExecutionData) (e : error) :
  let cfg := sandboxConfig_of options (path workspace) in
  continueOnFail context = false ->
  batch_setup context options s = (Normal workspace, s1) ->
  process_items context options cfg workspace 0 before [] (mkProcess s1 [])
  = (Normal returnData, p2) ->
  run_item context options cfg workspace (length before) item p2 = (Thrown e, p3) ->
  claudeCodeAgentExecute context options (before ++ item :: rest) s
  = (Thrown e, shared (awaited_cleanup context options cfg workspace p3).2).
Proof.
  intros cfg Hstrict Hsetup Hbefore Hitem.
  rewrite claudeCodeAgentExecute_after_setup. unfold bind at 1. rewrite Hsetup.
  unfold bind at 1. unfold alone, try_finally. fold cfg.
  rewrite process_items_app. unfold bind at 1. rewrite Hbefore.
  cbn [process_items Nat.add]. unfold bind at 1. unfold try_catch. unfold bind at 1.
  rewrite Hitem, Hstrict. cbn [throw].
  destruct (awaited_cleanup_run context options cfg workspace p3) as (p4 & es' & -> & _).
  reflexivity.
Qed.

Lemma first_error_aborts_batch_witness :
  let late (w : wait) := match w with WaitRm => [1; 1] | _ => [] end in
  let context := scheduling_host false late in
  let options := sample_options true "node" in
  let before := [sample_item "say done" (mkStream [final_result "done"] Completes) None] in
  let item := sample_item "wait" (mkStream [final_result "late"] Completes) (Some 0) in
  let rest := [sample_item "never run" (mkStream [final_result "never"] Completes) None] in
  let run := claudeCodeAgentExecute context options (before ++ item :: rest) initial_state in
  run.1 = Thrown timeout_error /\
  process_env run.2 !! ANTHROPIC_API_KEY = None /\
  length (List.filter (fun ev => match ev with
                                 | ELog _ message _ =>
                                     jsstring_eqb message
                                       (js "[AUDIT] Claude Agent: AGENT_COMPLETE")
                                 | _ => false
                                 end) (trace run.2)) = 2.
Proof.
  intros late context options before item rest run. subst run.
  set (workspace := mkWorkspaceContext (js "/tmp/n8n-claude-agent/wf1/abababababababab")
                      (js "wf1") (js "exec1") (js "2025-10-27T00:00:00.000Z")).
  set (cfg := sandboxConfig_of options (path workspace)).
  set (s1 := (batch_setup context options initial_state).2).
  set (loop := process_items context options cfg workspace 0 before [] (mkProcess s1 [])).
  set (failed := run_item context options cfg workspace (length before) item loop.2).
  rewrite (first_error_aborts_batch context options before rest item
             initial_state s1 loop.2 failed.2 workspace
             [mkData {[ js "output" := VStr (js "done");
                        js "workspace" := VStr (path workspace) ]}]
             timeout_error).
  - vm_compute. repeat split; reflexivity.
  - reflexivity.
  - vm_compute. reflexivity.
  - vm_compute. reflexivity.
  - vm_compute. reflexivity.
Defined.

(** X23: the only variable of [process.env] a batch writes or deletes is
    [ANTHROPIC_API_KEY]: every other variable is, when the batch comes
    back, as it was when the batch started, whatever the items do. *)
Theorem batch_keeps_other_variables
    (context : Host) (options : Options) (items : list Item) (s : State) :
  others_kept s (claudeCodeAgentExecute context options items s).2.
Proof.
  revert s. change (stable others_kept (claudeCodeAgentExecute context options items)).
  unfold claudeCodeAgentExecute.
  repeat first
    [ apply others_kept_auditLog
    | apply others_kept_createSandboxedWorkspace
    | apply others_kept_process_items
    | apply others_kept_awaited_cleanup
    | stable_step ].
Qed.

Lemma batch_keeps_other_variables_witness :
  let items :=
    [ sample_item "say done" (mkStream [final_result "done"] Completes) None;
      sample_item "wait" (mkStream [] Hangs) None ] in
  let s := mkState {[ js "PATH" := js "/usr/bin"; ANTHROPIC_API_KEY := js "sk-ant-old" ]} [] in
  process_env (claudeCodeAgentExecute (sample_host true) (sample_options true "node") items s).2
    !! js "PATH"
  = Some (js "/usr/bin").
Proof.
  intros items s.
  rewrite (batch_keeps_other_variables (sample_host true) (sample_options true "node") items s
             (js "PATH")).
  - reflexivity.
  - intros Hkey. vm_compute in Hkey. discriminate Hkey.
Defined.

End BatchProperties.

(* ===================================================================== *)
(** * The audit trail and the configuration *)
(* ===================================================================== *)

Module AuditFacts.

Import Common Execute Observations Stability RunObservations AuditObservations.

Section Attribution.

Variable context : Host.

Lemma audited_by_refl s : audited_by context s s.
Proof. exists []. rewrite app_nil_r. split; [reflexivity | constructor]. Qed.

Lemma audited_by_trans s1 s2 s3 :
  audited_by context s1 s2 -> audited_by context s2 s3 -> audited_by context s1 s3.
Proof.
  intros (e1 & E1 & F1) (e2 & E2 & F2). exists (e1 ++ e2). split.
  - rewrite E2, E1, app_assoc. reflexivity.
  - apply Forall_app. split; assumption.
Qed.

#[export] Instance audited_by_preorder : PreOrder (audited_by context).
Proof. split; [exact audited_by_refl | exact audited_by_trans]. Qed.

Lemma audited_by_emit ev : attributed context ev -> stable (audited_by context) (emit ev).
Proof. intros Hev s. exists [ev]. split; [reflexivity | constructor; [exact Hev | constructor]]. Qed.

Lemma audited_by_setenv k v : stable (audited_by context) (setenv k v).
Proof. intros s. exists []. cbn [setenv snd trace]. rewrite app_nil_r. split; [reflexivity | constructor]. Qed.

Lemma audited_by_unsetenv k : stable (audited_by context) (unsetenv k).
Proof. intros s. exists []. cbn [unsetenv snd trace]. rewrite app_nil_r. split; [reflexivity | constructor]. Qed.

(** A log line of the code that is no audit line. *)
Lemma audited_by_plain_line level message meta :
  startsWith message AUDIT_prefix = false ->
  stable (audited_by context) (logger level message meta).
Proof.
  intros Hplain. apply audited_by_emit. cbn [attributed]. rewrite Hplain. discriminate.
Qed.

(** An audit line whose details do not name the identifying fields. *)
Lemma audited_by_auditLog action details :
  details !! js "workflowId" = None ->
  details !! js "executionId" = None ->
  details !! js "node" = None ->
  stable (audited_by context) (auditLog context action details).
Proof.
  intros Hw He Hn s. rewrite auditLog_eq. cbn [snd].
  exists [audit_line context (length (trace s)) action details].
  split; [reflexivity |]. constructor; [| constructor].
  unfold audit_line. cbn [attributed]. intros _.
  rewrite !lookup_union_r by assumption.
  repeat split; vm_compute; reflexivity.
Qed.

End Attribution.

Ltac distinct_keys := intros Hkey; vm_compute in Hkey; discriminate Hkey.

Ltac fresh_key :=
  repeat (rewrite lookup_insert_ne by distinct_keys);
  first [apply lookup_empty | apply lookup_singleton_ne; distinct_keys].

Ltac audited_step :=
  lazymatch goal with
  | |- stable (audited_by ?host) _ =>
      first [ apply (audited_by_setenv host)
            | apply (audited_by_unsetenv host)
            | apply (audited_by_auditLog host); fresh_key
            | apply (audited_by_plain_line host); reflexivity
            | apply (audited_by_emit host); exact I
            | stable_step ]
  end.

Ltac audited_tac := repeat audited_step.

Lemma audited_by_on_message context cfg i ris es msg vars :
  stable (audited_by context) (on_message context cfg i ris es msg vars).
Proof.
  unfold on_message, get_length. destruct vars. audited_tac.
Qed.

Lemma audited_by_process_items context options cfg workspace items i returnData :
  stable (on_shared (audited_by context))
    (process_items context options cfg workspace i items returnData).
Proof.
  apply (stable_process_items (audited_by context)); intros;
    first [ apply audited_by_on_message | apply audited_by_unsetenv
          | apply audited_by_setenv | (apply audited_by_auditLog; fresh_key) ].
Qed.

Lemma audited_by_createSandboxedWorkspace context customPath :
  stable (audited_by context) (createSandboxedWorkspace context customPath).
Proof. unfold createSandboxedWorkspace. audited_tac. Qed.

Lemma audited_by_cleanup_settled context workspace :
  stable (audited_by context) (cleanup_settled context workspace).
Proof. unfold cleanup_settled. audited_tac. Qed.

Lemma audited_by_awaited_cleanup context options cfg workspace :
  stable (on_shared (audited_by context)) (awaited_cleanup context options cfg workspace).
Proof.
  apply (stable_awaited_cleanup (audited_by context)); intros;
    first [ apply audited_by_on_message | apply audited_by_unsetenv
          | (apply audited_by_emit; exact I) | apply audited_by_cleanup_settled ].
Qed.

(** [s.split(sep)] undoes [parts.join(sep)] on parts without the
    separator. *)
Lemma split_char_part (sep : N) (part cur : jsstring) :
  sep ∉ part -> split_char sep cur part = [cur ++ part].
Proof.
  revert cur. induction part as [|c part IH]; intros cur Hno; cbn [split_char].
  - rewrite app_nil_r. reflexivity.
  - apply not_elem_of_cons in Hno as [Hc Hno].
    rewrite (proj2 (N.eqb_neq c sep)) by congruence.
    rewrite IH by assumption. rewrite <- app_assoc. reflexivity.
Qed.

Lemma split_char_next (sep : N) (part cur rest : jsstring) :
  sep ∉ part ->
  split_char sep cur (part ++ sep :: rest) = (cur ++ part) :: split_char sep [] rest.
Proof.
  revert cur. induction part as [|c part IH]; intros cur Hno; cbn [split_char app].
  - rewrite N.eqb_refl, app_nil_r. reflexivity.
  - apply not_elem_of_cons in Hno as [Hc Hno].
    rewrite (proj2 (N.eqb_neq c sep)) by congruence.
    rewrite IH by assumption. rewrite <- app_assoc. reflexivity.
Qed.

Lemma split_char_join_parts (sep : N) (parts : list jsstring) :
  parts <> [] -> Forall (fun part => sep ∉ part) parts ->
  split_char sep [] (join [sep] parts) = parts.
Proof.
  induction parts as [|part parts IH]; intros Hne Hno; [congruence |].
  inversion Hno as [| ? ? Hpart Hrest]; subst.
  destruct parts as [|part' parts].
  - cbn [join]. apply split_char_part. assumption.
  - change (join [sep] (part :: part' :: parts))
      with (part ++ sep :: join [sep] (part' :: parts)).
    rewrite split_char_next by assumption. rewrite IH by (congruence || assumption).
    reflexivity.
Qed.

End AuditFacts.

Section ConfigurationProperties.

Import Common Execute Observations Stability AuditObservations AuditFacts.

(** X24: every audit line of a batch names the workflow, the execution
    and the node of the host that runs it: no call site overwrites these
    fields with its details. The first event of a batch is the audit line
    of its initialization. *)
Theorem audit_lines_attributed
    (context : Host) (options : Options) (items : list Item) (s : State) :
  exists details rest,
    new_events s (claudeCodeAgentExecute context options items s).2
    = audit_line context (length (trace s)) (js "AGENT_INIT") details :: rest /\
    Forall (attributed context)
      (new_events s (claudeCodeAgentExecute context options items s).2).
Proof.
  enough (H : exists details rest,
             new_events s (claudeCodeAgentExecute context options items s).2
             = audit_line context (length (trace s)) (js "AGENT_INIT") details :: rest /\
             Forall (attributed context)
               (audit_line context (length (trace s)) (js "AGENT_INIT") details :: rest)).
  { destruct H as (details & rest & E & F). exists details, rest.
    split; [exact E | rewrite E; exact F]. }
  unfold claudeCodeAgentExecute.
  lazymatch goal with
  | |- context [auditLog _ _ ?d] => set (details := d)
  end.
  set (body := bind (createSandboxedWorkspace context (opt_workspacePath options)) _).
  assert (Hbody : stable (audited_by context) body).
  { subst body.
    repeat first
      [ apply audited_by_createSandboxedWorkspace
      | apply audited_by_process_items
      | apply audited_by_awaited_cleanup
      | stable_step ]. }
  assert (Hinit : stable (audited_by context) (auditLog context (js "AGENT_INIT") details)).
  { subst details. apply (audited_by_auditLog context); fresh_key. }
  unfold bind at 1. rewrite auditLog_eq.
  specialize (Hinit s). rewrite auditLog_eq in Hinit. cbn [snd] in Hinit.
  destruct Hinit as (es0 & E0 & F0). cbn [trace] in E0.
  apply app_inv_head in E0. subst es0.
  destruct (Hbody (mkState (process_env s)
                     (trace s ++ [audit_line context (length (trace s)) (js "AGENT_INIT") details])))
    as (es & E & F).
  cbn [trace] in E. rewrite <- app_assoc in E. cbn [app] in E.
  exists details, es. rewrite (new_events_app _ _ _ E).
  split; [reflexivity |].
  apply List.Forall_cons; [exact (List.Forall_inv F0) | exact F].
Qed.

(** X25: the allowlist option is read as its comma-separated entries,
    each with the white space around it removed; entries are not
    otherwise checked, so an entry that is blank stays in the list as the
    empty string. *)
Theorem allowlist_entries_trimmed
    (options : Options) (workspacePath : jsstring) (entries : list jsstring) :
  entries <> [] ->
  Forall (fun entry => 44%N ∉ entry) entries ->
  join (js ",") entries <> [] ->
  opt_allowedCommands options = Some (join (js ",") entries) ->
  allowedCommands (sandboxConfig_of options workspacePath) = map trim entries.
Proof.
  intros Hne Hno Hstr Hopt. cbn [sandboxConfig_of allowedCommands]. rewrite Hopt.
  assert (Hor : forall x d, x <> [] -> or_str (Some x) d = x)
    by (intros [|c x] d Hx; [congruence | reflexivity]).
  rewrite Hor by exact Hstr.
  change (js ",") with [44%N]. rewrite split_char_join_parts by assumption.
  reflexivity.
Qed.

Lemma allowlist_entries_trimmed_witness :
  allowedCommands
    (sandboxConfig_of
       (mkOptions None None None None None (Some (js " node,git ,")) None None None None)
       (js "/ws"))
  = [js "node"; js "git"; []].
Proof.
  apply (allowlist_entries_trimmed
           (mkOptions None None None None None (Some (js " node,git ,")) None None None None)
           (js "/ws") [js " node"; js "git "; []]).
  - discriminate.
  - repeat (constructor; [apply (bool_decide_unpack _); vm_compute; reflexivity |]).
    constructor.
  - discriminate.
  - reflexivity.
Defined.

End ConfigurationProperties.
